(** * desdic/fanotify: the fanotify event reader of [main.go]

    A shallow embedding of [maskToHuman], [readEvents] and [main], together
    with the library calls they make (encoding/binary over a bytes.Reader,
    strings, path/filepath, golang.org/x/sys/unix), and the properties of the
    decoder proved over it.

    Conventions.  Go integers are [Z]; where the program converts or adds
    fixed-width values the wrap-around is written out ([int64], [int32]).
    A [[]byte] is a [list byte], a Go [string] a [string].  The operating
    system is an oracle ([Kernel]) consulted by the system-call wrappers,
    which thread an explicit [World] holding the descriptor table, the
    zerolog output and the trace of system calls. *)

From Stdlib Require Import ZArith String Ascii DecimalString List Lia Bool.
From Stdlib.Strings Require Import Byte.
Import ListNotations.
Local Open Scope Z_scope.

(** ** Fixed-width integers *)

Definition int64 (z : Z) : Z := (z + 2 ^ 63) mod 2 ^ 64 - 2 ^ 63.
Definition int32 (z : Z) : Z := (z + 2 ^ 31) mod 2 ^ 32 - 2 ^ 31.

Definition len {A} (l : list A) : Z := Z.of_nat (List.length l).

(** [b[lo:hi]] on a slice whose capacity equals its length: Go panics
    unless [0 <= lo <= hi <= cap(b)]. *)
Definition slice {A} (b : list A) (lo hi : Z) : option (list A) :=
  if (0 <=? lo) && (lo <=? hi) && (hi <=? len b)
  then Some (firstn (Z.to_nat (hi - lo)) (skipn (Z.to_nat lo) b))
  else None.

(** ** Errors *)

Inductive error :=
| EOF
| ErrUnexpectedEOF
| ErrNegativePosition          (* "bytes.Reader.Seek: negative position" *)
| Errno (e : Z).

(** unix.ESTALE on Linux. *)
Definition ESTALE : Z := 0x74.
Definition ENOENT : Z := 0x2.

(** [errors.Is(err, target)] for a [syscall.Errno] target. *)
Definition errors_Is (e : error) (target : Z) : bool :=
  match e with
  | Errno x => x =? target
  | _ => false
  end.

(** ** encoding/binary, little endian *)

Definition byte_Z (b : byte) : Z := Z.of_N (Byte.to_N b).

Fixpoint le_uint (bs : list byte) : Z :=
  match bs with
  | [] => 0
  | b :: rest => byte_Z b + 256 * le_uint rest
  end.

Definition field (bs : list byte) (off width : nat) : list byte :=
  firstn width (skipn off bs).

(** unix.FanotifyEventMetadata, 24 bytes on the wire. *)
Record FanotifyEventMetadata := {
  Event_len : Z;      (* uint32 *)
  Vers : Z;           (* uint8 *)
  Reserved : Z;       (* uint8 *)
  Metadata_len : Z;   (* uint16 *)
  Mask : Z;           (* uint64 *)
  Fd : Z;             (* int32 *)
  Pid : Z             (* int32 *)
}.

Definition sizeof_FanotifyEventMetadata : Z := 24.

Definition decode_FanotifyEventMetadata (bs : list byte) : FanotifyEventMetadata :=
  {| Event_len := le_uint (field bs 0 4);
     Vers := le_uint (field bs 4 1);
     Reserved := le_uint (field bs 5 1);
     Metadata_len := le_uint (field bs 6 2);
     Mask := le_uint (field bs 8 8);
     Fd := int32 (le_uint (field bs 16 4));
     Pid := int32 (le_uint (field bs 20 4)) |}.

Record fanotifyEventInfoHeader := {
  InfoType : Z;       (* uint8 *)
  Pad : Z;            (* uint8 *)
  Len : Z             (* uint16 *)
}.

Record fanotifyEventInfoFid := {
  Header : fanotifyEventInfoHeader;
  FSID : Z            (* uint64 *)
}.

Definition sizeof_fanotifyEventInfoFid : Z := 12.

Definition decode_fanotifyEventInfoFid (bs : list byte) : fanotifyEventInfoFid :=
  {| Header := {| InfoType := le_uint (field bs 0 1);
                  Pad := le_uint (field bs 1 1);
                  Len := le_uint (field bs 2 2) |};
     FSID := le_uint (field bs 4 8) |}.

Record fileHandleInfo := {
  Bytes : Z;          (* uint32 *)
  Type_ : Z           (* int32 *)
}.

Definition sizeof_fileHandleInfo : Z := 8.

Definition decode_fileHandleInfo (bs : list byte) : fileHandleInfo :=
  {| Bytes := le_uint (field bs 0 4);
     Type_ := int32 (le_uint (field bs 4 4)) |}.

(** ** bytes.Reader *)

Record Reader := {
  s : list byte;
  i : Z
}.

Definition NewReader (b : list byte) : Reader := {| s := b; i := 0 |}.

(** [(r *Reader) Read(b)] with [len(b) = want]. *)
Definition Reader_Read (r : Reader) (want : Z) : Reader * list byte * option error :=
  if len (s r) <=? i r then (r, [], Some EOF)
  else
    let n := Z.min want (len (s r) - i r) in
    ({| s := s r; i := i r + n |},
     firstn (Z.to_nat n) (skipn (Z.to_nat (i r)) (s r)),
     None).

Inductive Whence := SeekStart | SeekCurrent | SeekEnd.

(** [(r *Reader) Seek(offset, whence)]: the new position and the error. *)
Definition Reader_Seek (r : Reader) (offset : Z) (whence : Whence)
  : Reader * Z * option error :=
  let abs :=
    match whence with
    | SeekStart => offset
    | SeekCurrent => int64 (i r + offset)
    | SeekEnd => int64 (len (s r) + offset)
    end in
  if abs <? 0 then (r, 0, Some ErrNegativePosition)
  else ({| s := s r; i := abs |}, abs, None).

(** [io.ReadAtLeast]'s loop [for n < min && err == nil], the bytes read so
    far in [acc]; every call of [Read] that does not fail delivers at least
    one byte, so [fuel] above the number of missing bytes is never used up. *)
Fixpoint ReadAtLeast_loop (fuel : nat) (r : Reader) (min : Z) (acc : list byte)
  : Reader * list byte * option error :=
  match fuel with
  | O => (r, acc, None)
  | S fuel' =>
      if len acc <? min then
        let '(r', bs, err) := Reader_Read r (min - len acc) in
        match err with
        | Some e => (r', (acc ++ bs)%list, Some e)
        | None => ReadAtLeast_loop fuel' r' min (acc ++ bs)%list
        end
      else (r, acc, None)
  end.

(** [io.ReadFull(r, buf)] with [len(buf) = size]. *)
Definition ReadFull (r : Reader) (size : Z) : Reader * list byte * option error :=
  let '(r', got, err) := ReadAtLeast_loop (S (Z.to_nat size)) r size [] in
  if size <=? len got then (r', got, None)
  else if (0 <? len got) && (match err with Some EOF => true | _ => false end)
       then (r', got, Some ErrUnexpectedEOF)
       else (r', got, err).

(** [binary.Read(rd, binary.LittleEndian, &v)] for a value of [size] bytes:
    the bytes to decode, or the error of [io.ReadFull]. *)
Definition binary_Read (r : Reader) (size : Z) : Reader * (error + list byte) :=
  let '(r', got, err) := ReadFull r size in
  match err with
  | Some e => (r', inl e)
  | None => (r', inr got)
  end.

(** ** strings, unix.ByteSliceToString *)

Definition HasSuffix (str suffix : string) : bool :=
  (String.length suffix <=? String.length str)%nat &&
  String.eqb
    (substring (String.length str - String.length suffix)
               (String.length suffix) str)
    suffix.

Definition TrimSuffix (str suffix : string) : string :=
  if HasSuffix str suffix
  then substring 0 (String.length str - String.length suffix) str
  else str.

Definition strings_Join (elems : list string) (sep : string) : string :=
  String.concat sep elems.

Fixpoint IndexByte (b : list byte) (c : byte) : Z :=
  match b with
  | [] => -1
  | x :: rest =>
      if Byte.eqb x c then 0
      else let k := IndexByte rest c in
           if k =? -1 then -1 else k + 1
  end.

Definition ByteSliceToString (b : list byte) : string :=
  let k := IndexByte b x00 in
  if k =? -1 then string_of_list_byte b
  else string_of_list_byte (firstn (Z.to_nat k) b).

(** ** path/filepath on Unix *)

Definition Separator : ascii := "/"%char.
Definition IsPathSeparator (c : ascii) : bool := Ascii.eqb c Separator.
Definition is_dot (c : ascii) : bool := Ascii.eqb c "."%char.

Definition at_end_or_sep (p : list ascii) : bool :=
  match p with
  | [] => true
  | c :: _ => IsPathSeparator c
  end.

(** The [..] case of [Clean]: [out.w--] and then back to the previous
    separator, never below [dotdot]. *)
Fixpoint backtrack (fuel : nat) (out : list ascii) (w dotdot : nat) : nat :=
  match fuel with
  | O => w
  | S fuel' =>
      if (dotdot <? w)%nat && negb (IsPathSeparator (nth w out Separator))
      then backtrack fuel' out (w - 1)%nat dotdot
      else w
  end.

Fixpoint copy_element (p : list ascii) : list ascii * list ascii :=
  match p with
  | [] => ([], [])
  | c :: rest =>
      if IsPathSeparator c then ([], p)
      else let '(e, q) := copy_element rest in (c :: e, q)
  end.

(** The loop [for r < n] of [Clean]: [p] is [path[r:]], [out] the bytes
    written so far ([out.w] is its length). Every turn consumes at least one
    byte of [p]. *)
Fixpoint Clean_loop (fuel : nat) (rooted : bool) (p : list ascii)
         (out : list ascii) (dotdot : nat) : list ascii :=
  match fuel with
  | O => out
  | S fuel' =>
      match p with
      | [] => out
      | c :: p1 =>
          if IsPathSeparator c then
            Clean_loop fuel' rooted p1 out dotdot
          else if is_dot c && at_end_or_sep p1 then
            Clean_loop fuel' rooted p1 out dotdot
          else if is_dot c && (match p1 with
                               | d :: p2 => is_dot d && at_end_or_sep p2
                               | [] => false
                               end) then
            let p2 := tl p1 in
            if (dotdot <? List.length out)%nat then
              let w := backtrack (List.length out) out (List.length out - 1) dotdot in
              Clean_loop fuel' rooted p2 (firstn w out) dotdot
            else if negb rooted then
              let out1 := if (0 <? List.length out)%nat
                          then (out ++ [Separator])%list else out in
              let out2 := (out1 ++ ["."%char; "."%char])%list in
              Clean_loop fuel' rooted p2 out2 (List.length out2)
            else Clean_loop fuel' rooted p2 out dotdot
          else
            let out1 :=
              if (rooted && negb (List.length out =? 1)%nat)
                 || (negb rooted && negb (List.length out =? 0)%nat)
              then (out ++ [Separator])%list else out in
            let '(e, q) := copy_element p in
            Clean_loop fuel' rooted q (out1 ++ e)%list dotdot
      end
  end.

Definition Clean (path : string) : string :=
  match list_ascii_of_string path with
  | [] => "."%string
  | c :: rest =>
      let rooted := IsPathSeparator c in
      let out :=
        if rooted
        then Clean_loop (S (List.length rest)) rooted rest [Separator] 1
        else Clean_loop (S (S (List.length rest))) rooted (c :: rest) [] 0 in
      match out with
      | [] => "."%string
      | _ => string_of_list_ascii out
      end
  end.

(** [filepath.Join(elem...)]: leading empty elements are dropped, the rest
    joined with the separator and cleaned. *)
Fixpoint filepath_Join (elem : list string) : string :=
  match elem with
  | [] => ""%string
  | e :: rest =>
      if String.eqb e ""%string then filepath_Join rest
      else Clean (strings_Join elem (String Separator ""%string))
  end.

(** ** maskToHuman *)

(** golang.org/x/sys/unix, Linux. *)
Definition IN_ACCESS : Z := 0x1.
Definition IN_MODIFY : Z := 0x2.
Definition IN_ATTRIB : Z := 0x4.
Definition IN_CLOSE_WRITE : Z := 0x8.
Definition IN_CLOSE_NOWRITE : Z := 0x10.
Definition IN_OPEN : Z := 0x20.
Definition IN_MOVED_FROM : Z := 0x40.
Definition IN_MOVED_TO : Z := 0x80.
Definition IN_CREATE : Z := 0x100.
Definition IN_DELETE : Z := 0x200.
Definition IN_DELETE_SELF : Z := 0x400.
Definition IN_MOVE_SELF : Z := 0x800.
Definition IN_UNMOUNT : Z := 0x2000.
Definition IN_Q_OVERFLOW : Z := 0x4000.
Definition IN_IGNORED : Z := 0x8000.
Definition IN_ISDIR : Z := 0x40000000.

Definition FAN_CREATE : Z := 0x100.

(** [if mask&bit > 0 { flags = append(flags, name) }] *)
Definition append_if_set (mask bit : Z) (name : string) (flags : list string)
  : list string :=
  if Z.land mask bit >? 0 then (flags ++ [name])%list else flags.

(** The slice [flags] of [maskToHuman] at its [return]. *)
Definition maskToHuman_flags (mask : Z) : list string :=
  let flags := [] in
  let flags := append_if_set mask IN_CLOSE_WRITE "FAN_CLOSE_WRITE" flags in
  let flags := append_if_set mask IN_ACCESS "FAN_ACCESS" flags in
  let flags := append_if_set mask IN_ATTRIB "FAN_ATTRIB" flags in
  let flags := append_if_set mask IN_CLOSE_NOWRITE "FAN_CLOSE_NOWRITE" flags in
  let flags := append_if_set mask IN_CREATE "FAN_CREATE" flags in
  let flags := append_if_set mask IN_DELETE "FAN_DELETE" flags in
  let flags := append_if_set mask IN_DELETE_SELF "FAN_DELETE_SELF" flags in
  let flags := append_if_set mask IN_IGNORED "FAN_IGNORED" flags in
  let flags := append_if_set mask IN_ISDIR "FAN_ISDIR" flags in
  let flags := append_if_set mask IN_MODIFY "FAN_MODIFY" flags in
  let flags := append_if_set mask IN_MOVE_SELF "fanMoveSelf" flags in
  let flags := append_if_set mask IN_MOVED_FROM "fanMovedFrom" flags in
  let flags := append_if_set mask IN_MOVED_TO "fanMovedTo" flags in
  let flags := append_if_set mask IN_OPEN "FAN_OPEN" flags in
  let flags := append_if_set mask IN_Q_OVERFLOW "FAN_Q_OVERFLOW" flags in
  let flags := append_if_set mask IN_UNMOUNT "FAN_UNMOUNT" flags in
  flags.

Definition maskToHuman (mask : Z) : string :=
  strings_Join (maskToHuman_flags mask) ", ".

(** ** The operating system *)

(** unix.FileHandle: a handle type and the opaque handle bytes. *)
Record FileHandle := {
  fh_type : Z;
  fh_bytes : list byte
}.

Definition NewFileHandle (handleType : Z) (handle : list byte) : FileHandle :=
  {| fh_type := handleType; fh_bytes := handle |}.

(** What an open descriptor refers to. *)
Inductive FdTarget :=
| FdNotify                      (* the fanotify group *)
| FdPath (path : string)        (* opened by path *)
| FdHandle (fh : FileHandle).   (* opened by file handle *)

Inductive Level := ErrorLevel | InfoLevel.

(** One line of zerolog output. *)
Record LogEntry := {
  level : Level;
  message : string;
  cause : option error
}.

(** The calls [main.go] makes into the [unix] and [os] packages, each with
    its arguments and what it returned. *)
Inductive Syscall :=
| SysFanotifyInit (flags event_f_flags : Z) (ret : error + Z)
| SysFanotifyMark (fd flags mask dirFd : Z) (pathname : string) (ret : option error)
| SysOpen (path : string) (mode : Z) (ret : error + Z)
| SysRead (fd : Z) (ret : error + Z)
| SysOpenByHandleAt (mountFD : Z) (fh : FileHandle) (flags : Z) (ret : error + Z)
| SysReadlink (name : string) (ret : error + string)
| SysClose (fd : Z).

Record World := {
  fds : list (Z * FdTarget);    (* the descriptor table, last opened first *)
  log : list LogEntry;          (* oldest first *)
  trace : list Syscall          (* the calls of [main.go] itself, oldest first *)
}.

(** The answers of the operating system. Each may depend on everything that
    happened so far (the [World]); an [option Z] is the errno of a failing
    call. *)
Record Kernel := {
  k_fanotify_init : World -> option Z;
  k_fanotify_mark : World -> Z -> option Z;
  k_open : World -> string -> option Z;
  (* the next batch of event bytes, an errno, or [None] when the read never
     returns *)
  k_read : World -> Z -> option (Z + list byte);
  k_open_by_handle_at : World -> Z -> FileHandle -> option Z;
  (* the target of /proc/self/fd/N for what descriptor N refers to *)
  k_readlink : World -> FdTarget -> Z + string
}.

Definition record_call (c : Syscall) (w : World) : World :=
  {| fds := fds w; log := log w; trace := (trace w ++ [c])%list |}.

Definition set_fds (t : list (Z * FdTarget)) (w : World) : World :=
  {| fds := t; log := log w; trace := trace w |}.

(** A line handed to the logger. What zerolog and the Go runtime do to put
    it out (the write to standard error, the time zone looked up for the
    time stamp of the first line) is outside the program text and is not
    modelled: [trace] holds the calls of [main.go] only. *)
Definition add_log (e : LogEntry) (w : World) : World :=
  {| fds := fds w; log := (log w ++ [e])%list; trace := trace w |}.

(** [log.Error().Err(err).Msg(msg)] *)
Definition log_Error (msg : string) (e : error) (w : World) : World :=
  add_log {| level := ErrorLevel; message := msg; cause := Some e |} w.

(** [log.Info().Msgf(...)] *)
Definition log_Info (msg : string) (w : World) : World :=
  add_log {| level := InfoLevel; message := msg; cause := None |} w.

(** The lowest descriptor number not in use. *)
Fixpoint lowest_free_from (fuel : nat) (k : Z) (used : list Z) : Z :=
  match fuel with
  | O => k
  | S fuel' =>
      if existsb (Z.eqb k) used then lowest_free_from fuel' (k + 1) used else k
  end.

Definition lowest_free (t : list (Z * FdTarget)) : Z :=
  lowest_free_from (List.length t) 0 (map fst t).

Fixpoint lookup_fd (fd : Z) (t : list (Z * FdTarget)) : option FdTarget :=
  match t with
  | [] => None
  | (k, x) :: rest => if k =? fd then Some x else lookup_fd fd rest
  end.

Fixpoint close_fd (fd : Z) (t : list (Z * FdTarget)) : list (Z * FdTarget) :=
  match t with
  | [] => []
  | (k, x) :: rest => if k =? fd then rest else (k, x) :: close_fd fd rest
  end.

Definition open_new (x : FdTarget) (w : World) : World * Z :=
  let fd := lowest_free (fds w) in
  (set_fds ((fd, x) :: fds w) w, fd).

Definition unix_FanotifyInit (k : Kernel) (flags event_f_flags : Z) (w : World)
  : World * (error + Z) :=
  match k_fanotify_init k w with
  | Some e => (record_call (SysFanotifyInit flags event_f_flags (inl (Errno e))) w,
               inl (Errno e))
  | None =>
      let '(w1, fd) := open_new FdNotify w in
      (record_call (SysFanotifyInit flags event_f_flags (inr fd)) w1, inr fd)
  end.

Definition unix_FanotifyMark (k : Kernel) (fd flags mask dirFd : Z)
           (pathname : string) (w : World) : World * option error :=
  let ret := option_map Errno (k_fanotify_mark k w fd) in
  (record_call (SysFanotifyMark fd flags mask dirFd pathname ret) w, ret).

Definition unix_Open (k : Kernel) (path : string) (mode : Z) (w : World)
  : World * (error + Z) :=
  match k_open k w path with
  | Some e => (record_call (SysOpen path mode (inl (Errno e))) w, inl (Errno e))
  | None =>
      let '(w1, fd) := open_new (FdPath path) w in
      (record_call (SysOpen path mode (inr fd)) w1, inr fd)
  end.

(** [unix.Read(fd, buf)]: at most [len(buf)] bytes are stored at the start of
    [buf], the rest of [buf] keeps its content. [None] when the call blocks
    for ever. *)
Definition unix_Read (k : Kernel) (fd : Z) (buf : list byte) (w : World)
  : option (World * list byte * (error + Z)) :=
  match k_read k w fd with
  | None => None
  | Some (inl e) => Some (record_call (SysRead fd (inl (Errno e))) w, buf, inl (Errno e))
  | Some (inr data) =>
      let got := firstn (List.length buf) data in
      let n := len got in
      Some (record_call (SysRead fd (inr n)) w,
            (got ++ skipn (List.length got) buf)%list,
            inr n)
  end.

Definition unix_OpenByHandleAt (k : Kernel) (mountFD : Z) (fh : FileHandle)
           (flags : Z) (w : World) : World * (error + Z) :=
  match k_open_by_handle_at k w mountFD fh with
  | Some e => (record_call (SysOpenByHandleAt mountFD fh flags (inl (Errno e))) w,
               inl (Errno e))
  | None =>
      let '(w1, fd) := open_new (FdHandle fh) w in
      (record_call (SysOpenByHandleAt mountFD fh flags (inr fd)) w1, inr fd)
  end.

(** [fmt.Sprintf("/proc/self/fd/%d", fd)] *)
Definition proc_self_fd (fd : Z) : string :=
  ("/proc/self/fd/" ++ DecimalString.NilZero.string_of_int (Z.to_int fd))%string.

(** [os.Readlink] of the /proc entry of descriptor [fd]. *)
Definition os_Readlink_proc_fd (k : Kernel) (fd : Z) (w : World)
  : World * (error + string) :=
  let ret :=
    match lookup_fd fd (fds w) with
    | None => inl (Errno ENOENT)
    | Some x =>
        match k_readlink k w x with
        | inl e => inl (Errno e)
        | inr p => inr p
        end
    end in
  (record_call (SysReadlink (proc_self_fd fd) ret) w, ret).

Definition unix_Close (fd : Z) (w : World) : World :=
  record_call (SysClose fd) (set_fds (close_fd fd (fds w)) w).

(** ** readEvents *)

Definition O_RDONLY : Z := 0x0.
Definition O_DIRECTORY : Z := 0x10000.   (* amd64 *)

(** How one turn of the inner loop [for offset < int64(n)] ends. *)
Inductive Iter :=
| Continue (rd : Reader) (offset : Z) (w : World)  (* back to the loop test *)
| Break (w : World)                                (* [break] *)
| Panic (w : World).                               (* slice bounds out of range *)

(** [offset, _ = rd.Seek(offset+int64(event.Event_len), io.SeekStart); continue] *)
Definition resync (rd : Reader) (offset : Z) (event : FanotifyEventMetadata)
           (w : World) : Iter :=
  let '(rd', offset', _) :=
    Reader_Seek rd (int64 (offset + Event_len event)) SeekStart in
  Continue rd' offset' w.

(** Lines 160-206: the handle has been read; resolve it, log the event and
    move to the next record. *)
Definition resolve_and_log (k : Kernel) (mount_fd : Z) (buf : list byte)
           (rd : Reader) (offset : Z) (event : FanotifyEventMetadata)
           (fhInfo : fileHandleInfo) (fileHandle : list byte) (w : World) : Iter :=
  let fh := NewFileHandle (Type_ fhInfo) fileHandle in
  match unix_OpenByHandleAt k mount_fd fh O_RDONLY w with
  | (w, inl e) =>
      let w := if negb (errors_Is e ESTALE)
               then log_Error "failed to open file handle" e w
               else w in
      resync rd offset event w
  | (w, inr fd) =>
  match os_Readlink_proc_fd k fd w with
  | (w, inl e) => resync rd offset event (log_Error "failed to read symlink" e w)
  | (w, inr dir) =>
  let w := unix_Close fd w in
  let dir := TrimSuffix dir " (deleted)" in
  let '(rd, start, _) := Reader_Seek rd 0 SeekCurrent in
  let end_ := int64 (offset + Event_len event) in
  match slice buf start end_ with
  | None => Panic w
  | Some name =>
  let filename := ByteSliceToString name in
  let eventPath := filepath_Join [dir; filename] in
  let w := log_Info (eventPath ++ ", " ++ maskToHuman (Mask event))%string w in
  match Reader_Seek rd end_ SeekStart with
  | (_, _, Some e) => Break (log_Error "failed to set new offset" e w)
  | (rd, offset, None) => Continue rd offset w
  end end end end.

(** The body of the inner loop, lines 112-206. Memory is not modelled:
    [make([]byte, fhInfo.Bytes)] always succeeds. *)
Definition loop_body (k : Kernel) (mount_fd : Z) (buf : list byte)
           (rd : Reader) (offset : Z) (w : World) : Iter :=
  match binary_Read rd sizeof_FanotifyEventMetadata with
  | (_, inl e) => Break (log_Error "failed to read event metadata" e w)
  | (rd, inr bs) =>
  let event := decode_FanotifyEventMetadata bs in
  match binary_Read rd sizeof_fanotifyEventInfoFid with
  | (rd, inl e) => resync rd offset event (log_Error "failed to read event fid" e w)
  | (rd, inr bs) =>
  let fid := decode_fanotifyEventInfoFid bs in
  match binary_Read rd sizeof_fileHandleInfo with
  | (rd, inl e) =>
      resync rd offset event (log_Error "failed to read file handle info" e w)
  | (rd, inr bs) =>
  let fhInfo := decode_fileHandleInfo bs in
  match binary_Read rd (Bytes fhInfo) with
  | (rd, inl e) => resync rd offset event (log_Error "failed to read file handle" e w)
  | (rd, inr fileHandle) =>
      resolve_and_log k mount_fd buf rd offset event fhInfo fileHandle w
  end end end end.

(** ** The process *)

Definition FAN_CLASS_NOTIF : Z := 0x0.
Definition FAN_REPORT_DFID_NAME : Z := 0xc00.
Definition FAN_MARK_ADD : Z := 0x1.
Definition FAN_MARK_REMOVE : Z := 0x2.
Definition FAN_MARK_FILESYSTEM : Z := 0x100.
Definition FAN_MODIFY : Z := 0x2.
Definition FAN_CLOSE_WRITE : Z := 0x8.
Definition FAN_DELETE : Z := 0x200.
Definition FAN_MOVE : Z := 0xc0.
Definition AT_FDCWD : Z := -0x64.

Definition markFlags : Z := Z.lor FAN_MARK_ADD FAN_MARK_FILESYSTEM.
Definition markMask : Z :=
  Z.lor (Z.lor (Z.lor (Z.lor (Z.lor FAN_DELETE FAN_MODIFY) FAN_CLOSE_WRITE)
                      FAN_CREATE) FAN_MARK_REMOVE) FAN_MOVE.

Definition target : string := "/tmp".

Definition buf_size : nat := 4096.

(** [make([]byte, 4096)] *)
Definition make_buf : list byte := repeat x00 buf_size.

(** The control points of the program. *)
Inductive State :=
| Boot (w : World)
    (* [main] entered *)
| MainLoop (fd : Z) (w : World)
    (* the [for] of [main], about to call [readEvents(fd, target)] *)
| Reading (fd mount_fd : Z) (buf : list byte) (w : World)
    (* the outer [for] of [readEvents], about to call [unix.Read] *)
| Draining (fd mount_fd : Z) (buf : list byte) (n : Z)
           (rd : Reader) (offset : Z) (w : World)
    (* the test of the inner [for offset < int64(n)] *)
| Exited (w : World)
    (* [main] returned *)
| Panicked (w : World).
    (* the process died of a run-time panic *)

(** [main], lines 212-226: the notification group is created and the
    filesystem of [target] marked. *)
Definition main_start (k : Kernel) (w : World) : State :=
  match unix_FanotifyInit k (Z.lor FAN_CLASS_NOTIF FAN_REPORT_DFID_NAME)
                          O_RDONLY w with
  | (w, inl e) => Exited (log_Error "init failed" e w)
  | (w, inr fd) =>
      match unix_FanotifyMark k fd markFlags markMask AT_FDCWD target w with
      | (w, Some e) => Exited (log_Error "mark failed" e w)
      | (w, None) => MainLoop fd w
      end
  end.

(** [readEvents(fd, target)], lines 91-98: the buffer is made and the mount
    descriptor opened; when that fails the call returns to [main]. *)
Definition readEvents_enter (k : Kernel) (fd : Z) (target : string) (w : World)
  : State :=
  let buf := make_buf in
  match unix_Open k target (Z.lor O_DIRECTORY O_RDONLY) w with
  | (w, inl e) => MainLoop fd (log_Error "unable to get mount fd" e w)
  | (w, inr mount_fd) => Reading fd mount_fd buf w
  end.

(** [readEvents], lines 101-109: one read into the buffer; when it fails the
    call returns to [main]. *)
Definition readEvents_read (k : Kernel) (fd mount_fd : Z) (buf : list byte)
           (w : World) : option State :=
  match unix_Read k fd buf w with
  | None => None
  | Some (w, _, inl e) => Some (MainLoop fd (log_Error "unable to read" e w))
  | Some (w, buf, inr n) => Some (Draining fd mount_fd buf n (NewReader buf) 0 w)
  end.

(** [readEvents], lines 111-207: the test of the inner loop and one turn. *)
Definition readEvents_turn (k : Kernel) (fd mount_fd : Z) (buf : list byte)
           (n : Z) (rd : Reader) (offset : Z) (w : World) : State :=
  if offset <? int64 n then
    match loop_body k mount_fd buf rd offset w with
    | Continue rd offset w => Draining fd mount_fd buf n rd offset w
    | Break w => Reading fd mount_fd buf w
    | Panic w => Panicked w
    end
  else Reading fd mount_fd buf w.

(** One move of the program from a control point to the next; [None] if the
    process has ended or the read never returns. *)
Definition step (k : Kernel) (st : State) : option State :=
  match st with
  | Boot w => Some (main_start k w)
  | MainLoop fd w => Some (readEvents_enter k fd target w)
  | Reading fd mount_fd buf w => readEvents_read k fd mount_fd buf w
  | Draining fd mount_fd buf n rd offset w =>
      Some (readEvents_turn k fd mount_fd buf n rd offset w)
  | Exited _ => None
  | Panicked _ => None
  end.

Fixpoint run (k : Kernel) (fuel : nat) (st : State) : State :=
  match fuel with
  | O => st
  | S fuel' =>
      match step k st with
      | Some st' => run k fuel' st'
      | None => st
      end
  end.

Definition world_of (st : State) : World :=
  match st with
  | Boot w | MainLoop _ w | Reading _ _ _ w | Draining _ _ _ _ _ _ w
  | Exited w | Panicked w => w
  end.

(** ** Well-formed buffers

    The wire format of one event as the kernel writes it with
    FAN_REPORT_DFID_NAME: the metadata, one info record of identifier,
    handle descriptor and handle bytes, then the name, terminated and padded
    with zero bytes up to the declared length. *)

Definition Z_byte (z : Z) : byte :=
  match Byte.of_N (Z.to_N (z mod 256)) with
  | Some b => b
  | None => x00
  end.

(** [binary.LittleEndian.PutUintN]: the [width] low bytes of [z]. *)
Fixpoint le_bytes (width : nat) (z : Z) : list byte :=
  match width with
  | O => []
  | S width' => Z_byte z :: le_bytes width' (z / 256)
  end.

Record RawRecord := {
  rec_vers : Z;
  rec_reserved : Z;
  rec_metadata_len : Z;
  rec_mask : Z;
  rec_fd : Z;
  rec_pid : Z;
  rec_info_type : Z;
  rec_pad : Z;
  rec_info_len : Z;
  rec_fsid : Z;
  rec_handle_type : Z;
  rec_handle : list byte;
  rec_name : list byte;
  rec_padding : nat     (* zero bytes after the name, the terminator included *)
}.

Definition metadata_bytes (declared : Z) (r : RawRecord) : list byte :=
  (le_bytes 4 declared ++ le_bytes 1 (rec_vers r) ++ le_bytes 1 (rec_reserved r)
   ++ le_bytes 2 (rec_metadata_len r) ++ le_bytes 8 (rec_mask r)
   ++ le_bytes 4 (rec_fd r) ++ le_bytes 4 (rec_pid r))%list.

Definition fid_bytes (r : RawRecord) : list byte :=
  (le_bytes 1 (rec_info_type r) ++ le_bytes 1 (rec_pad r)
   ++ le_bytes 2 (rec_info_len r) ++ le_bytes 8 (rec_fsid r))%list.

Definition handle_info_bytes (r : RawRecord) : list byte :=
  (le_bytes 4 (len (rec_handle r)) ++ le_bytes 4 (rec_handle_type r))%list.

Definition trailing (r : RawRecord) : list byte :=
  (rec_name r ++ repeat x00 (rec_padding r))%list.

(** The record up to the end of its handle, [declared] in its length field. *)
Definition encode_head (declared : Z) (r : RawRecord) : list byte :=
  (metadata_bytes declared r ++ fid_bytes r ++ handle_info_bytes r
   ++ rec_handle r)%list.

Definition encode_with_length (declared : Z) (r : RawRecord) : list byte :=
  (encode_head declared r ++ trailing r)%list.

Definition record_length (r : RawRecord) : Z :=
  24 + 12 + 8 + len (rec_handle r) + len (rec_name r) + Z.of_nat (rec_padding r).

Definition encode_record (r : RawRecord) : list byte :=
  encode_with_length (record_length r) r.

Definition record_handle (r : RawRecord) : FileHandle :=
  NewFileHandle (rec_handle_type r) (rec_handle r).

Definition wf_record (r : RawRecord) : Prop :=
  0 <= rec_mask r < 2 ^ 64 /\
  - 2 ^ 31 <= rec_handle_type r < 2 ^ 31 /\
  ~ In x00 (rec_name r) /\
  (1 <= rec_padding r)%nat.

(** [bs] are the bytes of [buf] from index [off] on. *)
Definition bytes_at (buf : list byte) (off : Z) (bs : list byte) : Prop :=
  0 <= off /\ firstn (List.length bs) (skipn (Z.to_nat off) buf) = bs.

(** The records [rs], one after the other, from index [off] on. *)
Fixpoint records_at (buf : list byte) (off : Z) (rs : list RawRecord) : Prop :=
  match rs with
  | [] => True
  | r :: rest =>
      wf_record r /\ bytes_at buf off (encode_record r) /\
      records_at buf (off + record_length r) rest
  end.

Definition total_length (rs : list RawRecord) : Z :=
  fold_right (fun r acc => record_length r + acc) 0 rs.

(** The directory the program works with after a successful readlink. *)
Definition resolved_dir (link : string) : string := TrimSuffix link " (deleted)".

(** The line logged for an event. *)
Definition event_line (dir : string) (name : list byte) (mask : Z) : LogEntry :=
  {| level := InfoLevel;
     message := (filepath_Join [dir; string_of_list_byte name] ++ ", "
                 ++ maskToHuman mask)%string;
     cause := None |}.

(** The events among the log lines. *)
Definition events (l : list LogEntry) : list LogEntry :=
  filter (fun e => match level e with InfoLevel => true | ErrorLevel => false end) l.

Definition errors (l : list LogEntry) : list LogEntry :=
  filter (fun e => match level e with ErrorLevel => true | InfoLevel => false end) l.

(** The recognised bits with their names, in the order [maskToHuman] tests
    them. *)
Definition flag_table : list (Z * string) :=
  [ (IN_CLOSE_WRITE, "FAN_CLOSE_WRITE"); (IN_ACCESS, "FAN_ACCESS");
    (IN_ATTRIB, "FAN_ATTRIB"); (IN_CLOSE_NOWRITE, "FAN_CLOSE_NOWRITE");
    (IN_CREATE, "FAN_CREATE"); (IN_DELETE, "FAN_DELETE");
    (IN_DELETE_SELF, "FAN_DELETE_SELF"); (IN_IGNORED, "FAN_IGNORED");
    (IN_ISDIR, "FAN_ISDIR"); (IN_MODIFY, "FAN_MODIFY");
    (IN_MOVE_SELF, "fanMoveSelf"); (IN_MOVED_FROM, "fanMovedFrom");
    (IN_MOVED_TO, "fanMovedTo"); (IN_OPEN, "FAN_OPEN");
    (IN_Q_OVERFLOW, "FAN_Q_OVERFLOW"); (IN_UNMOUNT, "FAN_UNMOUNT") ]%string.

(** The single bit [bit] is set in [mask]. *)
Definition bit_set (mask bit : Z) : bool := Z.testbit mask (Z.log2 bit).

Definition single_bit (bit : Z) : Prop := bit = 2 ^ Z.log2 bit.

Definition recognised (mask : Z) : list (Z * string) :=
  filter (fun p => bit_set mask (fst p)) flag_table.

(** The handle [fh] resolves under [mount_fd], whatever happened before,
    and its descriptor links to [link]. *)
Definition resolves (k : Kernel) (mount_fd : Z) (fh : FileHandle) (link : string)
  : Prop :=
  (forall w, k_open_by_handle_at k w mount_fd fh = None) /\
  (forall w, k_readlink k w (FdHandle fh) = inr link).

(** After the metadata has been parsed (the reader at [rd1]), one of the
    later steps of the record fails: the identifier info, the handle
    descriptor, the handle bytes, the opening of the handle, or the reading
    of its path. *)
Inductive later_failure (k : Kernel) (mount_fd : Z) (rd1 : Reader) (w : World)
  : Prop :=
| fid_fails rd2 e :
    binary_Read rd1 sizeof_fanotifyEventInfoFid = (rd2, inl e) ->
    later_failure k mount_fd rd1 w
| handle_info_fails rd2 b2 rd3 e :
    binary_Read rd1 sizeof_fanotifyEventInfoFid = (rd2, inr b2) ->
    binary_Read rd2 sizeof_fileHandleInfo = (rd3, inl e) ->
    later_failure k mount_fd rd1 w
| handle_fails rd2 b2 rd3 b3 rd4 e :
    binary_Read rd1 sizeof_fanotifyEventInfoFid = (rd2, inr b2) ->
    binary_Read rd2 sizeof_fileHandleInfo = (rd3, inr b3) ->
    binary_Read rd3 (Bytes (decode_fileHandleInfo b3)) = (rd4, inl e) ->
    later_failure k mount_fd rd1 w
| open_fails rd2 b2 rd3 b3 rd4 h w1 e :
    binary_Read rd1 sizeof_fanotifyEventInfoFid = (rd2, inr b2) ->
    binary_Read rd2 sizeof_fileHandleInfo = (rd3, inr b3) ->
    binary_Read rd3 (Bytes (decode_fileHandleInfo b3)) = (rd4, inr h) ->
    unix_OpenByHandleAt k mount_fd
      (NewFileHandle (Type_ (decode_fileHandleInfo b3)) h) O_RDONLY w
    = (w1, inl e) ->
    later_failure k mount_fd rd1 w
| readlink_fails rd2 b2 rd3 b3 rd4 h w1 fd w2 e :
    binary_Read rd1 sizeof_fanotifyEventInfoFid = (rd2, inr b2) ->
    binary_Read rd2 sizeof_fileHandleInfo = (rd3, inr b3) ->
    binary_Read rd3 (Bytes (decode_fileHandleInfo b3)) = (rd4, inr h) ->
    unix_OpenByHandleAt k mount_fd
      (NewFileHandle (Type_ (decode_fileHandleInfo b3)) h) O_RDONLY w
    = (w1, inr fd) ->
    os_Readlink_proc_fd k fd w1 = (w2, inl e) ->
    later_failure k mount_fd rd1 w.

(** The bytes of [b] before its first zero byte, all of [b] if it has none. *)
Fixpoint before_nul (b : list byte) : list byte :=
  match b with
  | [] => []
  | x :: rest => if Byte.eqb x x00 then [] else x :: before_nul rest
  end.

(** ** A sample system

    A kernel in which handles of type 7 are stale, handles of type 8 may not
    be opened, the path of a handle of type 9 cannot be read, and every other
    handle resolves to /tmp/sub; the k-th read of the notification
    descriptor delivers the k-th element of [reads] and blocks after the
    last. *)

Definition EACCES : Z := 0xd.
Definition EIO : Z := 0x5.

Definition reads_so_far (tr : list Syscall) : nat :=
  List.length (filter (fun c => match c with SysRead _ _ => true | _ => false end) tr).

Definition sample_kernel (reads : list (Z + list byte)) : Kernel :=
  {| k_fanotify_init := fun _ => None;
     k_fanotify_mark := fun _ _ => None;
     k_open := fun _ _ => None;
     k_read := fun w _ => nth_error reads (reads_so_far (trace w));
     k_open_by_handle_at := fun _ _ fh =>
       if fh_type fh =? 7 then Some ESTALE
       else if fh_type fh =? 8 then Some EACCES
       else None;
     k_readlink := fun _ x =>
       match x with
       | FdHandle fh => if fh_type fh =? 9 then inl ENOENT else inr "/tmp/sub"%string
       | FdPath p => inr p
       | FdNotify => inr "anon_inode:[fanotify]"%string
       end |}.

Definition sample_record (name : string) (handle_type : Z) (padding : nat)
  : RawRecord :=
  {| rec_vers := 3; rec_reserved := 0; rec_metadata_len := 24;
     rec_mask := FAN_CREATE; rec_fd := -1; rec_pid := 4321;
     rec_info_type := 2; rec_pad := 0; rec_info_len := 0; rec_fsid := 77;
     rec_handle_type := handle_type;
     rec_handle := [x01; x02; x03; x04; x05; x06; x07; x08];
     rec_name := list_byte_of_string name;
     rec_padding := padding |}.

(** The 4096-byte buffer after [data] has been read into it. *)
Definition buffer_with (data : list byte) : list byte :=
  (data ++ skipn (List.length data) make_buf)%list.

(** The process after start-up: standard streams, the notification
    descriptor 3 and the mount descriptor 4. *)
Definition sample_world : World :=
  {| fds := [(4, FdPath target); (3, FdNotify); (2, FdPath "/dev/pts/0"%string);
             (1, FdPath "/dev/pts/0"%string); (0, FdPath "/dev/pts/0"%string)];
     log := [];
     trace := [] |}.

(** The start of the inner loop over [data] in the sample system. *)
Definition draining (data : list byte) : State :=
  Draining 3 4 (buffer_with data) (len data) (NewReader (buffer_with data)) 0
           sample_world.

(** One record whose handle may not be opened. *)
Definition denied_data : list byte := encode_record (sample_record "gone" 8 1).

(** One record whose handle is stale. *)
Definition stale_data : list byte := encode_record (sample_record "gone" 7 1).

(** The bytes a read delivered, none if it failed. *)
Definition bytes_read (x : Reader * (error + list byte)) : list byte :=
  match snd x with
  | inr b => b
  | inl _ => []
  end.

(** The events of the records [rs], in their order, each with the link its
    handle resolves to. *)
Definition record_event (link_of : RawRecord -> string) (r : RawRecord) : LogEntry :=
  event_line (resolved_dir (link_of r)) (rec_name r) (rec_mask r).

(** Two records that resolve: a file a.txt and an event without a name. *)
Definition resolving_records : list RawRecord :=
  [sample_record "a.txt" 1 3; sample_record "" 1 4].

Definition resolving_data : list byte := concat (map encode_record resolving_records).

(** One record whose handle opens but whose path cannot be read. *)
Definition unreadable_data : list byte := encode_record (sample_record "x" 9 1).

(** A record that declares 30 bytes, fewer than its sub-records take, and
    whose handle resolves. *)
Definition short_resolving_data : list byte :=
  encode_with_length 30 (sample_record "x" 1 1).

(** A well-formed record placed so that it starts 30 bytes into the record
    [short_record] below. *)
Definition overlapped_record : RawRecord :=
  {| rec_vers := 3; rec_reserved := 0; rec_metadata_len := 40;
     rec_mask := 0x70000; rec_fd := -1; rec_pid := 4321;
     rec_info_type := 2; rec_pad := 0; rec_info_len := 0; rec_fsid := 77;
     rec_handle_type := 1;
     rec_handle := [x01; x02; x03; x04; x05; x06; x07; x08];
     rec_name := list_byte_of_string "b";
     rec_padding := 1 |}.

(** A record with a stale handle that declares 30 bytes although its
    sub-records take 84: from its 30th byte on, its identifier, handle
    descriptor and handle bytes spell [overlapped_record]. *)
Definition short_record : RawRecord :=
  {| rec_vers := 3; rec_reserved := 0; rec_metadata_len := 24;
     rec_mask := FAN_CREATE; rec_fd := -1; rec_pid := 4321;
     rec_info_type := 2; rec_pad := 0; rec_info_len := 0;
     rec_fsid := 54 * 2 ^ 16 + 3 * 2 ^ 48;
     rec_handle_type := 7;
     rec_handle := skipn 14 (encode_record overlapped_record);
     rec_name := list_byte_of_string "x";
     rec_padding := 1 |}.

Definition short_stale_data : list byte := encode_with_length 30 short_record.

(** The handle does not resolve: it cannot be opened, or the path of its
    descriptor cannot be read. *)
Definition unresolved (k : Kernel) (mount_fd : Z) (fh : FileHandle) (w : World)
  : Prop :=
  (exists w1 e, unix_OpenByHandleAt k mount_fd fh O_RDONLY w = (w1, inl e)) \/
  (exists w1 fd w2 e,
      unix_OpenByHandleAt k mount_fd fh O_RDONLY w = (w1, inr fd) /\
      os_Readlink_proc_fd k fd w1 = (w2, inl e)).

(** The trailing name in the words of the specification: the bytes of the
    span minus a single trailing terminator byte. *)
Definition name_minus_terminator (span : list byte) : string :=
  string_of_list_byte (removelast span).

(** One record whose name a.txt is followed by three zero bytes. *)
Definition padded_data : list byte := encode_record (sample_record "a.txt" 1 3).

(** One record without a name: four zero bytes after the handle. *)
Definition nameless_data : list byte := encode_record (sample_record "" 1 4).

(** The world at the start of the process, with the descriptors [t] open. *)
Definition initial_world (t : list (Z * FdTarget)) : World :=
  {| fds := t; log := []; trace := [] |}.

(** Standard input, output and error. *)
Definition std_fds : list (Z * FdTarget) :=
  [(2, FdPath "/dev/pts/0"%string); (1, FdPath "/dev/pts/0"%string);
   (0, FdPath "/dev/pts/0"%string)].

Definition iter_world (r : Iter) : World :=
  match r with
  | Continue _ _ w | Break w | Panic w => w
  end.

(** Reading the trace from its start: the descriptor returned by the latest
    successful open by path, and whether every open by handle so far was
    given the descriptor that was the latest at that moment. *)
Definition track (st : option Z * bool) (c : Syscall) : option Z * bool :=
  match c with
  | SysOpen _ _ (inr fd) => (Some fd, snd st)
  | SysOpenByHandleAt m _ _ _ =>
      (fst st, snd st && match fst st with
                         | Some cur => cur =? m
                         | None => false
                         end)
  | _ => st
  end.

Definition mount_use (tr : list Syscall) : option Z * bool :=
  fold_left track tr (None, true).

(** The descriptors returned by the successful opens by path, in order. *)
Fixpoint mount_opens (tr : list Syscall) : list Z :=
  match tr with
  | [] => []
  | SysOpen _ _ (inr fd) :: rest => fd :: mount_opens rest
  | _ :: rest => mount_opens rest
  end.

(** The calls one turn of the inner loop may make under mount descriptor
    [m]. *)
Definition resolution_call (m : Z) (c : Syscall) : Prop :=
  match c with
  | SysOpenByHandleAt m' _ _ _ => m' = m
  | SysReadlink _ _ => True
  | SysClose _ => True
  | _ => False
  end.

(** The mount descriptor of a state inside [readEvents]. *)
Definition mount_of (st : State) : option Z :=
  match st with
  | Reading _ m _ _ | Draining _ m _ _ _ _ _ => Some m
  | _ => None
  end.

(** What every turn of the inner loop guarantees, whatever the bytes and
    whatever the kernel answers: it only makes resolution calls, all under
    the mount descriptor [m]; [m] stays open; and when the loop goes on, the
    reader is still over the same buffer, at the new offset, which lies at
    most a 32-bit length beyond the old one. *)
Definition turn_ok (m : Z) (rd : Reader) (offset : Z) (w : World) (r : Iter)
  : Prop :=
  (exists cs, trace (iter_world r) = (trace w ++ cs)%list
              /\ Forall (resolution_call m) cs)
  /\ (forall x, lookup_fd m (fds w) = Some x ->
                lookup_fd m (fds (iter_world r)) = Some x)
  /\ (forall rd' o' w', r = Continue rd' o' w' ->
        s rd' = s rd /\ i rd' = o' /\ offset <= o' < offset + 2 ^ 32).

(** What holds at every control point the process reaches. *)
Definition state_inv (st : State) : Prop :=
  snd (mount_use (trace (world_of st))) = true /\
  match st with
  | Reading _ m buf w =>
      fst (mount_use (trace w)) = Some m
      /\ lookup_fd m (fds w) = Some (FdPath target)
      /\ len buf = 4096
  | Draining _ m buf n rd offset w =>
      fst (mount_use (trace w)) = Some m
      /\ lookup_fd m (fds w) = Some (FdPath target)
      /\ len buf = 4096
      /\ 0 <= n <= 4096
      /\ s rd = buf /\ i rd = offset
      /\ 0 <= offset < 4096 + 2 ^ 32
  | _ => True
  end.

(** 50 bytes of a record that declares 100. *)
Definition truncated_data : list byte :=
  firstn 50 (encode_with_length 100 (sample_record "gone" 7 1)).

(** The state after one move, the state itself when there is none. *)
Definition next_state (k : Kernel) (st : State) : State :=
  match step k st with
  | Some st' => st'
  | None => st
  end.

(** A record that declares 30 bytes more than the buffer holds, and whose
    handle resolves. *)
Definition overlong_data : list byte :=
  encode_with_length 4126 (sample_record "x" 1 1).

(** The sample kernel with every handle stale. *)
Definition stale_kernel (reads : list (Z + list byte)) : Kernel :=
  {| k_fanotify_init := k_fanotify_init (sample_kernel reads);
     k_fanotify_mark := k_fanotify_mark (sample_kernel reads);
     k_open := k_open (sample_kernel reads);
     k_read := k_read (sample_kernel reads);
     k_open_by_handle_at := fun _ _ _ => Some ESTALE;
     k_readlink := k_readlink (sample_kernel reads) |}.

(** The sample kernel with a target that cannot be opened. *)
Definition closed_kernel : Kernel :=
  {| k_fanotify_init := k_fanotify_init (sample_kernel []);
     k_fanotify_mark := k_fanotify_mark (sample_kernel []);
     k_open := fun _ _ => Some EACCES;
     k_read := k_read (sample_kernel []);
     k_open_by_handle_at := k_open_by_handle_at (sample_kernel []);
     k_readlink := k_readlink (sample_kernel []) |}.

(** The sample kernel without permission to create a notification group. *)
Definition EPERM : Z := 0x1.

Definition denying_kernel : Kernel :=
  {| k_fanotify_init := fun _ => Some EPERM;
     k_fanotify_mark := k_fanotify_mark (sample_kernel []);
     k_open := k_open (sample_kernel []);
     k_read := k_read (sample_kernel []);
     k_open_by_handle_at := k_open_by_handle_at (sample_kernel []);
     k_readlink := k_readlink (sample_kernel []) |}.

(** The line logged for an error. *)
Definition error_line (msg : string) (e : error) : LogEntry :=
  {| level := ErrorLevel; message := msg; cause := Some e |}.

(** The state is inside the endless loop of [main]. *)
Definition in_main_loop (st : State) : bool :=
  match st with
  | MainLoop _ _ | Reading _ _ _ _ | Draining _ _ _ _ _ _ _ => true
  | _ => false
  end.

(** The reads in a trace. *)
Definition trace_reads (tr : list Syscall) : list Syscall :=
  filter (fun c => match c with SysRead _ _ => true | _ => false end) tr.

(** A record with a stale handle that declares the length 0. *)
Definition zero_length_data : list byte :=
  encode_with_length 0 (sample_record "gone" 7 1).

(** A kernel whose reads all return at once with no bytes. *)
Definition idle_kernel : Kernel :=
  {| k_fanotify_init := k_fanotify_init (sample_kernel []);
     k_fanotify_mark := k_fanotify_mark (sample_kernel []);
     k_open := k_open (sample_kernel []);
     k_read := fun _ _ => Some (inr []);
     k_open_by_handle_at := k_open_by_handle_at (sample_kernel []);
     k_readlink := k_readlink (sample_kernel []) |}.

(** All the bits [maskToHuman] tests. *)
Definition recognised_bits : Z :=
  fold_right (fun p acc => Z.lor (fst p) acc) 0 flag_table.

(** The fields of a record fit the widths of the wire format. *)
Definition fields_in_range (r : RawRecord) : Prop :=
  0 <= rec_vers r < 2 ^ 8 /\ 0 <= rec_reserved r < 2 ^ 8
  /\ 0 <= rec_metadata_len r < 2 ^ 16 /\ 0 <= rec_mask r < 2 ^ 64
  /\ - 2 ^ 31 <= rec_fd r < 2 ^ 31 /\ - 2 ^ 31 <= rec_pid r < 2 ^ 31
  /\ 0 <= rec_info_type r < 2 ^ 8 /\ 0 <= rec_pad r < 2 ^ 8
  /\ 0 <= rec_info_len r < 2 ^ 16 /\ 0 <= rec_fsid r < 2 ^ 64
  /\ - 2 ^ 31 <= rec_handle_type r < 2 ^ 31
  /\ len (rec_handle r) < 2 ^ 32.

(** The length declared by the record at [off], when its 24 bytes of
    metadata lie in the buffer. *)
Definition declared_length_at (buf : list byte) (off : Z) : option Z :=
  if off + 24 <=? len buf
  then Some (le_uint (field buf (Z.to_nat off) 4))
  else None.

(** Following the declared lengths from [off], no record met below [n]
    declares the length 0, and [n] is reached within [fuel] records. *)
Fixpoint no_zero_length (fuel : nat) (buf : list byte) (n off : Z) : bool :=
  match fuel with
  | O => n <=? off
  | S fuel' =>
      if n <=? off then true
      else match declared_length_at buf off with
           | None => true
           | Some l => (1 <=? l) && no_zero_length fuel' buf n (off + l)
           end
  end.

(** The inner loop has been left: the program is at the read or dead. *)
Definition left_inner_loop (st : State) : bool :=
  match st with
  | Reading _ _ _ _ | Panicked _ => true
  | _ => false
  end.

(** [data] followed by zero bytes up to [size] bytes. *)
Definition pad_to (size : nat) (data : list byte) : list byte :=
  (data ++ repeat x00 (size - List.length data))%list.

(** A record of 56 bytes that the sample kernel resolves. *)
Definition last_record : RawRecord := sample_record "ab" 1 2.

(** The last 16 bytes of [last_record]: the type of its handle, the handle
    and the name. *)
Definition left_over : list byte := skipn 40 (encode_record last_record).

(** A delivery of 4096 bytes: a record with a stale handle that declares
    4080 bytes, and after it the 16 bytes of [left_over], too few for the
    metadata of a record. *)
Definition first_delivery : list byte :=
  (pad_to 4080 (encode_with_length 4080 (sample_record "gone" 7 1))
   ++ left_over)%list.

(** A delivery of 4080 bytes: a record with a stale handle that declares
    4040 bytes, and after it the first 40 bytes of [last_record]. *)
Definition second_delivery : list byte :=
  (pad_to 4040 (encode_with_length 4040 (sample_record "gone" 7 1))
   ++ firstn 40 (encode_record last_record))%list.

(** * Properties *)

(** Unfolds one move of the program into the statements it runs. *)
Ltac unfold_step :=
  cbn [step]; unfold main_start, readEvents_enter, readEvents_read, readEvents_turn.

Ltac unfold_step_in_all :=
  cbn [step] in *;
  unfold main_start, readEvents_enter, readEvents_read, readEvents_turn in *.

(** ** maskToHuman *)

Lemma land_single_bit (m k : Z) :
  0 <= k -> Z.land m (2 ^ k) = if Z.testbit m k then 2 ^ k else 0.
Proof.
  intros Hk. apply Z.bits_inj'. intros j Hj.
  rewrite Z.land_spec, Z.pow2_bits_eqb by assumption.
  destruct (Z.eqb_spec k j) as [->|Hne].
  - destruct (Z.testbit m j); simpl.
    + now rewrite Z.pow2_bits_true.
    + now rewrite Z.bits_0.
  - rewrite andb_false_r. destruct (Z.testbit m k).
    + now rewrite Z.pow2_bits_false.
    + now rewrite Z.bits_0.
Qed.

Lemma append_if_set_filter (mask bit : Z) (name : string) (flags : list string) :
  single_bit bit -> 0 < bit ->
  append_if_set mask bit name flags =
  (flags ++ map snd (filter (fun p => bit_set mask (fst p)) [(bit, name)]))%list.
Proof.
  intros Hb Hpos. unfold append_if_set, bit_set, single_bit in *. simpl.
  assert (Hk : 0 <= Z.log2 bit) by apply Z.log2_nonneg.
  remember (Z.log2 bit) as k eqn:Ek. clear Ek. subst bit.
  rewrite land_single_bit by assumption.
  destruct (Z.testbit mask k); simpl.
  - destruct (Z.gtb_spec (2 ^ k) 0); [reflexivity | lia].
  - now rewrite app_nil_r.
Qed.

Lemma flag_table_single_bits :
  Forall (fun p => single_bit (fst p) /\ 0 < fst p) flag_table.
Proof. repeat constructor. Qed.

Lemma maskToHuman_flags_recognised (mask : Z) :
  maskToHuman_flags mask = map snd (recognised mask).
Proof.
  unfold maskToHuman_flags, recognised, flag_table.
  repeat (rewrite append_if_set_filter by (try reflexivity)).
  rewrite <- !app_assoc, <- !map_app, <- !filter_app. reflexivity.
Qed.

Lemma NoDup_map_filter {A B} (f : A -> B) (P : A -> bool) (l : list A) :
  NoDup (map f l) -> NoDup (map f (filter P l)).
Proof.
  induction l as [|a l IH]; simpl; intros Hnd; [constructor|].
  inversion Hnd as [|? ? Hnotin Hnd']; subst.
  destruct (P a); simpl; [|now apply IH].
  constructor; [|now apply IH].
  intros Hin. apply Hnotin. apply in_map_iff in Hin as (x & Hx & Hin).
  apply filter_In in Hin as [Hin _]. apply in_map_iff. now exists x.
Qed.

Lemma flag_table_names_NoDup : NoDup (map snd flag_table).
Proof.
  unfold flag_table; simpl.
  repeat (constructor; [simpl; intuition discriminate|]). constructor.
Qed.

Lemma flag_table_bits_NoDup : NoDup (map fst flag_table).
Proof.
  unfold flag_table; simpl.
  repeat (constructor; [simpl; intuition discriminate|]). constructor.
Qed.

(** C8. For every mask, the names [maskToHuman] joins are exactly the names
    of the recognised bits that are set, one per bit, in the fixed order of
    the table (not in bit order); no name occurs twice and every name stands
    for a set, recognised bit; the table pairs distinct single bits with
    distinct names; the result is the names joined with ", ", and the mask
    of the CREATE bit alone yields FAN_CREATE. *)
Theorem maskToHuman_canonical (mask : Z) :
  maskToHuman_flags mask = map snd (recognised mask)
  /\ List.length (maskToHuman_flags mask) = List.length (recognised mask)
  /\ NoDup (maskToHuman_flags mask)
  /\ (forall name, In name (maskToHuman_flags mask) ->
        exists bit, In (bit, name) flag_table /\ bit_set mask bit = true)
  /\ (forall bit name, In (bit, name) flag_table -> bit_set mask bit = true ->
        In name (maskToHuman_flags mask))
  /\ Forall (fun p => single_bit (fst p)) flag_table
  /\ NoDup (map fst flag_table) /\ NoDup (map snd flag_table)
  /\ maskToHuman mask = String.concat ", " (maskToHuman_flags mask)
  /\ maskToHuman FAN_CREATE = "FAN_CREATE"%string.
Proof.
  rewrite maskToHuman_flags_recognised.
  split; [reflexivity|]. split; [apply length_map|].
  split; [apply NoDup_map_filter, flag_table_names_NoDup|].
  split.
  { intros name Hin. apply in_map_iff in Hin as ([bit name'] & Hn & Hin).
    simpl in Hn; subst name'. apply filter_In in Hin as [Hin Hset].
    now exists bit. }
  split.
  { intros bit name Hin Hset. apply in_map_iff. exists (bit, name).
    split; [reflexivity|]. apply filter_In. now split. }
  split.
  { eapply Forall_impl; [|apply flag_table_single_bits]. now intros p [H _]. }
  split; [apply flag_table_bits_NoDup|].
  split; [apply flag_table_names_NoDup|].
  split; [|reflexivity].
  unfold maskToHuman, strings_Join. now rewrite maskToHuman_flags_recognised.
Qed.

(** ** Integers and slices *)

Lemma len_nonneg {A} (l : list A) : 0 <= len l.
Proof. unfold len. lia. Qed.

Lemma len_app {A} (a b : list A) : len (a ++ b) = len a + len b.
Proof. unfold len. rewrite length_app. lia. Qed.

Lemma int64_small (z : Z) : - 2 ^ 63 <= z < 2 ^ 63 -> int64 z = z.
Proof. intros H. unfold int64. rewrite Z.mod_small; lia. Qed.

Lemma int32_mod (z : Z) : - 2 ^ 31 <= z < 2 ^ 31 -> int32 (z mod 2 ^ 32) = z.
Proof.
  intros H. unfold int32.
  destruct (Z_lt_le_dec z 0) as [Hneg|Hpos].
  - replace (z mod 2 ^ 32) with (z + 2 ^ 32).
    + replace (z + 2 ^ 32 + 2 ^ 31) with (z + 2 ^ 31 + 1 * 2 ^ 32) by lia.
      rewrite Z.mod_add by lia. rewrite Z.mod_small; lia.
    + replace (z + 2 ^ 32) with ((z + 2 ^ 32) mod 2 ^ 32) by (apply Z.mod_small; lia).
      replace (z + 2 ^ 32) with (z + 1 * 2 ^ 32) by lia.
      now rewrite Z.mod_add by lia.
  - rewrite (Z.mod_small z) by lia. rewrite Z.mod_small; lia.
Qed.

Lemma len_firstn_skipn {A} (l : list A) (off size : Z) :
  0 <= off -> 0 <= size -> off + size <= len l ->
  len (firstn (Z.to_nat size) (skipn (Z.to_nat off) l)) = size.
Proof.
  unfold len. intros Ho Hs Hl. rewrite length_firstn, length_skipn. lia.
Qed.

(** ** bytes.Reader and encoding/binary *)

Lemma ReadFull_zero (r : Reader) : ReadFull r 0 = (r, [], None).
Proof. reflexivity. Qed.

Lemma ReadAtLeast_loop_done (fuel : nat) (r : Reader) (min : Z) (acc : list byte) :
  min <= len acc -> ReadAtLeast_loop fuel r min acc = (r, acc, None).
Proof.
  intros H. destruct fuel; cbn [ReadAtLeast_loop]; [reflexivity|].
  destruct (Z.ltb_spec (len acc) min); [lia | reflexivity].
Qed.

Lemma ReadAtLeast_loop_at_end (fuel : nat) (r : Reader) (min : Z) (acc : list byte) :
  len acc < min -> len (s r) <= i r ->
  ReadAtLeast_loop (S fuel) r min acc = (r, acc, Some EOF).
Proof.
  intros H Hend. cbn [ReadAtLeast_loop].
  destruct (Z.ltb_spec (len acc) min); [|lia].
  unfold Reader_Read. destruct (Z.leb_spec (len (s r)) (i r)); [|lia].
  now rewrite app_nil_r.
Qed.

(** Enough bytes left: they are delivered and the position moves past them. *)
Lemma ReadFull_enough (r : Reader) (size : Z) :
  0 <= i r -> 0 < size -> i r + size <= len (s r) ->
  ReadFull r size =
  ({| s := s r; i := i r + size |},
   firstn (Z.to_nat size) (skipn (Z.to_nat (i r)) (s r)), None).
Proof.
  intros Hi Hs Hl. unfold ReadFull.
  cbn [ReadAtLeast_loop]. change (len (@nil byte)) with 0.
  destruct (Z.ltb_spec 0 size); [|lia].
  unfold Reader_Read. destruct (Z.leb_spec (len (s r)) (i r)); [lia|].
  rewrite Z.sub_0_r, Z.min_l by lia. cbn [app s i].
  pose proof (len_firstn_skipn (s r) (i r) size Hi (Z.lt_le_incl _ _ Hs) Hl) as Hgot.
  rewrite ReadAtLeast_loop_done by lia.
  now rewrite Hgot, Z.leb_refl.
Qed.

(** Fewer bytes left than asked for: the read fails, with [EOF] at the end
    of the buffer and [ErrUnexpectedEOF] before it; nothing is decoded. *)
Lemma ReadFull_short (r : Reader) (size : Z) :
  0 <= i r -> 0 < size -> len (s r) < i r + size ->
  exists r' got e,
    ReadFull r size = (r', got, Some e) /\ s r' = s r /\ i r <= i r'.
Proof.
  intros Hi Hs Hl. unfold ReadFull.
  destruct (Z.leb_spec (len (s r)) (i r)) as [Hend|Hin].
  - rewrite ReadAtLeast_loop_at_end by (change (len (@nil byte)) with 0; lia).
    change (len (@nil byte)) with 0.
    destruct (Z.leb_spec size 0); [lia|]. cbn.
    exists r, [], EOF. split; [reflexivity|]. split; [reflexivity | lia].
  - cbn [ReadAtLeast_loop]. change (len (@nil byte)) with 0.
    destruct (Z.ltb_spec 0 size); [|lia].
    unfold Reader_Read. destruct (Z.leb_spec (len (s r)) (i r)); [lia|].
    rewrite Z.sub_0_r, Z.min_r by lia. cbn [app].
    set (got := firstn _ _).
    assert (Hgot : len got = len (s r) - i r).
    { subst got. apply len_firstn_skipn; lia. }
    destruct (Z.to_nat size) as [|fuel] eqn:E; [lia|].
    rewrite ReadAtLeast_loop_at_end by (cbn [s i]; lia).
    rewrite Hgot.
    destruct (Z.leb_spec size (len (s r) - i r)); [lia|].
    destruct (Z.ltb_spec 0 (len (s r) - i r)); [|lia]. cbn.
    exists {| s := s r; i := i r + (len (s r) - i r) |}, got, ErrUnexpectedEOF.
    split; [reflexivity|]. split; [reflexivity|]. cbn [i]. lia.
Qed.

Lemma binary_Read_zero (r : Reader) : binary_Read r 0 = (r, inr []).
Proof. reflexivity. Qed.

Lemma binary_Read_enough (r : Reader) (size : Z) :
  0 <= i r -> 0 < size -> i r + size <= len (s r) ->
  binary_Read r size =
  ({| s := s r; i := i r + size |},
   inr (firstn (Z.to_nat size) (skipn (Z.to_nat (i r)) (s r)))).
Proof.
  intros. unfold binary_Read. now rewrite ReadFull_enough.
Qed.

Lemma binary_Read_short (r : Reader) (size : Z) :
  0 <= i r -> 0 < size -> len (s r) < i r + size ->
  exists r' e, binary_Read r size = (r', inl e) /\ s r' = s r /\ i r <= i r'.
Proof.
  intros Hi Hs Hl. unfold binary_Read.
  destruct (ReadFull_short r size Hi Hs Hl) as (r' & got & e & -> & Hr).
  now exists r', e.
Qed.

(** A read never moves the position backwards and keeps the buffer. *)
Lemma binary_Read_reader (r r' : Reader) (size : Z) (res : error + list byte) :
  0 <= i r -> binary_Read r size = (r', res) ->
  s r' = s r /\ i r <= i r'.
Proof.
  intros Hi Hrd.
  destruct (Z_lt_le_dec 0 size) as [Hs|Hs].
  - destruct (Z_le_gt_dec (i r + size) (len (s r))) as [Hl|Hl].
    + rewrite binary_Read_enough in Hrd by assumption.
      inversion Hrd; subst; cbn; split; [reflexivity | lia].
    + destruct (binary_Read_short r size Hi Hs) as (r1 & e & E & Hr); [lia|].
      rewrite E in Hrd. now inversion Hrd; subst.
  - revert Hrd. unfold binary_Read, ReadFull.
    rewrite ReadAtLeast_loop_done by (change (len (@nil byte)) with 0; lia).
    change (len (@nil byte)) with 0.
    destruct (Z.leb_spec size 0); [|lia].
    intros Hrd; inversion Hrd; subst. split; [reflexivity | lia].
Qed.

Lemma ReadAtLeast_loop_s (fuel : nat) (r : Reader) (min : Z) (acc : list byte)
      r' got err :
  ReadAtLeast_loop fuel r min acc = (r', got, err) -> s r' = s r.
Proof.
  revert r acc. induction fuel as [|fuel IH]; intros r acc; cbn [ReadAtLeast_loop].
  - intros H; now inversion H.
  - destruct (len acc <? min); [|intros H; now inversion H].
    unfold Reader_Read. destruct (len (s r) <=? i r).
    + intros H; now inversion H.
    + intros H. apply IH in H. exact H.
Qed.

(** A read leaves the reader on the same buffer. *)
Lemma binary_Read_s (r r' : Reader) (size : Z) (res : error + list byte) :
  binary_Read r size = (r', res) -> s r' = s r.
Proof.
  unfold binary_Read, ReadFull.
  destruct (ReadAtLeast_loop (S (Z.to_nat size)) r size []) as [[r1 got] err] eqn:E.
  apply ReadAtLeast_loop_s in E.
  destruct (size <=? len got).
  - intros H; inversion H; subst; assumption.
  - destruct ((0 <? len got) && _).
    + intros H; inversion H; subst; assumption.
    + destruct err; intros H; inversion H; subst; assumption.
Qed.

(** ** Bytes at an offset *)

Lemma firstn_add_skipn {A} (a b : nat) (l : list A) :
  firstn (a + b) l = (firstn a l ++ firstn b (skipn a l))%list.
Proof.
  revert l. induction a as [|a IH]; intros l; [reflexivity|].
  destruct l as [|x l]; cbn [Nat.add firstn skipn app].
  - now rewrite firstn_nil.
  - now rewrite IH.
Qed.

Lemma app_eq_same_length {A} (a x b y : list A) :
  List.length a = List.length x -> (a ++ b = x ++ y)%list -> a = x /\ b = y.
Proof.
  revert x. induction a as [|c a IH]; intros [|d x] Hlen H; try discriminate.
  - now split.
  - cbn in H. inversion H; subst. destruct (IH x) as [-> ->]; auto.
Qed.

Lemma bytes_at_app (buf : list byte) (off : Z) (a b : list byte) :
  bytes_at buf off (a ++ b) ->
  bytes_at buf off a /\ bytes_at buf (off + len a) b.
Proof.
  unfold bytes_at. intros [Ho H].
  rewrite length_app, firstn_add_skipn in H.
  assert (Hlen : List.length (firstn (List.length a) (skipn (Z.to_nat off) buf))
                 = List.length a).
  { apply (f_equal (@List.length byte)) in H.
    rewrite !length_app in H.
    pose proof (firstn_le_length (List.length a) (skipn (Z.to_nat off) buf)).
    pose proof (firstn_le_length (List.length b)
                  (skipn (List.length a) (skipn (Z.to_nat off) buf))).
    lia. }
  apply app_eq_same_length in H as [Ha Hb]; [|assumption].
  split; [now split|]. split; [pose proof (len_nonneg a); lia|].
  rewrite skipn_skipn in Hb.
  replace (Z.to_nat (off + len a)) with (List.length a + Z.to_nat off)%nat
    by (unfold len; lia).
  assumption.
Qed.

Lemma bytes_at_bound (buf : list byte) (off : Z) (bs : list byte) :
  bytes_at buf off bs -> 0 < len bs -> off + len bs <= len buf.
Proof.
  unfold bytes_at, len. intros [Ho H] Hpos.
  apply (f_equal (@List.length byte)) in H.
  rewrite length_firstn, length_skipn in H. lia.
Qed.

Lemma binary_Read_bytes_at (buf : list byte) (off : Z) (bs : list byte) :
  bytes_at buf off bs ->
  binary_Read {| s := buf; i := off |} (len bs)
  = ({| s := buf; i := off + len bs |}, inr bs).
Proof.
  intros Hat. destruct (Z_lt_le_dec 0 (len bs)) as [Hpos|Hzero].
  - pose proof (bytes_at_bound _ _ _ Hat Hpos) as Hb.
    destruct Hat as [Ho Hat].
    rewrite binary_Read_enough by (cbn [s i]; lia).
    cbn [s i]. unfold len at 2. rewrite Nat2Z.id. now rewrite Hat.
  - assert (bs = []) as ->.
    { destruct bs; [reflexivity|]. unfold len in Hzero. cbn in Hzero. lia. }
    change (len (@nil byte)) with 0. rewrite binary_Read_zero.
    now rewrite Z.add_0_r.
Qed.

(** ** Little-endian fields *)

Lemma byte_Z_Z_byte (z : Z) : byte_Z (Z_byte z) = z mod 256.
Proof.
  unfold byte_Z, Z_byte.
  pose proof (Z.mod_pos_bound z 256 ltac:(lia)) as Hb.
  destruct (Byte.of_N (Z.to_N (z mod 256))) as [b|] eqn:E.
  - apply Byte.to_of_N in E. rewrite E. lia.
  - apply Byte.of_N_None_iff in E. lia.
Qed.

Lemma length_le_bytes (w : nat) (z : Z) : List.length (le_bytes w z) = w.
Proof. revert z. induction w; intros; cbn; auto. Qed.

Lemma le_uint_le_bytes (w : nat) (z : Z) :
  le_uint (le_bytes w z) = z mod 2 ^ (8 * Z.of_nat w).
Proof.
  revert z. induction w as [|w IH]; intros z.
  - cbn. now rewrite Z.mod_1_r.
  - cbn [le_bytes le_uint]. rewrite byte_Z_Z_byte, IH.
    replace (8 * Z.of_nat (S w)) with (8 + 8 * Z.of_nat w) by lia.
    rewrite Z.pow_add_r by lia. change (2 ^ 8) with 256.
    rewrite Z.rem_mul_r by lia. reflexivity.
Qed.

Lemma le_uint_le_bytes_small (w : nat) (z : Z) :
  0 <= z < 2 ^ (8 * Z.of_nat w) -> le_uint (le_bytes w z) = z.
Proof. intros H. rewrite le_uint_le_bytes. now apply Z.mod_small. Qed.

Lemma len_metadata_bytes (d : Z) (r : RawRecord) : len (metadata_bytes d r) = 24.
Proof. reflexivity. Qed.

Lemma len_fid_bytes (r : RawRecord) : len (fid_bytes r) = 12.
Proof. reflexivity. Qed.

Lemma len_handle_info_bytes (r : RawRecord) : len (handle_info_bytes r) = 8.
Proof. reflexivity. Qed.

Lemma Event_len_metadata_bytes (d : Z) (r : RawRecord) :
  0 <= d < 2 ^ 32 ->
  Event_len (decode_FanotifyEventMetadata (metadata_bytes d r)) = d.
Proof.
  intros H. unfold decode_FanotifyEventMetadata, metadata_bytes.
  cbn [Event_len le_bytes app field firstn skipn].
  change (le_uint (le_bytes 4 d) = d).
  now apply le_uint_le_bytes_small.
Qed.

Lemma Mask_metadata_bytes (d : Z) (r : RawRecord) :
  0 <= rec_mask r < 2 ^ 64 ->
  Mask (decode_FanotifyEventMetadata (metadata_bytes d r)) = rec_mask r.
Proof.
  intros H. unfold decode_FanotifyEventMetadata, metadata_bytes.
  cbn [Mask le_bytes app field firstn skipn].
  change (le_uint (le_bytes 8 (rec_mask r)) = rec_mask r).
  now apply le_uint_le_bytes_small.
Qed.

Lemma decode_handle_info_bytes (r : RawRecord) :
  len (rec_handle r) < 2 ^ 32 ->
  - 2 ^ 31 <= rec_handle_type r < 2 ^ 31 ->
  decode_fileHandleInfo (handle_info_bytes r)
  = {| Bytes := len (rec_handle r); Type_ := rec_handle_type r |}.
Proof.
  intros Hl Ht. unfold decode_fileHandleInfo, handle_info_bytes.
  cbn [le_bytes app field firstn skipn].
  change (Build_fileHandleInfo (le_uint (le_bytes 4 (len (rec_handle r))))
            (int32 (le_uint (le_bytes 4 (rec_handle_type r))))
          = Build_fileHandleInfo (len (rec_handle r)) (rec_handle_type r)).
  rewrite le_uint_le_bytes_small by (pose proof (len_nonneg (rec_handle r)); split; [lia|assumption]).
  rewrite le_uint_le_bytes. change (8 * Z.of_nat 4) with 32.
  now rewrite int32_mod.
Qed.

(** ** The log and the system calls *)

Lemma events_app (a b : list LogEntry) : events (a ++ b) = (events a ++ events b)%list.
Proof. apply filter_app. Qed.

Lemma events_log_Error (msg : string) (e : error) (w : World) :
  events (log (log_Error msg e w)) = events (log w).
Proof. cbn. rewrite events_app. cbn. now rewrite app_nil_r. Qed.

Lemma unix_OpenByHandleAt_log k m fh flags w w1 res :
  unix_OpenByHandleAt k m fh flags w = (w1, res) -> log w1 = log w.
Proof.
  unfold unix_OpenByHandleAt. destruct (k_open_by_handle_at k w m fh);
    intros H; inversion H; reflexivity.
Qed.

Lemma os_Readlink_proc_fd_log k fd w w1 res :
  os_Readlink_proc_fd k fd w = (w1, res) -> log w1 = log w.
Proof. unfold os_Readlink_proc_fd. intros H; inversion H; reflexivity. Qed.

Lemma os_Readlink_proc_fd_fds k fd w w1 res :
  os_Readlink_proc_fd k fd w = (w1, res) -> fds w1 = fds w.
Proof. unfold os_Readlink_proc_fd. intros H; inversion H; reflexivity. Qed.

(** ** Resynchronisation *)

Lemma byte_Z_bound (b : byte) : 0 <= byte_Z b < 256.
Proof. unfold byte_Z. pose proof (Byte.to_N_bounded b). lia. Qed.

Lemma le_uint_bound (bs : list byte) : 0 <= le_uint bs < 256 ^ len bs.
Proof.
  induction bs as [|b bs IH].
  - cbn. lia.
  - cbn [le_uint]. replace (len (b :: bs)) with (1 + len bs) by (unfold len; cbn [List.length]; lia).
    rewrite Z.pow_add_r by (pose proof (len_nonneg bs); lia).
    pose proof (byte_Z_bound b). change (256 ^ 1) with 256. nia.
Qed.

Lemma le_uint_field_bound (bs : list byte) (off width : nat) :
  0 <= le_uint (field bs off width) < 256 ^ Z.of_nat width.
Proof.
  pose proof (le_uint_bound (field bs off width)) as H.
  assert (Hl : len (field bs off width) <= Z.of_nat width).
  { unfold len, field. pose proof (firstn_le_length width (skipn off bs)). lia. }
  split; [lia|]. eapply Z.lt_le_trans; [apply H|].
  apply Z.pow_le_mono_r; [lia|assumption].
Qed.

Lemma Event_len_bound (bs : list byte) :
  0 <= Event_len (decode_FanotifyEventMetadata bs) < 2 ^ 32.
Proof. apply (le_uint_field_bound bs 0 4). Qed.

Lemma resync_continue (rd : Reader) (offset : Z) (event : FanotifyEventMetadata)
      (w : World) :
  0 <= offset < 2 ^ 62 -> 0 <= Event_len event < 2 ^ 32 ->
  resync rd offset event w
  = Continue {| s := s rd; i := offset + Event_len event |}
             (offset + Event_len event) w.
Proof.
  intros Ho He. unfold resync, Reader_Seek.
  rewrite int64_small by lia.
  destruct (Z.ltb_spec (offset + Event_len event) 0); [lia | reflexivity].
Qed.

(** The outcome of the body when a step after the metadata fails. *)
Lemma loop_body_later_failure k m buf rd offset w rd1 bs :
  0 <= offset < 2 ^ 62 ->
  binary_Read rd sizeof_FanotifyEventMetadata = (rd1, inr bs) ->
  later_failure k m rd1 w ->
  exists w',
    loop_body k m buf rd offset w
    = Continue {| s := s rd;
                  i := offset + Event_len (decode_FanotifyEventMetadata bs) |}
               (offset + Event_len (decode_FanotifyEventMetadata bs)) w'
    /\ events (log w') = events (log w).
Proof.
  intros Ho Hhdr Hfail. unfold loop_body. rewrite Hhdr.
  pose proof (Event_len_bound bs) as He.
  pose proof (binary_Read_s _ _ _ _ Hhdr) as S1.
  destruct Hfail as [rd2 e H2 | rd2 b2 rd3 e H2 H3 | rd2 b2 rd3 b3 rd4 e H2 H3 H4
                     | rd2 b2 rd3 b3 rd4 h w1 e H2 H3 H4 H5
                     | rd2 b2 rd3 b3 rd4 h w1 fd w2 e H2 H3 H4 H5 H6].
  - pose proof (binary_Read_s _ _ _ _ H2) as S2.
    rewrite H2, resync_continue by assumption.
    replace (s rd2) with (s rd) by congruence.
    eexists. split; [reflexivity|].
    apply events_log_Error.
  - pose proof (binary_Read_s _ _ _ _ H2) as S2.
    pose proof (binary_Read_s _ _ _ _ H3) as S3.
    rewrite H2, H3, resync_continue by assumption.
    replace (s rd3) with (s rd) by congruence.
    eexists. split; [reflexivity|].
    apply events_log_Error.
  - pose proof (binary_Read_s _ _ _ _ H2) as S2.
    pose proof (binary_Read_s _ _ _ _ H3) as S3.
    pose proof (binary_Read_s _ _ _ _ H4) as S4.
    rewrite H2, H3, H4, resync_continue by assumption.
    replace (s rd4) with (s rd) by congruence.
    eexists. split; [reflexivity|].
    apply events_log_Error.
  - pose proof (binary_Read_s _ _ _ _ H2) as S2.
    pose proof (binary_Read_s _ _ _ _ H3) as S3.
    pose proof (binary_Read_s _ _ _ _ H4) as S4.
    rewrite H2, H3, H4. unfold resolve_and_log. rewrite H5.
    rewrite resync_continue by assumption.
    replace (s rd4) with (s rd) by congruence.
    eexists. split; [reflexivity|].
    apply unix_OpenByHandleAt_log in H5.
    destruct (negb (errors_Is e ESTALE)); [rewrite events_log_Error|]; now rewrite H5.
  - pose proof (binary_Read_s _ _ _ _ H2) as S2.
    pose proof (binary_Read_s _ _ _ _ H3) as S3.
    pose proof (binary_Read_s _ _ _ _ H4) as S4.
    rewrite H2, H3, H4. unfold resolve_and_log. rewrite H5, H6.
    rewrite resync_continue by assumption.
    replace (s rd4) with (s rd) by congruence.
    eexists. split; [reflexivity|].
    rewrite events_log_Error.
    apply unix_OpenByHandleAt_log in H5. apply os_Readlink_proc_fd_log in H6.
    now rewrite H6, H5.
Qed.

(** C2. When the metadata of the record at [offset] parses and a later step
    fails (identifier info, handle descriptor, handle bytes, opening the
    handle, reading its path), the turn of the loop emits no event and ends
    at the loop test with the offset and the reader, still over the same
    buffer, both at [offset] plus the declared length of the record. *)
Theorem later_failure_resynchronises k fd m buf n rd offset w rd1 bs :
  0 <= offset < 2 ^ 62 ->
  offset < int64 n ->
  binary_Read rd sizeof_FanotifyEventMetadata = (rd1, inr bs) ->
  later_failure k m rd1 w ->
  exists w',
    step k (Draining fd m buf n rd offset w)
    = Some (Draining fd m buf n
              {| s := s rd;
                 i := offset + Event_len (decode_FanotifyEventMetadata bs) |}
              (offset + Event_len (decode_FanotifyEventMetadata bs)) w')
    /\ events (log w') = events (log w).
Proof.
  intros Ho Hn Hhdr Hfail.
  destruct (loop_body_later_failure k m buf rd offset w rd1 bs Ho Hhdr Hfail)
    as (w' & Hbody & Hev).
  exists w'. unfold_step.
  destruct (Z.ltb_spec offset (int64 n)); [|lia].
  now rewrite Hbody.
Qed.

Lemma later_failure_resynchronises_witness :
  let buf := buffer_with denied_data in
  let bs := firstn 24 buf in
  binary_Read (NewReader buf) sizeof_FanotifyEventMetadata
  = ({| s := buf; i := 24 |}, inr bs)
  /\ later_failure (sample_kernel []) 4 {| s := buf; i := 24 |} sample_world
  /\ exists w',
       step (sample_kernel []) (draining denied_data)
       = Some (Draining 3 4 buf (len denied_data)
                 {| s := buf;
                    i := 0 + Event_len (decode_FanotifyEventMetadata bs) |}
                 (0 + Event_len (decode_FanotifyEventMetadata bs)) w')
       /\ events (log w') = events (log sample_world).
Proof.
  intros buf bs.
  assert (Hhdr : binary_Read (NewReader buf) sizeof_FanotifyEventMetadata
                 = ({| s := buf; i := 24 |}, inr bs)) by (vm_compute; reflexivity).
  assert (Hfail : later_failure (sample_kernel []) 4 {| s := buf; i := 24 |}
                    sample_world).
  { set (r2 := binary_Read {| s := buf; i := 24 |} sizeof_fanotifyEventInfoFid).
    set (r3 := binary_Read (fst r2) sizeof_fileHandleInfo).
    set (r4 := binary_Read (fst r3) (Bytes (decode_fileHandleInfo (bytes_read r3)))).
    apply (open_fails _ _ _ _ (fst r2) (bytes_read r2) (fst r3) (bytes_read r3)
             (fst r4) (bytes_read r4)
             (fst (unix_OpenByHandleAt (sample_kernel []) 4
                     (NewFileHandle (Type_ (decode_fileHandleInfo (bytes_read r3)))
                                    (bytes_read r4))
                     O_RDONLY sample_world))
             (Errno EACCES));
      vm_compute; reflexivity. }
  split; [exact Hhdr|]. split; [exact Hfail|].
  apply (later_failure_resynchronises (sample_kernel []) 3 4 buf (len denied_data)
           (NewReader buf) 0 sample_world {| s := buf; i := 24 |} bs).
  - lia.
  - vm_compute; reflexivity.
  - exact Hhdr.
  - exact Hfail.
Defined.

(** ** Names *)

Lemma IndexByte_lower (b : list byte) (c : byte) : -1 <= IndexByte b c.
Proof.
  induction b as [|x b IH]; cbn [IndexByte]; [lia|].
  destruct (Byte.eqb x c); [lia|].
  destruct (Z.eqb_spec (IndexByte b c) (-1)); lia.
Qed.

Lemma ByteSliceToString_before_nul (b : list byte) :
  ByteSliceToString b = string_of_list_byte (before_nul b).
Proof.
  unfold ByteSliceToString.
  assert (H : forall l,
             (IndexByte l x00 = -1 -> before_nul l = l) /\
             (IndexByte l x00 <> -1 ->
              before_nul l = firstn (Z.to_nat (IndexByte l x00)) l)).
  { induction l as [|x l [IH1 IH2]]; cbn [IndexByte before_nul].
    - split; [reflexivity | congruence].
    - destruct (Byte.eqb x x00).
      + split; [discriminate | reflexivity].
      + pose proof (IndexByte_lower l x00) as Hlow.
        destruct (Z.eqb_spec (IndexByte l x00) (-1)) as [E|E].
        * split; [intros _; now rewrite IH1 | congruence].
        * split; [lia|]. intros _.
          replace (Z.to_nat (IndexByte l x00 + 1))
            with (S (Z.to_nat (IndexByte l x00))) by lia.
          cbn [firstn]. now rewrite IH2. }
  destruct (H b) as [H1 H2].
  destruct (Z.eqb_spec (IndexByte b x00) (-1)) as [E|E].
  - now rewrite H1.
  - now rewrite H2.
Qed.

Lemma before_nul_terminated (name rest : list byte) :
  ~ In x00 name -> before_nul (name ++ x00 :: rest) = name.
Proof.
  induction name as [|x name IH]; intros Hnot; cbn [app before_nul].
  - reflexivity.
  - destruct (Byte.eqb x x00) eqn:E.
    + apply Byte.byte_dec_bl in E. subst x. exfalso. apply Hnot. now left.
    + rewrite IH; [reflexivity|]. intros Hin. apply Hnot. now right.
Qed.

Lemma before_nul_trailing (r : RawRecord) :
  wf_record r -> before_nul (trailing r) = rec_name r.
Proof.
  intros (_ & _ & Hname & Hpad). unfold trailing.
  destruct (rec_padding r) as [|p]; [lia|].
  cbn [repeat]. now apply before_nul_terminated.
Qed.

Lemma len_trailing (r : RawRecord) :
  len (trailing r) = len (rec_name r) + Z.of_nat (rec_padding r).
Proof. unfold trailing. rewrite len_app. unfold len. now rewrite repeat_length. Qed.

Lemma slice_bytes_at (buf : list byte) (off : Z) (bs : list byte) :
  bytes_at buf off bs -> 0 < len bs -> slice buf off (off + len bs) = Some bs.
Proof.
  intros Hat Hpos. pose proof (bytes_at_bound _ _ _ Hat Hpos) as Hb.
  destruct Hat as [Ho Hat]. unfold slice.
  destruct (Z.leb_spec 0 off); [|lia].
  destruct (Z.leb_spec off (off + len bs)); [|lia].
  destruct (Z.leb_spec (off + len bs) (len buf)); [|lia].
  cbn [andb]. replace (off + len bs - off) with (len bs) by lia.
  unfold len at 1. now rewrite Nat2Z.id, Hat.
Qed.

(** ** One record *)

(** The sub-records of a record at [off] are read, whatever length the
    record declares, and the handle is then resolved. *)
Lemma loop_body_head k m buf off d r w :
  bytes_at buf off (encode_head d r) ->
  len (rec_handle r) < 2 ^ 32 ->
  - 2 ^ 31 <= rec_handle_type r < 2 ^ 31 ->
  loop_body k m buf {| s := buf; i := off |} off w
  = resolve_and_log k m buf {| s := buf; i := off + 44 + len (rec_handle r) |} off
      (decode_FanotifyEventMetadata (metadata_bytes d r))
      {| Bytes := len (rec_handle r); Type_ := rec_handle_type r |}
      (rec_handle r) w.
Proof.
  intros Hat Hl Ht. unfold encode_head in Hat.
  apply bytes_at_app in Hat as [H1 Hat]. rewrite len_metadata_bytes in Hat.
  apply bytes_at_app in Hat as [H2 Hat]. rewrite len_fid_bytes in Hat.
  apply bytes_at_app in Hat as [H3 H4]. rewrite len_handle_info_bytes in H4.
  unfold loop_body.
  change sizeof_FanotifyEventMetadata with (len (metadata_bytes d r)).
  rewrite (binary_Read_bytes_at _ _ _ H1), len_metadata_bytes.
  change sizeof_fanotifyEventInfoFid with (len (fid_bytes r)).
  rewrite (binary_Read_bytes_at _ _ _ H2), len_fid_bytes.
  change sizeof_fileHandleInfo with (len (handle_info_bytes r)).
  rewrite (binary_Read_bytes_at _ _ _ H3), len_handle_info_bytes.
  rewrite decode_handle_info_bytes by assumption. cbn [Bytes].
  rewrite (binary_Read_bytes_at _ _ _ H4).
  replace (off + 24 + 12 + 8 + len (rec_handle r))
    with (off + 44 + len (rec_handle r)) by lia.
  reflexivity.
Qed.

Lemma lookup_fd_head (fd : Z) (x : FdTarget) (t : list (Z * FdTarget)) :
  lookup_fd fd ((fd, x) :: t) = Some x.
Proof. cbn. now rewrite Z.eqb_refl. Qed.

Lemma close_fd_head (fd : Z) (x : FdTarget) (t : list (Z * FdTarget)) :
  close_fd fd ((fd, x) :: t) = t.
Proof. cbn. now rewrite Z.eqb_refl. Qed.

(** A handle that resolves, with the name span inside the buffer: one event
    is logged, the descriptor opened for the handle is closed again, and
    the loop goes on at the declared end of the record. *)
Lemma resolve_and_log_resolved k m buf rd offset event fhInfo h w link span :
  resolves k m (NewFileHandle (Type_ fhInfo) h) link ->
  0 <= offset < 2 ^ 62 -> 0 <= Event_len event < 2 ^ 32 ->
  0 <= i rd < 2 ^ 62 ->
  slice buf (i rd) (offset + Event_len event) = Some span ->
  exists w',
    resolve_and_log k m buf rd offset event fhInfo h w
    = Continue {| s := s rd; i := offset + Event_len event |}
               (offset + Event_len event) w'
    /\ log w' = (log w ++
                 [{| level := InfoLevel;
                     message := (filepath_Join [resolved_dir link;
                                                ByteSliceToString span]
                                 ++ ", " ++ maskToHuman (Mask event))%string;
                     cause := None |}])%list
    /\ fds w' = fds w.
Proof.
  intros [Hopen Hlink] Ho He Hi Hslice.
  unfold resolve_and_log, unix_OpenByHandleAt. rewrite Hopen.
  cbn [open_new]. unfold os_Readlink_proc_fd.
  cbn [fds record_call set_fds]. rewrite lookup_fd_head, Hlink.
  unfold Reader_Seek at 1. rewrite Z.add_0_r, int64_small by lia.
  destruct (Z.ltb_spec (i rd) 0); [lia|].
  rewrite int64_small by lia. cbn [s i]. rewrite Hslice.
  unfold Reader_Seek. destruct (Z.ltb_spec (offset + Event_len event) 0); [lia|].
  cbn [s i]. eexists. split; [reflexivity|].
  split; [reflexivity|].
  cbn [fds log_Info add_log unix_Close record_call set_fds].
  apply close_fd_head.
Qed.

Lemma record_length_lower (r : RawRecord) : wf_record r -> 45 <= record_length r.
Proof.
  intros (_ & _ & _ & Hpad). unfold record_length.
  pose proof (len_nonneg (rec_handle r)). pose proof (len_nonneg (rec_name r)). lia.
Qed.

Lemma len_encode_record (r : RawRecord) : len (encode_record r) = record_length r.
Proof.
  unfold encode_record, encode_with_length, encode_head, record_length.
  rewrite !len_app, len_metadata_bytes, len_fid_bytes, len_handle_info_bytes,
    len_trailing. lia.
Qed.

(** A well-formed record at [off] whose handle resolves: the turn of the
    loop logs its event and ends at the next record. *)
Lemma step_record k fd m buf n off r w link :
  len buf < 2 ^ 32 ->
  wf_record r -> bytes_at buf off (encode_record r) ->
  resolves k m (record_handle r) link ->
  off < int64 n ->
  exists w',
    step k (Draining fd m buf n {| s := buf; i := off |} off w)
    = Some (Draining fd m buf n {| s := buf; i := off + record_length r |}
              (off + record_length r) w')
    /\ log w' = (log w ++ [event_line (resolved_dir link) (rec_name r) (rec_mask r)])%list
    /\ fds w' = fds w.
Proof.
  intros Hbuf Hwf Hat Hres Hn.
  pose proof (record_length_lower r Hwf) as Hlow.
  assert (Hbound : off + record_length r <= len buf).
  { rewrite <- len_encode_record. apply bytes_at_bound; [assumption|].
    rewrite len_encode_record. lia. }
  assert (Ho : 0 <= off) by apply Hat.
  pose proof (len_nonneg (rec_handle r)) as Hh.
  pose proof (len_nonneg (rec_name r)) as Hnm.
  pose proof Hwf as (Hmask & Htype & Hname & Hpad).
  unfold encode_record, encode_with_length in Hat.
  apply bytes_at_app in Hat as [Hhead Htrail].
  assert (Hlen : len (encode_head (record_length r) r) = 44 + len (rec_handle r)).
  { unfold encode_head.
    rewrite !len_app, len_metadata_bytes, len_fid_bytes, len_handle_info_bytes. lia. }
  rewrite Hlen in Htrail.
  unfold_step. destruct (Z.ltb_spec off (int64 n)); [|lia].
  rewrite (loop_body_head k m buf off (record_length r) r w Hhead)
    by (unfold record_length in *; lia).
  assert (He : Event_len (decode_FanotifyEventMetadata
                            (metadata_bytes (record_length r) r))
               = record_length r)
    by (apply Event_len_metadata_bytes; lia).
  destruct (resolve_and_log_resolved k m buf
              {| s := buf; i := off + 44 + len (rec_handle r) |} off
              (decode_FanotifyEventMetadata (metadata_bytes (record_length r) r))
              {| Bytes := len (rec_handle r); Type_ := rec_handle_type r |}
              (rec_handle r) w link (trailing r))
    as (w' & Hbody & Hlog & Hfds).
  - exact Hres.
  - lia.
  - rewrite He. lia.
  - cbn [i]. unfold record_length in *. lia.
  - rewrite He. cbn [i].
    replace (off + record_length r)
      with (off + 44 + len (rec_handle r) + len (trailing r))
      by (rewrite len_trailing; unfold record_length; lia).
    apply slice_bytes_at; [replace (off + 44 + len (rec_handle r))
                             with (off + (44 + len (rec_handle r))) by lia;
                           assumption|].
    rewrite len_trailing. lia.
  - rewrite Hbody, He. cbn [s]. exists w'. split; [reflexivity|].
    split; [|assumption]. rewrite Hlog. unfold event_line.
    rewrite ByteSliceToString_before_nul, before_nul_trailing by assumption.
    rewrite Mask_metadata_bytes by assumption. reflexivity.
Qed.

Lemma run_step (k : Kernel) (fuel : nat) (st st' : State) :
  step k st = Some st' -> run k (S fuel) st = run k fuel st'.
Proof. intros H. cbn [run]. now rewrite H. Qed.

(** The records of a buffer, all resolving, are decoded one per turn. *)
Lemma run_records k fd m buf n link_of (rs : list RawRecord) (extra : nat) :
  len buf < 2 ^ 32 ->
  Forall (fun r => resolves k m (record_handle r) (link_of r)) rs ->
  forall off w,
    records_at buf off rs ->
    off + total_length rs <= int64 n ->
    exists w',
      run k (List.length rs + extra)
          (Draining fd m buf n {| s := buf; i := off |} off w)
      = run k extra
          (Draining fd m buf n {| s := buf; i := off + total_length rs |}
                    (off + total_length rs) w')
      /\ log w' = (log w ++ map (record_event link_of) rs)%list
      /\ fds w' = fds w.
Proof.
  intros Hbuf Hres. induction Hres as [|r rs Hr Hrs IH]; intros off w Hat Hn.
  - cbn [List.length Nat.add total_length fold_right map].
    exists w. rewrite Z.add_0_r, app_nil_r. auto.
  - cbn [records_at] in Hat. destruct Hat as (Hwf & Hat & Hrest).
    cbn [total_length fold_right] in Hn |- *.
    fold (total_length rs) in Hn |- *.
    pose proof (record_length_lower r Hwf) as Hlow.
    assert (Htot : 0 <= total_length rs).
    { clear -Hrest. revert Hrest. generalize (off + record_length r).
      induction rs as [|r' rs' IH']; intros o H; cbn [total_length fold_right]; [lia|].
      destruct H as (Hwf' & _ & H'). apply IH' in H'.
      pose proof (record_length_lower r' Hwf'). fold (total_length rs'). lia. }
    destruct (step_record k fd m buf n off r w (link_of r) Hbuf Hwf Hat Hr)
      as (w1 & Hstep & Hlog1 & Hfds1); [lia|].
    cbn [List.length Nat.add]. rewrite (run_step _ _ _ _ Hstep).
    destruct (IH (off + record_length r) w1 Hrest) as (w' & Hrun & Hlog & Hfds);
      [lia|].
    exists w'. rewrite Hrun.
    replace (off + record_length r + total_length rs)
      with (off + (record_length r + total_length rs)) by lia.
    split; [reflexivity|]. split; [|congruence].
    rewrite Hlog, Hlog1. cbn [map]. now rewrite <- app_assoc.
Qed.

Lemma events_record_events link_of (rs : list RawRecord) :
  events (map (record_event link_of) rs) = map (record_event link_of) rs.
Proof.
  unfold events. induction rs as [|r rs IH]; [reflexivity|].
  cbn [map filter record_event event_line level]. now rewrite IH.
Qed.

(** The records of a buffer lie inside it. *)
Lemma records_at_bound (buf : list byte) (rs : list RawRecord) (off : Z) :
  0 <= off -> records_at buf off rs ->
  0 <= total_length rs /\ (rs <> [] -> off + total_length rs <= len buf).
Proof.
  revert off. induction rs as [|r rs IH]; intros o Ho H;
    cbn [total_length fold_right].
  - split; [lia | congruence].
  - fold (total_length rs). destruct H as (Hwf & Hb & Hrest).
    pose proof (record_length_lower r Hwf) as Hlow.
    destruct (IH (o + record_length r) ltac:(lia) Hrest) as [H0 H1].
    split; [lia|]. intros _. destruct rs as [|r' rs'].
    + cbn [total_length fold_right]. rewrite Z.add_0_r, <- len_encode_record.
      apply bytes_at_bound; [assumption | rewrite len_encode_record; lia].
    + specialize (H1 ltac:(discriminate)). lia.
Qed.

(** C1. A buffer that holds K well-formed records one after the other, read
    as [total_length] bytes, with every handle resolving: the inner loop
    takes K turns and returns to the read; the log has grown by exactly the
    K events of the records, in the order of the records, each with the
    path [filepath.Join] of the resolved directory and the name of the
    record; no descriptor stays open. *)
Theorem well_formed_buffer_events k fd m buf link_of (rs : list RawRecord) w :
  len buf < 2 ^ 32 ->
  records_at buf 0 rs ->
  Forall (fun r => resolves k m (record_handle r) (link_of r)) rs ->
  exists w',
    run k (S (List.length rs))
        (Draining fd m buf (total_length rs) (NewReader buf) 0 w)
    = Reading fd m buf w'
    /\ log w' = (log w ++ map (record_event link_of) rs)%list
    /\ events (log w') = (events (log w) ++ map (record_event link_of) rs)%list
    /\ List.length (events (log w'))
       = (List.length (events (log w)) + List.length rs)%nat
    /\ fds w' = fds w.
Proof.
  intros Hbuf Hat Hres.
  destruct (records_at_bound buf rs 0 ltac:(lia) Hat) as [H0 H1].
  assert (Htot : total_length rs <= len buf).
  { destruct rs; [apply len_nonneg | specialize (H1 ltac:(discriminate)); lia]. }
  assert (Hint : int64 (total_length rs) = total_length rs)
    by (apply int64_small; lia).
  destruct (run_records k fd m buf (total_length rs) link_of rs 1 Hbuf Hres 0 w Hat)
    as (w' & Hrun & Hlog & Hfds); [rewrite Hint; lia|].
  exists w'. split.
  { replace (S (List.length rs)) with (List.length rs + 1)%nat by lia.
    unfold NewReader. rewrite Hrun. cbn [run step]; unfold readEvents_turn.
    rewrite Hint, Z.add_0_l, Z.ltb_irrefl. reflexivity. }
  split; [assumption|].
  assert (Hev : events (log w') = (events (log w) ++ map (record_event link_of) rs)%list)
    by (rewrite Hlog, events_app; f_equal; apply events_record_events).
  split; [assumption|]. split; [|assumption].
  now rewrite Hev, length_app, length_map.
Qed.

Lemma sample_record_wf (name : string) (t : Z) (p : nat) :
  - 2 ^ 31 <= t < 2 ^ 31 -> (1 <= p)%nat ->
  ~ In x00 (list_byte_of_string name) ->
  wf_record (sample_record name t p).
Proof.
  intros Ht Hp Hname. unfold wf_record. cbn [sample_record rec_mask rec_handle_type
    rec_name rec_padding]. unfold FAN_CREATE. repeat split; try lia; assumption.
Qed.

Lemma sample_kernel_resolves (reads : list (Z + list byte)) (m : Z) (fh : FileHandle) :
  fh_type fh <> 7 -> fh_type fh <> 8 -> fh_type fh <> 9 ->
  resolves (sample_kernel reads) m fh "/tmp/sub".
Proof.
  intros H7 H8 H9. split; intros w; cbn.
  - destruct (Z.eqb_spec (fh_type fh) 7); [contradiction|].
    destruct (Z.eqb_spec (fh_type fh) 8); [contradiction | reflexivity].
  - destruct (Z.eqb_spec (fh_type fh) 9); [contradiction | reflexivity].
Qed.

Lemma well_formed_buffer_events_witness :
  let buf := buffer_with resolving_data in
  let link_of := fun _ : RawRecord => "/tmp/sub"%string in
  len buf < 2 ^ 32
  /\ records_at buf 0 resolving_records
  /\ Forall (fun r => resolves (sample_kernel []) 4 (record_handle r) (link_of r))
            resolving_records
  /\ exists w',
       run (sample_kernel []) (S (List.length resolving_records))
           (Draining 3 4 buf (total_length resolving_records) (NewReader buf) 0
                     sample_world)
       = Reading 3 4 buf w'
       /\ log w' = (log sample_world ++ map (record_event link_of) resolving_records)%list
       /\ events (log w')
          = (events (log sample_world)
             ++ map (record_event link_of) resolving_records)%list
       /\ List.length (events (log w'))
          = (List.length (events (log sample_world))
             + List.length resolving_records)%nat
       /\ fds w' = fds sample_world.
Proof.
  intros buf link_of.
  assert (Hbuf : len buf < 2 ^ 32) by (vm_compute; reflexivity).
  assert (Hat : records_at buf 0 resolving_records).
  { cbn [records_at resolving_records].
    split; [apply sample_record_wf; [lia | lia | cbn; intuition discriminate]|].
    split; [split; [lia | vm_compute; reflexivity]|].
    split; [apply sample_record_wf; [lia | lia | cbn; intuition discriminate]|].
    split; [split; [vm_compute; discriminate | vm_compute; reflexivity]|].
    exact I. }
  assert (Hres : Forall (fun r => resolves (sample_kernel []) 4 (record_handle r)
                                    (link_of r)) resolving_records).
  { repeat constructor; apply sample_kernel_resolves; cbn; lia. }
  split; [exact Hbuf|]. split; [exact Hat|]. split; [exact Hres|].
  exact (well_formed_buffer_events (sample_kernel []) 3 4 buf link_of
           resolving_records sample_world Hbuf Hat Hres).
Defined.

(** The scenario of one created file: /tmp/sub/a.txt with FAN_CREATE. *)
Example created_file_event :
  map message (map (record_event (fun _ => "/tmp/sub"%string)) resolving_records)
  = ["/tmp/sub/a.txt, FAN_CREATE"; "/tmp/sub, FAN_CREATE"]%string.
Proof. vm_compute. reflexivity. Qed.

(** ** Stale handles *)

Lemma unix_OpenByHandleAt_fails_fds k m fh flags w w1 e :
  unix_OpenByHandleAt k m fh flags w = (w1, inl e) -> fds w1 = fds w.
Proof.
  unfold unix_OpenByHandleAt. destruct (k_open_by_handle_at k w m fh);
    intros H; inversion H; reflexivity.
Qed.

(** C5. When the handle of the record at [offset] cannot be opened because
    it is stale (ESTALE), the turn of the loop writes nothing to the log,
    neither an event nor an error, leaves no descriptor open, and ends at
    the loop test with offset and reader at [offset] plus the declared
    length of the record. *)
Theorem stale_handle_dropped_silently
        k fd m buf n rd offset w rd1 bs rd2 b2 rd3 b3 rd4 h w1 :
  0 <= offset < 2 ^ 62 ->
  offset < int64 n ->
  binary_Read rd sizeof_FanotifyEventMetadata = (rd1, inr bs) ->
  binary_Read rd1 sizeof_fanotifyEventInfoFid = (rd2, inr b2) ->
  binary_Read rd2 sizeof_fileHandleInfo = (rd3, inr b3) ->
  binary_Read rd3 (Bytes (decode_fileHandleInfo b3)) = (rd4, inr h) ->
  unix_OpenByHandleAt k m (NewFileHandle (Type_ (decode_fileHandleInfo b3)) h)
                      O_RDONLY w
  = (w1, inl (Errno ESTALE)) ->
  step k (Draining fd m buf n rd offset w)
  = Some (Draining fd m buf n
            {| s := s rd4;
               i := offset + Event_len (decode_FanotifyEventMetadata bs) |}
            (offset + Event_len (decode_FanotifyEventMetadata bs)) w1)
  /\ log w1 = log w
  /\ fds w1 = fds w.
Proof.
  intros Ho Hn H1 H2 H3 H4 H5.
  pose proof (Event_len_bound bs) as He.
  unfold_step. destruct (Z.ltb_spec offset (int64 n)); [|lia].
  unfold loop_body. rewrite H1, H2, H3, H4.
  unfold resolve_and_log. rewrite H5.
  cbn [errors_Is]. rewrite Z.eqb_refl. cbn [negb].
  rewrite resync_continue by assumption.
  split; [reflexivity|].
  split; [eapply unix_OpenByHandleAt_log | eapply unix_OpenByHandleAt_fails_fds];
    eassumption.
Qed.

Lemma stale_handle_dropped_silently_witness :
  let buf := buffer_with stale_data in
  let r1 := binary_Read (NewReader buf) sizeof_FanotifyEventMetadata in
  let r2 := binary_Read (fst r1) sizeof_fanotifyEventInfoFid in
  let r3 := binary_Read (fst r2) sizeof_fileHandleInfo in
  let r4 := binary_Read (fst r3) (Bytes (decode_fileHandleInfo (bytes_read r3))) in
  let fh := NewFileHandle (Type_ (decode_fileHandleInfo (bytes_read r3)))
                          (bytes_read r4) in
  let w1 := fst (unix_OpenByHandleAt (sample_kernel []) 4 fh O_RDONLY sample_world) in
  let next := 0 + Event_len (decode_FanotifyEventMetadata (bytes_read r1)) in
  unix_OpenByHandleAt (sample_kernel []) 4 fh O_RDONLY sample_world
  = (w1, inl (Errno ESTALE))
  /\ step (sample_kernel []) (draining stale_data)
     = Some (Draining 3 4 buf (len stale_data) {| s := s (fst r4); i := next |}
               next w1)
  /\ log w1 = log sample_world
  /\ fds w1 = fds sample_world.
Proof.
  intros buf r1 r2 r3 r4 fh w1 next.
  assert (Hopen : unix_OpenByHandleAt (sample_kernel []) 4 fh O_RDONLY sample_world
                  = (w1, inl (Errno ESTALE))) by (vm_compute; reflexivity).
  split; [exact Hopen|].
  apply (stale_handle_dropped_silently (sample_kernel []) 3 4 buf (len stale_data)
           (NewReader buf) 0 sample_world
           (fst r1) (bytes_read r1) (fst r2) (bytes_read r2)
           (fst r3) (bytes_read r3) (fst r4) (bytes_read r4) w1).
  - lia.
  - vm_compute; reflexivity.
  - vm_compute; reflexivity.
  - vm_compute; reflexivity.
  - vm_compute; reflexivity.
  - vm_compute; reflexivity.
  - exact Hopen.
Defined.

(** ** Header failures and read errors *)

(** The metadata is read in full exactly when 24 bytes are left in the
    buffer. *)
Lemma header_read_fails_iff (rd : Reader) :
  0 <= i rd ->
  (exists rd1 e, binary_Read rd sizeof_FanotifyEventMetadata = (rd1, inl e))
  <-> len (s rd) < i rd + 24.
Proof.
  intros Hi. unfold sizeof_FanotifyEventMetadata. split.
  - intros (rd1 & e & H).
    destruct (Z_lt_le_dec (len (s rd)) (i rd + 24)) as [|Hle]; [assumption|].
    rewrite binary_Read_enough in H by lia. discriminate.
  - intros H. destruct (binary_Read_short rd 24 Hi ltac:(lia) H) as (rd1 & e & E & _).
    now exists rd1, e.
Qed.

(** C9 fails as stated: the bytes left in the buffer when a header cannot
    be read are not discarded. The first read delivers 4096 bytes; at offset
    4080 the 16 bytes of [left_over] are too few for a header, and the
    program goes back to the read. The second read delivers 4080 bytes into
    the same buffer and so leaves [left_over] where it was; the record that
    starts at 4040 takes the type of its handle, its handle and its name ab
    from these bytes, and its event is logged. *)
Lemma left_over_bytes_decoded_in_next_cycle :
  let k := sample_kernel [inr first_delivery; inr second_delivery] in
  let st0 := Reading 3 4 make_buf sample_world in
  exists rd w w1 buf2 w2,
    run k 2 st0 = Draining 3 4 first_delivery 4096 rd 4080 w
    /\ skipn 4080 first_delivery = left_over
    /\ binary_Read rd sizeof_FanotifyEventMetadata
       = ({| s := first_delivery; i := 4096 |}, inl ErrUnexpectedEOF)
    /\ run k 3 st0 = Reading 3 4 first_delivery w1
    /\ map message (log w1) = ["failed to read event metadata"%string]
    /\ len second_delivery = 4080
    /\ run k 7 st0 = Reading 3 4 buf2 w2
    /\ firstn 4080 buf2 = second_delivery
    /\ skipn 4080 buf2 = left_over
    /\ slice buf2 4092 4096 = Some (skipn 12 left_over)
    /\ ByteSliceToString (skipn 12 left_over) = "ab"%string
    /\ map message (events (log w2)) = ["/tmp/sub/ab, FAN_CREATE"%string].
Proof.
  intros k st0.
  exists (match run k 2 st0 with
          | Draining _ _ _ _ rd _ _ => rd
          | _ => NewReader []
          end).
  exists (world_of (run k 2 st0)), (world_of (run k 3 st0)).
  exists (match run k 7 st0 with
          | Reading _ _ buf _ => buf
          | _ => []
          end).
  exists (world_of (run k 7 st0)).
  repeat (split; [vm_compute; reflexivity|]).
  vm_compute; reflexivity.
Qed.

(** C9, amended. When the metadata of the record at [offset] cannot be
    read, the turn logs the error and leaves the inner loop: the program is
    back at the blocking read with the buffer as it was, no event logged and
    the descriptors as before, so nothing more is decoded in this read
    cycle. What comes next is decided by the read alone. If it never
    returns, the program stays there; if it fails, [readEvents] returns to
    [main]; if it delivers bytes, decoding starts again at offset 0 of the
    same buffer, whose first bytes are the bytes delivered and whose other
    bytes are what they were before: they are kept, not discarded. And
    whenever the read of the notification descriptor fails, the error is
    logged and [readEvents] returns to [main]. *)
Theorem header_failure_ends_read_cycle k fd m buf n rd offset w rd1 e :
  offset < int64 n ->
  binary_Read rd sizeof_FanotifyEventMetadata = (rd1, inl e) ->
  let w1 := log_Error "failed to read event metadata" e w in
  step k (Draining fd m buf n rd offset w) = Some (Reading fd m buf w1)
  /\ log w1 = (log w ++ [error_line "failed to read event metadata" e])%list
  /\ events (log w1) = events (log w)
  /\ fds w1 = fds w
  /\ match k_read k w1 fd with
     | None => step k (Reading fd m buf w1) = None
     | Some (inl e0) =>
         step k (Reading fd m buf w1)
         = Some (MainLoop fd
                   (log_Error "unable to read" (Errno e0)
                      (record_call (SysRead fd (inl (Errno e0))) w1)))
     | Some (inr data) =>
         let got := firstn (List.length buf) data in
         exists buf',
           step k (Reading fd m buf w1)
           = Some (Draining fd m buf' (len got) (NewReader buf') 0
                     (record_call (SysRead fd (inr (len got))) w1))
           /\ firstn (List.length got) buf' = got
           /\ skipn (List.length got) buf' = skipn (List.length got) buf
     end
  /\ (forall buf0 w0 e0,
         k_read k w0 fd = Some (inl e0) ->
         step k (Reading fd m buf0 w0)
         = Some (MainLoop fd
                   (log_Error "unable to read" (Errno e0)
                      (record_call (SysRead fd (inl (Errno e0))) w0)))).
Proof.
  intros Hn Hhdr w1. split.
  { unfold_step. destruct (Z.ltb_spec offset (int64 n)); [|lia].
    unfold loop_body. now rewrite Hhdr. }
  split; [reflexivity|]. split; [apply events_log_Error|]. split; [reflexivity|].
  split.
  - unfold_step. unfold unix_Read.
    destruct (k_read k w1 fd) as [[e0|data]|]; [reflexivity| |reflexivity].
    cbv zeta. set (got := firstn (List.length buf) data).
    exists (got ++ skipn (List.length got) buf)%list.
    split; [reflexivity|]. split.
    + rewrite firstn_app, Nat.sub_diag, firstn_all. cbn [firstn].
      now rewrite app_nil_r.
    + rewrite skipn_app, Nat.sub_diag, skipn_all. reflexivity.
  - intros buf0 w0 e0 Hread. unfold_step. unfold unix_Read. now rewrite Hread.
Qed.

Lemma header_failure_ends_read_cycle_witness :
  let rd := {| s := make_buf; i := 4080 |} in
  let k := sample_kernel [inl EIO] in
  let w1 := log_Error "failed to read event metadata" ErrUnexpectedEOF sample_world in
  4080 < int64 4096
  /\ binary_Read rd sizeof_FanotifyEventMetadata
     = ({| s := make_buf; i := 4096 |}, inl ErrUnexpectedEOF)
  /\ k_read k w1 3 = Some (inl EIO)
  /\ step k (Draining 3 4 make_buf 4096 rd 4080 sample_world)
     = Some (Reading 3 4 make_buf w1)
  /\ events (log w1) = events (log sample_world)
  /\ step k (Reading 3 4 make_buf w1)
     = Some (MainLoop 3
               (log_Error "unable to read" (Errno EIO)
                  (record_call (SysRead 3 (inl (Errno EIO))) w1))).
Proof.
  intros rd k w1.
  assert (H1 : 4080 < int64 4096) by (vm_compute; reflexivity).
  assert (H2 : binary_Read rd sizeof_FanotifyEventMetadata
               = ({| s := make_buf; i := 4096 |}, inl ErrUnexpectedEOF))
    by (vm_compute; reflexivity).
  assert (H3 : k_read k w1 3 = Some (inl EIO)) by reflexivity.
  destruct (header_failure_ends_read_cycle k 3 4 make_buf 4096 rd 4080 sample_world
              {| s := make_buf; i := 4096 |} ErrUnexpectedEOF H1 H2)
    as (Hstep & _ & Hev & _ & _ & Hread).
  split; [exact H1|]. split; [exact H2|]. split; [exact H3|].
  split; [exact Hstep|]. split; [exact Hev|].
  exact (Hread make_buf w1 EIO H3).
Defined.

(** ** Descriptors *)

(** When the path of the opened handle cannot be read, the turn ends without
    closing the descriptor. *)
Lemma readlink_failure_keeps_descriptor
      k m buf rd offset event fhInfo h w w1 fd w2 e :
  unix_OpenByHandleAt k m (NewFileHandle (Type_ fhInfo) h) O_RDONLY w = (w1, inr fd) ->
  os_Readlink_proc_fd k fd w1 = (w2, inl e) ->
  resolve_and_log k m buf rd offset event fhInfo h w
  = resync rd offset event (log_Error "failed to read symlink" e w2)
  /\ fds (log_Error "failed to read symlink" e w2)
     = (fd, FdHandle (NewFileHandle (Type_ fhInfo) h)) :: fds w.
Proof.
  intros Hopen Hlink. unfold resolve_and_log. rewrite Hopen, Hlink.
  split; [reflexivity|]. cbn [fds log_Error add_log].
  rewrite (os_Readlink_proc_fd_fds _ _ _ _ _ Hlink).
  revert Hopen. unfold unix_OpenByHandleAt.
  destruct (k_open_by_handle_at k w m _); [discriminate|].
  cbn [open_new]. intros H; inversion H; subst. reflexivity.
Qed.

(** C4, on the buffer of one record whose handle opens and whose
    /proc/self/fd link cannot be read: the turn of the loop ends with the
    descriptor it opened (5) still in the descriptor table, one more than
    before, and no close in the trace. *)
Theorem unreadable_link_leaks_descriptor :
  exists rd' w',
    step (sample_kernel []) (draining unreadable_data)
    = Some (Draining 3 4 (buffer_with unreadable_data) (len unreadable_data)
              rd' (len unreadable_data) w')
    /\ fds w' = (5, FdHandle (record_handle (sample_record "x" 9 1)))
                :: fds sample_world
    /\ List.length (fds w') = S (List.length (fds sample_world))
    /\ ~ In (SysClose 5) (trace w')
    /\ run (sample_kernel []) 2 (draining unreadable_data)
       = Reading 3 4 (buffer_with unreadable_data) w'.
Proof.
  eexists _, _. split; [vm_compute; reflexivity|].
  split; [vm_compute; reflexivity|].
  split; [reflexivity|].
  split; [|vm_compute; reflexivity].
  cbn. intuition discriminate.
Qed.

(** ** Records that declare too short a length *)

(** C3, at the failing input. The record of [short_resolving_data] declares
    30 bytes, its sub-records take 52 and its handle resolves. The name span
    [buf[52:30]] of line 195 is out of range: the process dies of the
    run-time panic, and the loop does not go on at offset 30, where C3 has
    it. This is the one path of a turn that does not resynchronise: the
    five failure paths seek to the declared end (lines 126, 144, 155, 169
    and 178), and line 201 would do the same here, had the slice of line 195
    not been taken unchecked before it. *)
Lemma short_length_resolved_panics :
  (exists w', step (sample_kernel []) (draining short_resolving_data)
              = Some (Panicked w'))
  /\ ~ (exists rd' w',
          step (sample_kernel []) (draining short_resolving_data)
          = Some (Draining 3 4 (buffer_with short_resolving_data)
                    (len short_resolving_data) rd' 30 w')).
Proof.
  assert (H : exists w', step (sample_kernel []) (draining short_resolving_data)
                         = Some (Panicked w')).
  { eexists. vm_compute. reflexivity. }
  split; [exact H|]. destruct H as (w0 & H).
  intros (rd' & w' & H'). rewrite H in H'. discriminate.
Qed.

Lemma unresolved_later_failure k m buf off d r w :
  bytes_at buf off (encode_head d r) ->
  len (rec_handle r) < 2 ^ 32 ->
  - 2 ^ 31 <= rec_handle_type r < 2 ^ 31 ->
  unresolved k m (record_handle r) w ->
  binary_Read {| s := buf; i := off |} sizeof_FanotifyEventMetadata
  = ({| s := buf; i := off + 24 |}, inr (metadata_bytes d r))
  /\ later_failure k m {| s := buf; i := off + 24 |} w.
Proof.
  intros Hat Hl Ht Hun. unfold encode_head in Hat.
  apply bytes_at_app in Hat as [H1 Hat]. rewrite len_metadata_bytes in Hat.
  apply bytes_at_app in Hat as [H2 Hat]. rewrite len_fid_bytes in Hat.
  apply bytes_at_app in Hat as [H3 H4]. rewrite len_handle_info_bytes in H4.
  apply binary_Read_bytes_at in H1, H2, H3, H4.
  rewrite len_metadata_bytes in H1. rewrite len_fid_bytes in H2.
  rewrite len_handle_info_bytes in H3.
  split; [exact H1|].
  assert (Hdec := decode_handle_info_bytes r Hl Ht).
  destruct Hun as [(w1 & e & Hopen) | (w1 & fd & w2 & e & Hopen & Hlink)].
  - eapply open_fails; [exact H2 | exact H3 | rewrite Hdec; exact H4 |].
    rewrite Hdec. exact Hopen.
  - eapply readlink_fails; [exact H2 | exact H3 | rewrite Hdec; exact H4 | |].
    + rewrite Hdec. exact Hopen.
    + exact Hlink.
Qed.

(** The failure paths resynchronise also when the declared length is too
    short. A record at [off] that declares a length [d] shorter than its
    sub-records and name take, and whose handle does not resolve: its
    sub-records are read all the same (past the declared end), no event is
    logged for it, the loop goes on at exactly [off + d], and a well-formed
    record that starts there is decoded and its event logged. *)
Lemma short_length_unresolved_resynchronises k fd m buf n off d r r2 link w :
  len buf < 2 ^ 32 ->
  0 <= d < record_length r ->
  bytes_at buf off (encode_with_length d r) ->
  len (rec_handle r) < 2 ^ 32 ->
  - 2 ^ 31 <= rec_handle_type r < 2 ^ 31 ->
  unresolved k m (record_handle r) w ->
  wf_record r2 ->
  bytes_at buf (off + d) (encode_record r2) ->
  resolves k m (record_handle r2) link ->
  off + d < int64 n ->
  exists w1 w2,
    step k (Draining fd m buf n {| s := buf; i := off |} off w)
    = Some (Draining fd m buf n {| s := buf; i := off + d |} (off + d) w1)
    /\ events (log w1) = events (log w)
    /\ step k (Draining fd m buf n {| s := buf; i := off + d |} (off + d) w1)
       = Some (Draining fd m buf n
                 {| s := buf; i := off + d + record_length r2 |}
                 (off + d + record_length r2) w2)
    /\ events (log w2)
       = (events (log w)
          ++ [event_line (resolved_dir link) (rec_name r2) (rec_mask r2)])%list.
Proof.
  intros Hbuf Hd Hat Hl Ht Hun Hwf2 Hat2 Hres2 Hn.
  unfold encode_with_length in Hat. apply bytes_at_app in Hat as [Hhead _].
  assert (Ho : 0 <= off) by apply Hhead.
  assert (Hoff : off + 24 <= len buf).
  { unfold encode_head in Hhead. apply bytes_at_app in Hhead as [H1 _].
    apply bytes_at_bound in H1; rewrite len_metadata_bytes in *; lia. }
  destruct (unresolved_later_failure k m buf off d r w Hhead Hl Ht Hun)
    as [Hhdr Hfail].
  assert (Hd32 : 0 <= d < 2 ^ 32).
  { split; [lia|]. pose proof (record_length_lower r2 Hwf2).
    assert (off + d + record_length r2 <= len buf).
    { rewrite <- len_encode_record. apply bytes_at_bound; [assumption|].
      rewrite len_encode_record. lia. }
    lia. }
  assert (He : Event_len (decode_FanotifyEventMetadata (metadata_bytes d r)) = d)
    by (now apply Event_len_metadata_bytes).
  destruct (loop_body_later_failure k m buf {| s := buf; i := off |} off w
              {| s := buf; i := off + 24 |} (metadata_bytes d r)
              ltac:(lia) Hhdr Hfail) as (w1 & Hbody & Hev).
  rewrite He in Hbody. cbn [s] in Hbody.
  assert (Hstep1 : step k (Draining fd m buf n {| s := buf; i := off |} off w)
                   = Some (Draining fd m buf n {| s := buf; i := off + d |}
                             (off + d) w1)).
  { unfold_step. destruct (Z.ltb_spec off (int64 n)); [|lia]. now rewrite Hbody. }
  destruct (step_record k fd m buf n (off + d) r2 w1 link Hbuf Hwf2 Hat2 Hres2 Hn)
    as (w2 & Hstep2 & Hlog2 & _).
  exists w1, w2. split; [exact Hstep1|]. split; [exact Hev|].
  split; [exact Hstep2|].
  rewrite Hlog2, events_app, Hev. reflexivity.
Qed.

Lemma short_length_unresolved_resynchronises_witness :
  let k := sample_kernel [] in
  let buf := buffer_with short_stale_data in
  0 <= 30 < record_length short_record
  /\ bytes_at buf 0 (encode_with_length 30 short_record)
  /\ unresolved k 4 (record_handle short_record) sample_world
  /\ wf_record overlapped_record
  /\ bytes_at buf (0 + 30) (encode_record overlapped_record)
  /\ resolves k 4 (record_handle overlapped_record) "/tmp/sub"
  /\ exists w1 w2,
       step k (Draining 3 4 buf (len short_stale_data) {| s := buf; i := 0 |} 0
                        sample_world)
       = Some (Draining 3 4 buf (len short_stale_data)
                 {| s := buf; i := 0 + 30 |} (0 + 30) w1)
       /\ events (log w1) = events (log sample_world)
       /\ step k (Draining 3 4 buf (len short_stale_data)
                           {| s := buf; i := 0 + 30 |} (0 + 30) w1)
          = Some (Draining 3 4 buf (len short_stale_data)
                    {| s := buf; i := 0 + 30 + record_length overlapped_record |}
                    (0 + 30 + record_length overlapped_record) w2)
       /\ events (log w2)
          = (events (log sample_world)
             ++ [event_line (resolved_dir "/tmp/sub")
                            (rec_name overlapped_record)
                            (rec_mask overlapped_record)])%list.
Proof.
  intros k buf.
  assert (Hlen : record_length short_record = 86) by (vm_compute; reflexivity).
  assert (Hd : 0 <= 30 < record_length short_record) by (rewrite Hlen; lia).
  assert (Hat : bytes_at buf 0 (encode_with_length 30 short_record))
    by (split; [lia | vm_compute; reflexivity]).
  assert (Hun : unresolved k 4 (record_handle short_record) sample_world).
  { left.
    exists (fst (unix_OpenByHandleAt k 4 (record_handle short_record) O_RDONLY
                   sample_world)), (Errno ESTALE).
    vm_compute. reflexivity. }
  assert (Hwf : wf_record overlapped_record).
  { unfold wf_record. cbn [overlapped_record rec_mask rec_handle_type rec_name
                           rec_padding].
    repeat split; try lia. cbn. intuition discriminate. }
  assert (Hat2 : bytes_at buf (0 + 30) (encode_record overlapped_record))
    by (split; [lia | vm_compute; reflexivity]).
  assert (Hres : resolves k 4 (record_handle overlapped_record) "/tmp/sub")
    by (apply sample_kernel_resolves; cbn; lia).
  split; [exact Hd|]. split; [exact Hat|]. split; [exact Hun|].
  split; [exact Hwf|]. split; [exact Hat2|]. split; [exact Hres|].
  apply (short_length_unresolved_resynchronises k 3 4 buf (len short_stale_data)
           0 30 short_record overlapped_record "/tmp/sub" sample_world).
  - vm_compute; reflexivity.
  - exact Hd.
  - exact Hat.
  - vm_compute; reflexivity.
  - cbn; lia.
  - exact Hun.
  - exact Hwf.
  - exact Hat2.
  - exact Hres.
  - vm_compute; reflexivity.
Defined.

(** ** filepath.Clean and a trailing separator *)

Lemma at_end_or_sep_app (p : list ascii) :
  at_end_or_sep (p ++ [Separator]) = at_end_or_sep p.
Proof. destruct p; reflexivity. Qed.

Lemma dotdot_test_app (p1 : list ascii) :
  match (p1 ++ [Separator])%list with
  | d :: p2 => is_dot d && at_end_or_sep p2
  | [] => false
  end
  = match p1 with
    | d :: p2 => is_dot d && at_end_or_sep p2
    | [] => false
    end.
Proof.
  destruct p1 as [|d p2]; [reflexivity|].
  cbn [app]. now rewrite at_end_or_sep_app.
Qed.

Lemma copy_element_app (p : list ascii) :
  copy_element (p ++ [Separator])
  = (fst (copy_element p), (snd (copy_element p) ++ [Separator])%list).
Proof.
  induction p as [|c p IH]; [reflexivity|].
  cbn [app copy_element]. destruct (IsPathSeparator c); [reflexivity|].
  rewrite IH. destruct (copy_element p) as [e q]. reflexivity.
Qed.

Lemma copy_element_rest (p : list ascii) :
  (List.length (snd (copy_element p)) <= List.length p)%nat.
Proof.
  induction p as [|c p IH]; [cbn; lia|].
  cbn [copy_element]. destruct (IsPathSeparator c); [cbn; lia|].
  destruct (copy_element p) as [e q]. cbn [snd List.length] in *. lia.
Qed.

(** A separator at the end of the path is skipped: it changes nothing of
    what [Clean]'s loop writes. *)
Lemma Clean_loop_trailing_sep (fuel : nat) :
  forall fuel' rooted p out dotdot,
    (List.length p < fuel)%nat -> (S (List.length p) < fuel')%nat ->
    Clean_loop fuel' rooted (p ++ [Separator]) out dotdot
    = Clean_loop fuel rooted p out dotdot.
Proof.
  induction fuel as [|f IH]; intros fuel' rooted p out dd Hf Hf'; [lia|].
  destruct fuel' as [|f']; [lia|].
  destruct p as [|c p1].
  - cbn [app Clean_loop]. change (IsPathSeparator Separator) with true. cbn iota.
    destruct f'; reflexivity.
  - cbn [app Clean_loop]. cbn [List.length] in Hf, Hf'.
    destruct (IsPathSeparator c) eqn:Ec; [apply IH; lia|].
    rewrite at_end_or_sep_app, dotdot_test_app.
    destruct (is_dot c && at_end_or_sep p1); [apply IH; lia|].
    destruct (is_dot c && match p1 with
                          | d :: p2 => is_dot d && at_end_or_sep p2
                          | [] => false
                          end) eqn:E2.
    + destruct p1 as [|d p2]; [rewrite andb_false_r in E2; discriminate|].
      cbn [app tl]. cbn [List.length] in Hf, Hf'.
      destruct (dd <? List.length out)%nat; [apply IH; lia|].
      destruct (negb rooted); apply IH; lia.
    + change (c :: (p1 ++ [Separator])%list) with ((c :: p1) ++ [Separator])%list.
      rewrite copy_element_app.
      pose proof (copy_element_rest p1) as Hrest.
      cbn [copy_element]. rewrite Ec.
      destruct (copy_element p1) as [e q]. cbn [fst snd] in *.
      apply IH; lia.
Qed.

Lemma list_ascii_of_string_app (a b : string) :
  list_ascii_of_string (a ++ b)
  = (list_ascii_of_string a ++ list_ascii_of_string b)%list.
Proof. induction a as [|c a IH]; cbn; [reflexivity | now rewrite IH]. Qed.

Lemma Clean_trailing_sep (d : string) :
  d <> ""%string -> Clean (d ++ "/") = Clean d.
Proof.
  intros Hd. unfold Clean. rewrite list_ascii_of_string_app.
  change (list_ascii_of_string "/") with [Separator].
  destruct d as [|c rest]; [congruence|].
  cbn [list_ascii_of_string app].
  destruct (IsPathSeparator c).
  - rewrite (Clean_loop_trailing_sep (S (List.length (list_ascii_of_string rest))));
      [reflexivity | lia | rewrite length_app; cbn; lia].
  - change (c :: (list_ascii_of_string rest ++ [Separator])%list)
      with ((c :: list_ascii_of_string rest) ++ [Separator])%list.
    rewrite (Clean_loop_trailing_sep
               (S (S (List.length (list_ascii_of_string rest)))));
      [reflexivity | cbn; lia | rewrite length_app; cbn; lia].
Qed.

(** Joining a directory with the empty name cleans the directory. *)
Lemma filepath_Join_empty_name (dir : string) :
  filepath_Join [dir; ""%string]
  = if String.eqb dir "" then ""%string else Clean dir.
Proof.
  cbn [filepath_Join]. destruct (String.eqb_spec dir "") as [->|Hne].
  - reflexivity.
  - unfold strings_Join. cbn [String.concat].
    assert (E : (dir ++ String Separator "" ++ "")%string = (dir ++ "/")%string)
      by reflexivity.
    rewrite E. now apply Clean_trailing_sep.
Qed.

(** ** The name and the path of an event *)

Lemma slice_Some_bounds {A} (b : list A) (lo hi : Z) (x : list A) :
  slice b lo hi = Some x -> 0 <= lo <= hi /\ hi <= len b.
Proof.
  unfold slice.
  destruct (Z.leb_spec 0 lo); [|discriminate].
  destruct (Z.leb_spec lo hi); [|discriminate].
  destruct (Z.leb_spec hi (len b)); [|discriminate]. lia.
Qed.

(** C7 fails as stated, in two ways. In the record of [padded_data] the
    name span is a.txt followed by three zero bytes; the program takes
    a.txt, the bytes before the first zero byte, and logs /tmp/sub/a.txt,
    while the span minus one trailing byte still ends in two zero bytes.
    And not every resolved record has a name span: the handles of the
    records of [short_resolving_data] and [overlong_data] are opened and
    their links read, but the declared end (30 and 4126) lies before the
    cursor (52) or beyond the buffer (4096), no name is taken and no path
    logged; the process dies at the slice. *)
Lemma name_minus_terminator_counterexample :
  let buf := buffer_with padded_data in
  let k := sample_kernel [] in
  let fh := record_handle (sample_record "x" 1 1) in
  (exists span w',
      slice buf 52 (0 + len padded_data) = Some span
      /\ step k (draining padded_data)
         = Some (Draining 3 4 buf (len padded_data)
                   {| s := buf; i := len padded_data |} (len padded_data) w')
      /\ map message (log w') = ["/tmp/sub/a.txt, FAN_CREATE"%string]
      /\ ByteSliceToString span = "a.txt"%string
      /\ name_minus_terminator span <> ByteSliceToString span
      /\ filepath_Join ["/tmp/sub"%string; name_minus_terminator span]
         <> "/tmp/sub/a.txt"%string)
  /\ (exists w1 w2,
         unix_OpenByHandleAt k 4 fh O_RDONLY sample_world = (w1, inr 5)
         /\ os_Readlink_proc_fd k 5 w1 = (w2, inr "/tmp/sub"%string))
  /\ (exists w',
         slice (buffer_with short_resolving_data) 52 (0 + 30) = None
         /\ step k (draining short_resolving_data) = Some (Panicked w')
         /\ log w' = [])
  /\ (exists w',
         slice (buffer_with overlong_data) 52 (0 + 4126) = None
         /\ step k (draining overlong_data) = Some (Panicked w')
         /\ log w' = []).
Proof.
  intros buf k fh. split.
  { exists (trailing (sample_record "a.txt" 1 3)).
    exists (snd (match step k (draining padded_data) with
                 | Some (Draining _ _ _ _ _ o w') => (o, w')
                 | _ => (0, sample_world)
                 end)).
    split; [vm_compute; reflexivity|].
    split; [vm_compute; reflexivity|].
    split; [vm_compute; reflexivity|].
    split; [vm_compute; reflexivity|].
    split; vm_compute; discriminate. }
  split.
  { exists (fst (unix_OpenByHandleAt k 4 fh O_RDONLY sample_world)).
    exists (fst (os_Readlink_proc_fd k 5
                   (fst (unix_OpenByHandleAt k 4 fh O_RDONLY sample_world)))).
    split; vm_compute; reflexivity. }
  split.
  - exists (world_of (next_state k (draining short_resolving_data))).
    split; [vm_compute; reflexivity|]. split; vm_compute; reflexivity.
  - exists (world_of (next_state k (draining overlong_data))).
    split; [vm_compute; reflexivity|]. split; vm_compute; reflexivity.
Qed.

(** C7, amended. For a record whose sub-records parse, whose handle
    resolves, and whose declared end, [offset] plus the declared length,
    lies at or after the cursor behind the handle bytes and within the
    buffer, so that the span [buf[start:end]] exists: the name is the
    bytes of that span before its first zero byte (the whole span if it has
    none), the logged path is [filepath.Join] of the resolved directory and
    that name, and with an empty name the path is the cleaned directory:
    the directory itself when it is already clean. A declared end outside
    these bounds is the panic of C3. *)
Theorem resolved_record_name_and_path
        k fd m buf n rd offset w rd1 bs rd2 b2 rd3 b3 rd4 h w1 fd' w2 link span :
  0 <= offset < 2 ^ 62 ->
  offset < int64 n ->
  binary_Read rd sizeof_FanotifyEventMetadata = (rd1, inr bs) ->
  binary_Read rd1 sizeof_fanotifyEventInfoFid = (rd2, inr b2) ->
  binary_Read rd2 sizeof_fileHandleInfo = (rd3, inr b3) ->
  binary_Read rd3 (Bytes (decode_fileHandleInfo b3)) = (rd4, inr h) ->
  unix_OpenByHandleAt k m (NewFileHandle (Type_ (decode_fileHandleInfo b3)) h)
                      O_RDONLY w
  = (w1, inr fd') ->
  os_Readlink_proc_fd k fd' w1 = (w2, inr link) ->
  slice buf (i rd4) (offset + Event_len (decode_FanotifyEventMetadata bs))
  = Some span ->
  let event := decode_FanotifyEventMetadata bs in
  let dir := resolved_dir link in
  let name := string_of_list_byte (before_nul span) in
  step k (Draining fd m buf n rd offset w)
  = Some (Draining fd m buf n
            {| s := s rd4; i := offset + Event_len event |}
            (offset + Event_len event)
            (log_Info (filepath_Join [dir; name] ++ ", "
                       ++ maskToHuman (Mask event))%string
                      (unix_Close fd' w2)))
  /\ (name = ""%string ->
      filepath_Join [dir; name] = if String.eqb dir "" then ""%string else Clean dir)
  /\ (name = ""%string -> Clean dir = dir -> filepath_Join [dir; name] = dir).
Proof.
  intros Ho Hn H1 H2 H3 H4 Hopen Hlink Hslice event dir name.
  pose proof (Event_len_bound bs) as He. fold event in He, Hslice.
  pose proof (slice_Some_bounds _ _ _ _ Hslice) as [Hlo Hhi].
  split.
  - unfold_step. destruct (Z.ltb_spec offset (int64 n)); [|lia].
    unfold loop_body. rewrite H1, H2, H3, H4.
    unfold resolve_and_log. rewrite Hopen, Hlink.
    unfold Reader_Seek at 1. rewrite Z.add_0_r, int64_small by lia.
    destruct (Z.ltb_spec (i rd4) 0); [lia|].
    fold event. rewrite int64_small by lia. cbn [s i]. rewrite Hslice.
    unfold Reader_Seek. destruct (Z.ltb_spec (offset + Event_len event) 0); [lia|].
    cbn [s i]. rewrite ByteSliceToString_before_nul. reflexivity.
  - assert (Hj : name = ""%string ->
                 filepath_Join [dir; name]
                 = if String.eqb dir "" then ""%string else Clean dir).
    { intros ->. apply filepath_Join_empty_name. }
    split; [exact Hj|]. intros Hname Hclean. rewrite (Hj Hname).
    destruct (String.eqb_spec dir "") as [E|E]; [now rewrite E | exact Hclean].
Qed.

Lemma resolved_record_name_and_path_witness :
  let k := sample_kernel [] in
  let buf := buffer_with nameless_data in
  let r1 := binary_Read (NewReader buf) sizeof_FanotifyEventMetadata in
  let r2 := binary_Read (fst r1) sizeof_fanotifyEventInfoFid in
  let r3 := binary_Read (fst r2) sizeof_fileHandleInfo in
  let r4 := binary_Read (fst r3) (Bytes (decode_fileHandleInfo (bytes_read r3))) in
  let fh := NewFileHandle (Type_ (decode_fileHandleInfo (bytes_read r3)))
                          (bytes_read r4) in
  let w1 := fst (unix_OpenByHandleAt k 4 fh O_RDONLY sample_world) in
  let w2 := fst (os_Readlink_proc_fd k 5 w1) in
  let event := decode_FanotifyEventMetadata (bytes_read r1) in
  let span := repeat x00 4 in
  unix_OpenByHandleAt k 4 fh O_RDONLY sample_world = (w1, inr 5)
  /\ os_Readlink_proc_fd k 5 w1 = (w2, inr "/tmp/sub"%string)
  /\ slice buf (i (fst r4)) (0 + Event_len event) = Some span
  /\ step k (draining nameless_data)
     = Some (Draining 3 4 buf (len nameless_data)
               {| s := s (fst r4); i := 0 + Event_len event |}
               (0 + Event_len event)
               (log_Info (filepath_Join [resolved_dir "/tmp/sub";
                                         string_of_list_byte (before_nul span)]
                          ++ ", " ++ maskToHuman (Mask event))%string
                         (unix_Close 5 w2)))
  /\ filepath_Join [resolved_dir "/tmp/sub"; string_of_list_byte (before_nul span)]
     = resolved_dir "/tmp/sub".
Proof.
  intros k buf r1 r2 r3 r4 fh w1 w2 event span.
  assert (Hopen : unix_OpenByHandleAt k 4 fh O_RDONLY sample_world = (w1, inr 5))
    by (vm_compute; reflexivity).
  assert (Hlink : os_Readlink_proc_fd k 5 w1 = (w2, inr "/tmp/sub"%string))
    by (vm_compute; reflexivity).
  assert (Hslice : slice buf (i (fst r4)) (0 + Event_len event) = Some span)
    by (vm_compute; reflexivity).
  destruct (resolved_record_name_and_path k 3 4 buf (len nameless_data)
              (NewReader buf) 0 sample_world
              (fst r1) (bytes_read r1) (fst r2) (bytes_read r2)
              (fst r3) (bytes_read r3) (fst r4) (bytes_read r4)
              w1 5 w2 "/tmp/sub"%string span) as (Hstep & _ & Hclean).
  - lia.
  - vm_compute; reflexivity.
  - vm_compute; reflexivity.
  - vm_compute; reflexivity.
  - vm_compute; reflexivity.
  - vm_compute; reflexivity.
  - exact Hopen.
  - exact Hlink.
  - exact Hslice.
  - split; [exact Hopen|]. split; [exact Hlink|]. split; [exact Hslice|].
    split; [exact Hstep|].
    apply Hclean; vm_compute; reflexivity.
Defined.

(** ** The descriptor table *)

Lemma filter_ge_succ (k : Z) (used : list Z) :
  In k used ->
  (List.length (filter (fun x : Z => (k + 1 <=? x)%Z) used)
   < List.length (filter (fun x : Z => (k <=? x)%Z) used))%nat.
Proof.
  induction used as [|x used IH]; intros Hin; [contradiction|].
  assert (Hle : (List.length (filter (fun x : Z => (k + 1 <=? x)%Z) used)
                 <= List.length (filter (fun x : Z => (k <=? x)%Z) used))%nat).
  { clear. induction used as [|y used IH]; cbn [filter]; [lia|].
    destruct (Z.leb_spec (k + 1) y), (Z.leb_spec k y); cbn [List.length]; lia. }
  cbn [filter]. destruct Hin as [->|Hin].
  - destruct (Z.leb_spec (k + 1) k); [lia|].
    destruct (Z.leb_spec k k); [|lia]. cbn [List.length]. lia.
  - specialize (IH Hin).
    destruct (Z.leb_spec (k + 1) x), (Z.leb_spec k x); cbn [List.length]; lia.
Qed.

Lemma existsb_eqb_In (k : Z) (used : list Z) :
  existsb (Z.eqb k) used = true <-> In k used.
Proof.
  rewrite existsb_exists. split.
  - intros (x & Hin & E). apply Z.eqb_eq in E. now subst.
  - intros Hin. exists k. split; [assumption | apply Z.eqb_refl].
Qed.

Lemma lowest_free_from_fresh (fuel : nat) :
  forall k used,
    (List.length (filter (fun x : Z => (k <=? x)%Z) used) <= fuel)%nat ->
    ~ In (lowest_free_from fuel k used) used.
Proof.
  induction fuel as [|f IH]; intros k used Hlen; cbn [lowest_free_from].
  - intros Hin.
    assert (In k (filter (fun x : Z => (k <=? x)%Z) used))
      by (apply filter_In; split; [assumption | apply Z.leb_refl]).
    destruct (filter (fun x : Z => (k <=? x)%Z) used); [contradiction | cbn in Hlen; lia].
  - destruct (existsb (Z.eqb k) used) eqn:E.
    + apply existsb_eqb_In in E. apply IH.
      pose proof (filter_ge_succ k used E). lia.
    + intros Hin. apply existsb_eqb_In in Hin. congruence.
Qed.

Lemma lookup_fd_None (fd : Z) (t : list (Z * FdTarget)) :
  ~ In fd (map fst t) -> lookup_fd fd t = None.
Proof.
  induction t as [|[k x] t IH]; intros Hnot; cbn [lookup_fd]; [reflexivity|].
  destruct (Z.eqb_spec k fd) as [->|Hne].
  - exfalso. apply Hnot. now left.
  - apply IH. intros Hin. apply Hnot. now right.
Qed.

(** The descriptor a new open gets is not in use. *)
Lemma lowest_free_fresh (t : list (Z * FdTarget)) : lookup_fd (lowest_free t) t = None.
Proof.
  apply lookup_fd_None. unfold lowest_free. apply lowest_free_from_fresh.
  rewrite <- (length_map fst t). apply filter_length_le.
Qed.

Lemma lookup_fd_other (m fd : Z) (x y : FdTarget) (t : list (Z * FdTarget)) :
  lookup_fd m t = Some x -> lookup_fd fd t = None ->
  lookup_fd m ((fd, y) :: t) = Some x.
Proof.
  intros Hm Hfd. cbn [lookup_fd]. destruct (Z.eqb_spec fd m) as [->|]; congruence.
Qed.

(** ** Every turn of the inner loop *)

Lemma turn_ok_resync m rd0 rd offset event w w' cs :
  0 <= offset < 2 ^ 62 -> 0 <= Event_len event < 2 ^ 32 ->
  s rd = s rd0 ->
  trace w' = (trace w ++ cs)%list -> Forall (resolution_call m) cs ->
  (forall x, lookup_fd m (fds w) = Some x -> lookup_fd m (fds w') = Some x) ->
  turn_ok m rd0 offset w (resync rd offset event w').
Proof.
  intros Ho He Hs Htr Hcs Hfd. rewrite resync_continue by assumption.
  split; [exists cs; now split|]. split; [exact Hfd|].
  intros rd' o' w'' H. inversion H; subst. cbn [s i]. repeat split; try lia.
  assumption.
Qed.

Lemma resolve_and_log_turn_ok k m buf rd0 rd offset event fhInfo h w :
  0 <= offset < 2 ^ 62 -> 0 <= Event_len event < 2 ^ 32 ->
  s rd = s rd0 ->
  turn_ok m rd0 offset w (resolve_and_log k m buf rd offset event fhInfo h w).
Proof.
  intros Ho He Hs. unfold resolve_and_log, unix_OpenByHandleAt.
  set (fh := NewFileHandle (Type_ fhInfo) h).
  destruct (k_open_by_handle_at k w m fh) as [e|].
  - (* the handle cannot be opened *)
    eapply (turn_ok_resync m rd0 rd offset event w _
              [SysOpenByHandleAt m fh O_RDONLY (inl (Errno e))]);
      try assumption.
    + destruct (negb (errors_Is (Errno e) ESTALE)); reflexivity.
    + repeat constructor.
    + intros x Hx. destruct (negb (errors_Is (Errno e) ESTALE)); exact Hx.
  - cbn [open_new]. set (fd := lowest_free (fds w)).
    unfold os_Readlink_proc_fd. cbn [fds record_call set_fds].
    rewrite lookup_fd_head.
    set (w1 := record_call _ (set_fds _ w)).
    destruct (k_readlink k w1 (FdHandle fh)) as [e|dir].
    + (* the path cannot be read: the descriptor stays open *)
      eapply (turn_ok_resync m rd0 rd offset event w _
                [SysOpenByHandleAt m fh O_RDONLY (inr fd);
                 SysReadlink (proc_self_fd fd) (inl (Errno e))]);
        try assumption.
      * cbn. now rewrite <- app_assoc.
      * repeat constructor.
      * intros x Hx. cbn. apply lookup_fd_other; [assumption|].
        apply lowest_free_fresh.
    + assert (Htr : forall w',
                 trace w' = trace (unix_Close fd
                                     (record_call (SysReadlink (proc_self_fd fd)
                                                               (inr dir)) w1)) ->
                 exists cs, trace w' = (trace w ++ cs)%list
                            /\ Forall (resolution_call m) cs).
      { intros w' ->.
        exists [SysOpenByHandleAt m fh O_RDONLY (inr fd);
                SysReadlink (proc_self_fd fd) (inr dir); SysClose fd].
        split; [cbn; now rewrite <- !app_assoc | repeat constructor]. }
      assert (Hfd : forall w' x,
                 fds w' = fds (unix_Close fd
                                 (record_call (SysReadlink (proc_self_fd fd)
                                                           (inr dir)) w1)) ->
                 lookup_fd m (fds w) = Some x -> lookup_fd m (fds w') = Some x).
      { intros w' x -> Hx. cbn. now rewrite Z.eqb_refl. }
      destruct (Reader_Seek rd 0 SeekCurrent) as [[rds start] es] eqn:Es.
      assert (Hrds : s rds = s rd).
      { revert Es. unfold Reader_Seek. destruct (_ <? 0); intros H; now inversion H. }
      destruct (slice buf start (int64 (offset + Event_len event))) as [name|].
      * destruct (Reader_Seek rds (int64 (offset + Event_len event)) SeekStart)
          as [[rdt o'] [et|]] eqn:Et.
        -- split; [apply Htr; reflexivity|]. split.
           ++ intros x. apply Hfd. reflexivity.
           ++ intros ? ? ? H. discriminate.
        -- split; [apply Htr; reflexivity|]. split.
           ++ intros x. apply Hfd. reflexivity.
           ++ intros rd' o'' w' H. inversion H; subst.
              revert Et. unfold Reader_Seek. rewrite int64_small by lia.
              destruct (Z.ltb_spec (offset + Event_len event) 0); [lia|].
              intros Et. inversion Et; subst. cbn [s i].
              repeat split; try lia. congruence.
      * split; [apply Htr; reflexivity|]. split.
        -- intros x. apply Hfd. reflexivity.
        -- intros ? ? ? H. discriminate.
Qed.

Lemma loop_body_turn_ok k m buf rd offset w :
  0 <= offset < 2 ^ 62 ->
  turn_ok m rd offset w (loop_body k m buf rd offset w).
Proof.
  intros Ho. unfold loop_body.
  assert (Hnil : forall msg e,
             exists cs, trace (log_Error msg e w) = (trace w ++ cs)%list
                        /\ Forall (resolution_call m) cs).
  { intros. exists []. split; [cbn; now rewrite app_nil_r | constructor]. }
  destruct (binary_Read rd sizeof_FanotifyEventMetadata) as [rd1 [e1|bs]] eqn:E1.
  { split; [apply Hnil|]. split; [intros x Hx; exact Hx|]. intros ? ? ? H; discriminate. }
  pose proof (binary_Read_s _ _ _ _ E1) as S1.
  pose proof (Event_len_bound bs) as He.
  destruct (binary_Read rd1 sizeof_fanotifyEventInfoFid) as [rd2 [e2|b2]] eqn:E2.
  { pose proof (binary_Read_s _ _ _ _ E2) as S2.
    eapply (turn_ok_resync m rd rd2 offset _ w _ []); try assumption;
      [congruence | cbn; now rewrite app_nil_r | constructor | intros x Hx; exact Hx]. }
  pose proof (binary_Read_s _ _ _ _ E2) as S2.
  destruct (binary_Read rd2 sizeof_fileHandleInfo) as [rd3 [e3|b3]] eqn:E3.
  { pose proof (binary_Read_s _ _ _ _ E3) as S3.
    eapply (turn_ok_resync m rd rd3 offset _ w _ []); try assumption;
      [congruence | cbn; now rewrite app_nil_r | constructor | intros x Hx; exact Hx]. }
  pose proof (binary_Read_s _ _ _ _ E3) as S3.
  destruct (binary_Read rd3 (Bytes (decode_fileHandleInfo b3)))
    as [rd4 [e4|h]] eqn:E4.
  { pose proof (binary_Read_s _ _ _ _ E4) as S4.
    eapply (turn_ok_resync m rd rd4 offset _ w _ []); try assumption;
      [congruence | cbn; now rewrite app_nil_r | constructor | intros x Hx; exact Hx]. }
  pose proof (binary_Read_s _ _ _ _ E4) as S4.
  apply resolve_and_log_turn_ok; try assumption. congruence.
Qed.

(** ** The states the process reaches *)

Lemma mount_use_snoc (tr : list Syscall) (c : Syscall) :
  mount_use (tr ++ [c]) = track (mount_use tr) c.
Proof. unfold mount_use. now rewrite fold_left_app. Qed.

Lemma mount_use_resolution_calls (m : Z) (tr cs : list Syscall) :
  mount_use tr = (Some m, true) -> Forall (resolution_call m) cs ->
  mount_use (tr ++ cs) = (Some m, true).
Proof.
  unfold mount_use. rewrite fold_left_app. intros ->.
  induction 1 as [|c cs Hc Hcs IH]; [reflexivity|].
  cbn [fold_left]. destruct c; cbn in Hc; try contradiction; cbn [track fst snd].
  - subst. rewrite Z.eqb_refl. exact IH.
  - exact IH.
  - exact IH.
Qed.

Lemma mount_opens_app (a b : list Syscall) :
  mount_opens (a ++ b) = (mount_opens a ++ mount_opens b)%list.
Proof.
  induction a as [|c a IH]; [reflexivity|].
  cbn [app mount_opens]. destruct c; try exact IH.
  destruct ret; [exact IH|]. cbn [app]. now rewrite IH.
Qed.

Lemma mount_opens_resolution_calls (m : Z) (cs : list Syscall) :
  Forall (resolution_call m) cs -> mount_opens cs = [].
Proof.
  induction 1 as [|c cs Hc Hcs IH]; [reflexivity|].
  destruct c; cbn in Hc; try contradiction; exact IH.
Qed.

Lemma len_make_buf : len make_buf = 4096.
Proof. unfold len, make_buf. now rewrite repeat_length. Qed.

Lemma pair_eta {A B} (p : A * B) : p = (fst p, snd p).
Proof. now destruct p. Qed.

Lemma state_inv_step (k : Kernel) (st st' : State) :
  state_inv st -> step k st = Some st' -> state_inv st'.
Proof.
  intros [Hok Hst]. destruct st as [w | fd w | fd m buf w | fd m buf n rd offset w
                                     | w | w]; cbn [world_of] in *; unfold_step_in_all.
  - (* Boot *)
    unfold unix_FanotifyInit.
    destruct (k_fanotify_init k w) as [e|].
    + intros H; inversion H; subst. split; [|exact I].
      cbn [world_of log_Error add_log trace record_call].
      now rewrite mount_use_snoc.
    + cbn [open_new]. unfold unix_FanotifyMark.
      cbn [trace record_call set_fds].
      destruct (k_fanotify_mark k _ _) as [e|]; cbn [option_map];
        intros H; inversion H; subst; (split; [|exact I]);
        cbn [world_of log_Error add_log trace record_call];
        now rewrite !mount_use_snoc.
  - (* MainLoop *)
    unfold unix_Open. destruct (k_open k w target) as [e|].
    + intros H; inversion H; subst. split; [|exact I].
      cbn [world_of log_Error add_log trace record_call].
      now rewrite mount_use_snoc.
    + cbn [open_new]. intros H; inversion H; subst. unfold state_inv.
      cbn [world_of trace record_call set_fds fds].
      rewrite mount_use_snoc. cbn [track fst snd].
      split; [exact Hok|]. split; [reflexivity|].
      split; [apply lookup_fd_head | apply len_make_buf].
  - (* Reading *)
    destruct Hst as (Hm & Hfd & Hbuf). unfold unix_Read.
    destruct (k_read k w fd) as [[e|data]|]; [| |discriminate].
    + intros H; inversion H; subst. split; [|exact I].
      cbn [world_of log_Error add_log trace record_call].
      now rewrite mount_use_snoc.
    + intros H; inversion H; subst. clear H. unfold state_inv.
      cbn [world_of trace record_call fds].
      rewrite mount_use_snoc. cbn [track].
      split; [exact Hok|]. split; [exact Hm|]. split; [exact Hfd|].
      assert (Hgot : (List.length (firstn (List.length buf) data)
                      <= List.length buf)%nat) by apply firstn_le_length.
      split.
      { unfold len in *. rewrite length_app, length_skipn. lia. }
      split; [unfold len in *; lia|].
      split; [reflexivity|]. split; [reflexivity|]. lia.
  - (* Draining *)
    destruct Hst as (Hm & Hfd & Hbuf & Hn & Hs & Hi & Ho).
    assert (Hint : int64 n = n) by (apply int64_small; lia).
    rewrite Hint.
    destruct (Z.ltb_spec offset n) as [Hlt|Hge].
    + pose proof (loop_body_turn_ok k m buf rd offset w ltac:(lia))
        as ((cs & Htr & Hcs) & Hkeep & Hcont).
      assert (Huse : mount_use (trace (iter_world (loop_body k m buf rd offset w)))
                     = (Some m, true)).
      { rewrite Htr. apply mount_use_resolution_calls; [|assumption].
        rewrite (pair_eta (mount_use (trace w))). congruence. }
      destruct (loop_body k m buf rd offset w) as [rd' o' w' | w' | w'] eqn:E;
        cbn [iter_world] in *; intros H; inversion H; subst; clear H;
        unfold state_inv; cbn [world_of]; rewrite Huse; (split; [reflexivity|]).
      * destruct (Hcont rd' o' w' eq_refl) as (Hs' & Hi' & Ho').
        split; [reflexivity|]. split; [now apply Hkeep|].
        split; [assumption|]. split; [assumption|].
        split; [assumption|]. split; [assumption|]. lia.
      * split; [reflexivity|]. split; [now apply Hkeep | assumption].
      * exact I.
    + intros H; inversion H; subst. split; [exact Hok|]. auto.
  - discriminate.
  - discriminate.
Qed.

Lemma state_inv_run (k : Kernel) (fuel : nat) (st : State) :
  state_inv st -> state_inv (run k fuel st).
Proof.
  revert st. induction fuel as [|fuel IH]; intros st Hinv; cbn [run]; [assumption|].
  destruct (step k st) as [st'|] eqn:E; [|assumption].
  apply IH. eapply state_inv_step; eassumption.
Qed.

Lemma state_inv_Boot (t : list (Z * FdTarget)) : state_inv (Boot (initial_world t)).
Proof. split; [reflexivity | exact I]. Qed.

(** ** The mount descriptor *)

(** C6 fails as stated: when the read of the notification descriptor fails,
    [readEvents] returns, [main] calls it again and the target is opened a
    second time; the process then works with descriptor 5 while descriptor
    4, never closed, is still open. *)
Lemma mount_descriptor_reopened :
  let st := run (sample_kernel [inl EIO]) 4 (Boot (initial_world std_fds)) in
  mount_opens (trace (world_of st)) = [4; 5]
  /\ mount_of st = Some 5
  /\ lookup_fd 4 (fds (world_of st)) = Some (FdPath target)
  /\ lookup_fd 5 (fds (world_of st)) = Some (FdPath target).
Proof. vm_compute. repeat split. Qed.

(** C6, amended. The target is opened once in every call of [readEvents],
    before its read loop, and the loops of that call open nothing by path;
    at every point the process reaches, every resolution so far was given
    the descriptor of the latest such open, and inside [readEvents] that
    descriptor is the one in use and it is open. *)
Theorem resolutions_use_mount_of_call (k : Kernel) (t : list (Z * FdTarget))
        (fuel : nat) :
  let st := run k fuel (Boot (initial_world t)) in
  snd (mount_use (trace (world_of st))) = true
  /\ (forall m, mount_of st = Some m ->
        fst (mount_use (trace (world_of st))) = Some m
        /\ lookup_fd m (fds (world_of st)) = Some (FdPath target))
  /\ (forall fd w, exists st' ret,
        step k (MainLoop fd w) = Some st'
        /\ trace (world_of st')
           = (trace w ++ [SysOpen target (Z.lor O_DIRECTORY O_RDONLY) ret])%list)
  /\ (forall m st', mount_of st = Some m -> step k st = Some st' ->
        mount_opens (trace (world_of st')) = mount_opens (trace (world_of st))).
Proof.
  intros st.
  assert (Hinv : state_inv st) by (apply state_inv_run, state_inv_Boot).
  destruct Hinv as [Hok Hst]. split; [exact Hok|]. split.
  { intros m Hm. destruct st; cbn [mount_of] in Hm; try discriminate;
      inversion Hm; subst; cbn [world_of]; intuition. }
  split.
  { intros fd w. unfold_step. unfold unix_Open.
    destruct (k_open k w target) as [e|]; cbn [open_new];
      eexists _, _; (split; [reflexivity|]); reflexivity. }
  intros m st' Hm. destruct st as [w | fd w | fd m' buf w | fd m' buf n rd offset w
                                   | w | w]; cbn [mount_of] in Hm; try discriminate.
  - unfold_step. unfold unix_Read.
    destruct (k_read k w fd) as [[e|data]|]; [| |discriminate];
      intros H; inversion H; subst; cbn [world_of log_Error add_log trace record_call];
      rewrite mount_opens_app; cbn [mount_opens]; now rewrite app_nil_r.
  - destruct Hst as (_ & _ & _ & Hn & _ & _ & Ho).
    unfold_step. rewrite int64_small by lia.
    destruct (Z.ltb_spec offset n) as [Hlt|Hge].
    + pose proof (loop_body_turn_ok k m' buf rd offset w ltac:(lia))
        as ((cs & Htr & Hcs) & _ & _).
      assert (Hop : mount_opens (trace (iter_world (loop_body k m' buf rd offset w)))
                    = mount_opens (trace w)).
      { rewrite Htr, mount_opens_app, (mount_opens_resolution_calls m' cs Hcs).
        apply app_nil_r. }
      destruct (loop_body k m' buf rd offset w); cbn [iter_world] in Hop;
        intros H; inversion H; subst; exact Hop.
    + intros H; inversion H; subst. reflexivity.
Qed.

(** ** The cursor and the bytes read *)

(** C10 fails as stated: the read delivers 50 bytes of a record that
    declares 100; the turn reads the handle bytes up to index 52 and then
    moves the offset and the reader to 100, past the 50 bytes read. *)
Lemma cursor_passes_bytes_read :
  exists w',
    run (sample_kernel [inr truncated_data]) 4 (Boot (initial_world std_fds))
    = Draining 3 4 (buffer_with truncated_data) 50
               {| s := buffer_with truncated_data; i := 100 |} 100 w'
    /\ len truncated_data = 50
    /\ fst (binary_Read {| s := buffer_with truncated_data; i := 44 |} 8)
       = {| s := buffer_with truncated_data; i := 52 |}.
Proof.
  eexists. split; [vm_compute; reflexivity|].
  split; vm_compute; reflexivity.
Qed.

(** C10, amended. At every point the process reaches, the buffer has 4096
    bytes; in the inner loop the number of bytes read is at most 4096, the
    reader is over that buffer with its position at the offset, which is
    not negative, and a turn is taken only while the offset is below the
    number of bytes read: otherwise the program is back at the blocking
    read. How far the offset moves in a turn is set by the declared length
    of the record, not by the number of bytes read. *)
Theorem decoding_starts_below_bytes_read (k : Kernel) (t : list (Z * FdTarget))
        (fuel : nat) :
  match run k fuel (Boot (initial_world t)) with
  | Draining fd m buf n rd offset w =>
      len buf = 4096
      /\ 0 <= n <= 4096
      /\ s rd = buf /\ i rd = offset
      /\ 0 <= offset < 4096 + 2 ^ 32
      /\ (n <= offset ->
          step k (Draining fd m buf n rd offset w) = Some (Reading fd m buf w))
      /\ (offset < n ->
          step k (Draining fd m buf n rd offset w)
          = Some match loop_body k m buf rd offset w with
                 | Continue rd' offset' w' => Draining fd m buf n rd' offset' w'
                 | Break w' => Reading fd m buf w'
                 | Panic w' => Panicked w'
                 end)
  | Reading _ _ buf _ => len buf = 4096
  | _ => True
  end.
Proof.
  pose proof (state_inv_run k fuel _ (state_inv_Boot t)) as [_ Hst].
  destruct (run k fuel (Boot (initial_world t)))
    as [w | fd w | fd m buf w | fd m buf n rd offset w | w | w]; try exact I.
  - apply Hst.
  - destruct Hst as (_ & _ & Hbuf & Hn & Hs & Hi & Ho).
    repeat (split; [assumption || lia|]).
    unfold_step. rewrite int64_small by lia. split; intros H.
    + destruct (Z.ltb_spec offset n); [lia | reflexivity].
    + destruct (Z.ltb_spec offset n); [reflexivity | lia].
Qed.

(** * Further properties of the program *)

(** ** How a turn of the inner loop ends *)

Lemma resolve_and_log_outcome k m buf rd offset event fhInfo h w :
  0 <= offset < 2 ^ 62 -> 0 <= Event_len event < 2 ^ 32 ->
  (exists w' l,
      resolve_and_log k m buf rd offset event fhInfo h w
      = Continue {| s := s rd; i := offset + Event_len event |}
                 (offset + Event_len event) w'
      /\ log w' = (log w ++ l)%list /\ (List.length l <= 1)%nat)
  \/ (exists w',
         resolve_and_log k m buf rd offset event fhInfo h w = Panic w'
         /\ log w' = log w).
Proof.
  intros Ho He. unfold resolve_and_log, unix_OpenByHandleAt.
  set (fh := NewFileHandle (Type_ fhInfo) h).
  destruct (k_open_by_handle_at k w m fh) as [e|].
  - left. rewrite resync_continue by assumption.
    destruct (negb (errors_Is (Errno e) ESTALE)).
    + eexists _, [_]. split; [reflexivity|]. split; [reflexivity | cbn; lia].
    + eexists _, []. split; [reflexivity|].
      split; [cbn; now rewrite app_nil_r | cbn; lia].
  - cbn [open_new]. unfold os_Readlink_proc_fd. cbn [fds record_call set_fds].
    rewrite lookup_fd_head.
    set (w1 := record_call _ (set_fds _ w)).
    destruct (k_readlink k w1 (FdHandle fh)) as [e|dir].
    + left. rewrite resync_continue by assumption.
      eexists _, [_]. split; [reflexivity|]. split; [reflexivity | cbn; lia].
    + destruct (Reader_Seek rd 0 SeekCurrent) as [[rds start] es] eqn:Es.
      assert (Hrds : s rds = s rd).
      { revert Es. unfold Reader_Seek. destruct (_ <? 0); intros H; now inversion H. }
      rewrite int64_small by lia.
      destruct (slice buf start (offset + Event_len event)) as [name|].
      * left. unfold Reader_Seek.
        destruct (Z.ltb_spec (offset + Event_len event) 0); [lia|].
        rewrite Hrds. eexists _, [_].
        split; [reflexivity|]. split; [reflexivity | cbn; lia].
      * right. eexists. split; reflexivity.
Qed.

(** The ways a turn can end, for any bytes and any kernel. *)
Lemma loop_body_outcome k m buf rd offset w :
  0 <= offset < 2 ^ 62 ->
  (exists rd1 e,
      binary_Read rd sizeof_FanotifyEventMetadata = (rd1, inl e)
      /\ loop_body k m buf rd offset w
         = Break (log_Error "failed to read event metadata" e w))
  \/ (exists rd1 bs,
         binary_Read rd sizeof_FanotifyEventMetadata = (rd1, inr bs)
         /\ ((exists w' l,
                 loop_body k m buf rd offset w
                 = Continue
                     {| s := s rd;
                        i := offset + Event_len (decode_FanotifyEventMetadata bs) |}
                     (offset + Event_len (decode_FanotifyEventMetadata bs)) w'
                 /\ log w' = (log w ++ l)%list /\ (List.length l <= 1)%nat)
             \/ (exists w', loop_body k m buf rd offset w = Panic w'
                            /\ log w' = log w))).
Proof.
  intros Ho. unfold loop_body.
  destruct (binary_Read rd sizeof_FanotifyEventMetadata) as [rd1 [e1|bs]] eqn:E1.
  { left. now exists rd1, e1. }
  right. exists rd1, bs. split; [reflexivity|].
  pose proof (binary_Read_s _ _ _ _ E1) as S1.
  pose proof (Event_len_bound bs) as He.
  destruct (binary_Read rd1 sizeof_fanotifyEventInfoFid) as [rd2 [e2|b2]] eqn:E2.
  { left. rewrite resync_continue by assumption.
    pose proof (binary_Read_s _ _ _ _ E2) as S2.
    replace (s rd2) with (s rd) by congruence.
    eexists _, [_]. split; [reflexivity|]. split; [reflexivity | cbn; lia]. }
  pose proof (binary_Read_s _ _ _ _ E2) as S2.
  destruct (binary_Read rd2 sizeof_fileHandleInfo) as [rd3 [e3|b3]] eqn:E3.
  { left. rewrite resync_continue by assumption.
    pose proof (binary_Read_s _ _ _ _ E3) as S3.
    replace (s rd3) with (s rd) by congruence.
    eexists _, [_]. split; [reflexivity|]. split; [reflexivity | cbn; lia]. }
  pose proof (binary_Read_s _ _ _ _ E3) as S3.
  destruct (binary_Read rd3 (Bytes (decode_fileHandleInfo b3)))
    as [rd4 [e4|h]] eqn:E4.
  { left. rewrite resync_continue by assumption.
    pose proof (binary_Read_s _ _ _ _ E4) as S4.
    replace (s rd4) with (s rd) by congruence.
    eexists _, [_]. split; [reflexivity|]. split; [reflexivity | cbn; lia]. }
  pose proof (binary_Read_s _ _ _ _ E4) as S4.
  replace (s rd) with (s rd4) by congruence.
  apply resolve_and_log_outcome; assumption.
Qed.

(** X1. Inside the inner loop the program goes back to the blocking read in
    two cases only: the offset has reached the number of bytes read, with
    nothing logged, or the metadata of the record at the offset cannot be
    read, with that one error logged. In particular the branch that logs
    "failed to set new offset" is never taken. *)
Theorem back_to_read_iff k fd m buf n rd offset w w' :
  0 <= offset < 2 ^ 62 -> 0 <= n < 2 ^ 62 ->
  step k (Draining fd m buf n rd offset w) = Some (Reading fd m buf w')
  <-> (n <= offset /\ w' = w)
      \/ (offset < n
          /\ exists rd1 e,
               binary_Read rd sizeof_FanotifyEventMetadata = (rd1, inl e)
               /\ w' = log_Error "failed to read event metadata" e w).
Proof.
  intros Ho Hn. unfold_step. rewrite int64_small by lia.
  destruct (Z.ltb_spec offset n) as [Hlt|Hge].
  - destruct (loop_body_outcome k m buf rd offset w Ho)
      as [(rd1 & e & Hhdr & Hbody)
         | (rd1 & bs & Hhdr & [(w1 & l & Hbody & _) | (w1 & Hbody & _)])];
      rewrite Hbody; split.
    + intros H; inversion H; subst. right. split; [assumption|]. now exists rd1, e.
    + intros [[Hc _] | (_ & rd2 & e2 & Hhdr2 & ->)]; [lia|].
      rewrite Hhdr in Hhdr2. inversion Hhdr2; subst. reflexivity.
    + discriminate.
    + intros [[Hc _] | (_ & rd2 & e2 & Hhdr2 & _)]; [lia|].
      rewrite Hhdr in Hhdr2. discriminate.
    + discriminate.
    + intros [[Hc _] | (_ & rd2 & e2 & Hhdr2 & _)]; [lia|].
      rewrite Hhdr in Hhdr2. discriminate.
  - split.
    + intros H; inversion H; subst. left. now split.
    + intros [[_ ->] | [Hc _]]; [reflexivity | lia].
Qed.

Lemma back_to_read_iff_witness :
  let rd := {| s := make_buf; i := 4080 |} in
  let w' := log_Error "failed to read event metadata" ErrUnexpectedEOF sample_world in
  step (sample_kernel []) (Draining 3 4 make_buf 4096 rd 4080 sample_world)
  = Some (Reading 3 4 make_buf w')
  <-> (4096 <= 4080 /\ w' = sample_world)
      \/ (4080 < 4096
          /\ exists rd1 e,
               binary_Read rd sizeof_FanotifyEventMetadata = (rd1, inl e)
               /\ w' = log_Error "failed to read event metadata" e sample_world).
Proof.
  intros rd w'.
  refine (back_to_read_iff (sample_kernel []) 3 4 make_buf 4096 rd 4080
            sample_world w' _ _); lia.
Defined.

(** X2. Whenever the inner loop goes on after a turn, the metadata of the
    record at the offset was read, the new offset is the old one plus the
    length that record declares, whichever later step failed or succeeded,
    and the reader is over the same buffer at exactly the new offset; the
    offset never moves backwards. *)
Theorem next_offset_is_declared_end k fd m buf n rd offset w rd' offset' w' :
  0 <= offset < 2 ^ 62 ->
  step k (Draining fd m buf n rd offset w)
  = Some (Draining fd m buf n rd' offset' w') ->
  exists rd1 bs,
    binary_Read rd sizeof_FanotifyEventMetadata = (rd1, inr bs)
    /\ offset' = offset + Event_len (decode_FanotifyEventMetadata bs)
    /\ rd' = {| s := s rd; i := offset' |}
    /\ offset <= offset' < offset + 2 ^ 32.
Proof.
  intros Ho. unfold_step.
  destruct (offset <? int64 n); [|discriminate].
  destruct (loop_body_outcome k m buf rd offset w Ho)
    as [(rd1 & e & Hhdr & Hbody)
       | (rd1 & bs & Hhdr & [(w1 & l & Hbody & _) | (w1 & Hbody & _)])];
    rewrite Hbody; intros H; inversion H; subst.
  exists rd1, bs. pose proof (Event_len_bound bs) as He.
  cbn [Event_len decode_FanotifyEventMetadata] in He |- *.
  repeat split; try reflexivity; try assumption; lia.
Qed.

Lemma next_offset_is_declared_end_witness :
  let k := sample_kernel [] in
  let buf := buffer_with stale_data in
  let w' := world_of (next_state k (draining stale_data)) in
  step k (Draining 3 4 buf (len stale_data) (NewReader buf) 0 sample_world)
  = Some (Draining 3 4 buf (len stale_data) {| s := buf; i := 57 |} 57 w')
  /\ exists rd1 bs,
       binary_Read (NewReader buf) sizeof_FanotifyEventMetadata = (rd1, inr bs)
       /\ 57 = 0 + Event_len (decode_FanotifyEventMetadata bs)
       /\ {| s := buf; i := 57 |} = {| s := s (NewReader buf); i := 57 |}
       /\ 0 <= 57 < 0 + 2 ^ 32.
Proof.
  intros k buf w'.
  assert (Hstep : step k (Draining 3 4 buf (len stale_data) (NewReader buf) 0
                                   sample_world)
                  = Some (Draining 3 4 buf (len stale_data) {| s := buf; i := 57 |}
                            57 w')) by (vm_compute; reflexivity).
  split; [exact Hstep|].
  apply (next_offset_is_declared_end k 3 4 buf (len stale_data) (NewReader buf) 0
           sample_world {| s := buf; i := 57 |} 57 w'); [lia | exact Hstep].
Defined.

(** X3. One turn of the inner loop adds at most one line to the log,
    whatever the bytes and whatever the kernel answers, and never changes
    the lines already there. *)
Theorem turn_logs_at_most_one_line k fd m buf n rd offset w st' :
  0 <= offset < 2 ^ 62 ->
  step k (Draining fd m buf n rd offset w) = Some st' ->
  exists l, log (world_of st') = (log w ++ l)%list /\ (List.length l <= 1)%nat.
Proof.
  intros Ho. unfold_step.
  destruct (offset <? int64 n).
  - destruct (loop_body_outcome k m buf rd offset w Ho)
      as [(rd1 & e & Hhdr & Hbody)
         | (rd1 & bs & Hhdr & [(w1 & l & Hbody & Hlog & Hlen) | (w1 & Hbody & Hlog)])];
      rewrite Hbody; intros H; inversion H; subst; cbn [world_of].
    + eexists [_]. split; [reflexivity | cbn; lia].
    + now exists l.
    + exists []. split; [now rewrite app_nil_r | cbn; lia].
  - intros H; inversion H; subst. exists [].
    split; [cbn; now rewrite app_nil_r | cbn; lia].
Qed.

Lemma turn_logs_at_most_one_line_witness :
  let k := sample_kernel [] in
  let st' := next_state k (draining denied_data) in
  step k (draining denied_data) = Some st'
  /\ exists l, log (world_of st') = (log sample_world ++ l)%list
               /\ (List.length l <= 1)%nat.
Proof.
  intros k st'.
  assert (Hstep : step k (draining denied_data) = Some st')
    by (vm_compute; reflexivity).
  split; [exact Hstep|].
  apply (turn_logs_at_most_one_line k 3 4 (buffer_with denied_data)
           (len denied_data) (NewReader (buffer_with denied_data)) 0
           sample_world st'); [lia | exact Hstep].
Defined.

(** ** Descriptors over the whole run *)

Lemma iter_world_resync rd offset event w : iter_world (resync rd offset event w) = w.
Proof. unfold resync, Reader_Seek. destruct (_ <? 0); reflexivity. Qed.

(** What a turn does to the descriptor table: nothing, unless the handle
    was opened and its path could not be read. *)
Lemma resolve_and_log_fds k m buf rd offset event fhInfo h w :
  let fh := NewFileHandle (Type_ fhInfo) h in
  let w' := iter_world (resolve_and_log k m buf rd offset event fhInfo h w) in
  fds w' = fds w
  \/ (exists w1 e,
         k_open_by_handle_at k w m fh = None
         /\ k_readlink k w1 (FdHandle fh) = inl e
         /\ fds w' = (lowest_free (fds w), FdHandle fh) :: fds w).
Proof.
  intros fh w'. subst w'. unfold resolve_and_log, unix_OpenByHandleAt. fold fh.
  destruct (k_open_by_handle_at k w m fh) as [e|] eqn:Eo.
  - left. rewrite iter_world_resync.
    destruct (negb (errors_Is (Errno e) ESTALE)); reflexivity.
  - cbn [open_new]. unfold os_Readlink_proc_fd. cbn [fds record_call set_fds].
    rewrite lookup_fd_head.
    set (w1 := record_call _ (set_fds _ w)).
    destruct (k_readlink k w1 (FdHandle fh)) as [e|dir] eqn:El.
    + right. exists w1, e. rewrite iter_world_resync.
      split; [reflexivity|]. split; [exact El | reflexivity].
    + left.
      destruct (Reader_Seek rd 0 SeekCurrent) as [[rds start] es].
      destruct (slice buf start _) as [name|].
      * destruct (Reader_Seek rds _ SeekStart) as [[rdt o'] [et|]];
          cbn [iter_world fds log_Error log_Info add_log unix_Close record_call
               set_fds]; apply close_fd_head.
      * cbn [iter_world fds unix_Close record_call set_fds]. apply close_fd_head.
Qed.

Lemma loop_body_fds k m buf rd offset w :
  let w' := iter_world (loop_body k m buf rd offset w) in
  fds w' = fds w
  \/ (exists fh w1 e,
         k_open_by_handle_at k w m fh = None
         /\ k_readlink k w1 (FdHandle fh) = inl e
         /\ fds w' = (lowest_free (fds w), FdHandle fh) :: fds w).
Proof.
  cbv zeta. unfold loop_body.
  destruct (binary_Read rd sizeof_FanotifyEventMetadata) as [rd1 [e1|bs]];
    [left; reflexivity|].
  destruct (binary_Read rd1 sizeof_fanotifyEventInfoFid) as [rd2 [e2|b2]];
    [left; now rewrite iter_world_resync|].
  destruct (binary_Read rd2 sizeof_fileHandleInfo) as [rd3 [e3|b3]];
    [left; now rewrite iter_world_resync|].
  destruct (binary_Read rd3 (Bytes (decode_fileHandleInfo b3))) as [rd4 [e4|h]];
    [left; now rewrite iter_world_resync|].
  destruct (resolve_and_log_fds k m buf rd4 offset
              (decode_FanotifyEventMetadata bs) (decode_fileHandleInfo b3) h w)
    as [H | (w1 & e & Ho & Hl & H)]; [now left|].
  right. eexists _, w1, e. split; [exact Ho|]. split; [exact Hl | exact H].
Qed.



Lemma step_keeps_open (k : Kernel) (st st' : State) (fd0 : Z) (x : FdTarget) :
  step k st = Some st' ->
  lookup_fd fd0 (fds (world_of st)) = Some x ->
  lookup_fd fd0 (fds (world_of st')) = Some x.
Proof.
  intros Hstep Hx.
  destruct st as [w | fd w | fd m buf w | fd m buf n rd offset w | w | w];
    cbn [world_of] in Hx.
  - revert Hstep. unfold_step. unfold unix_FanotifyInit.
    destruct (k_fanotify_init k w) as [e|].
    + intros H; inversion H; subst. exact Hx.
    + cbn [open_new]. unfold unix_FanotifyMark.
      destruct (k_fanotify_mark k _ _); cbn [option_map];
        intros H; inversion H; subst;
        cbn [world_of fds log_Error add_log record_call set_fds];
        (apply lookup_fd_other; [exact Hx | apply lowest_free_fresh]).
  - revert Hstep. unfold_step. unfold unix_Open.
    destruct (k_open k w target) as [e|].
    + intros H; inversion H; subst. exact Hx.
    + cbn [open_new]. intros H; inversion H; subst.
      cbn [world_of fds record_call set_fds].
      apply lookup_fd_other; [exact Hx | apply lowest_free_fresh].
  - revert Hstep. unfold_step. unfold unix_Read.
    destruct (k_read k w fd) as [[e|data]|]; [| |discriminate];
      intros H; inversion H; subst; exact Hx.
  - revert Hstep. unfold_step.
    assert (Hw : lookup_fd fd0 (fds (iter_world (loop_body k m buf rd offset w)))
                 = Some x).
    { pose proof (loop_body_fds k m buf rd offset w) as H. cbv zeta in H.
      destruct H as [H | (fh & w1 & e & _ & _ & H)]; rewrite H; [exact Hx|].
      apply lookup_fd_other; [exact Hx | apply lowest_free_fresh]. }
    destruct (offset <? int64 n); [|intros H; inversion H; subst; exact Hx].
    destruct (loop_body k m buf rd offset w); cbn [iter_world] in Hw;
      intros H; inversion H; subst; exact Hw.
  - discriminate.
  - discriminate.
Qed.

(** X5. The process never closes a descriptor that was open before: what a
    descriptor number refers to at some point of the run, it still refers
    to at every later point. The only close of the program is given the
    descriptor its own turn has just opened. *)
Theorem open_descriptors_stay_open (k : Kernel) (fuel : nat) (st : State)
        (fd0 : Z) (x : FdTarget) :
  lookup_fd fd0 (fds (world_of st)) = Some x ->
  lookup_fd fd0 (fds (world_of (run k fuel st))) = Some x.
Proof.
  revert st. induction fuel as [|fuel IH]; intros st Hx; cbn [run]; [exact Hx|].
  destruct (step k st) as [st'|] eqn:E; [|exact Hx].
  apply IH. eapply step_keeps_open; eassumption.
Qed.

Lemma open_descriptors_stay_open_witness :
  lookup_fd 3 (fds (world_of (draining resolving_data))) = Some FdNotify
  /\ lookup_fd 3 (fds (world_of (run (sample_kernel []) 3 (draining resolving_data))))
     = Some FdNotify.
Proof.
  assert (H : lookup_fd 3 (fds (world_of (draining resolving_data))) = Some FdNotify)
    by reflexivity.
  split; [exact H|].
  exact (open_descriptors_stay_open (sample_kernel []) 3 (draining resolving_data)
           3 FdNotify H).
Defined.

(** ** Panics *)

Lemma slice_None_iff {A} (b : list A) (lo hi : Z) :
  0 <= lo -> (slice b lo hi = None <-> hi < lo \/ len b < hi).
Proof.
  intros Hlo. unfold slice.
  destruct (Z.leb_spec 0 lo); [|lia].
  destruct (Z.leb_spec lo hi); destruct (Z.leb_spec hi (len b)); cbn [andb];
    split; intros Hx; try discriminate; try reflexivity; lia.
Qed.

Lemma resolve_and_log_panics k m buf rd offset event fhInfo h w link :
  resolves k m (NewFileHandle (Type_ fhInfo) h) link ->
  0 <= offset < 2 ^ 62 -> 0 <= Event_len event < 2 ^ 32 ->
  0 <= i rd < 2 ^ 62 ->
  slice buf (i rd) (offset + Event_len event) = None ->
  exists w',
    resolve_and_log k m buf rd offset event fhInfo h w = Panic w'
    /\ log w' = log w /\ fds w' = fds w.
Proof.
  intros [Hopen Hlink] Ho He Hi Hslice.
  unfold resolve_and_log, unix_OpenByHandleAt. rewrite Hopen.
  cbn [open_new]. unfold os_Readlink_proc_fd.
  cbn [fds record_call set_fds]. rewrite lookup_fd_head, Hlink.
  unfold Reader_Seek at 1. rewrite Z.add_0_r, int64_small by lia.
  destruct (Z.ltb_spec (i rd) 0); [lia|].
  rewrite int64_small by lia. cbn [s i]. rewrite Hslice.
  eexists. split; [reflexivity|]. split; [reflexivity|].
  cbn [fds unix_Close record_call set_fds]. apply close_fd_head.
Qed.

(** X6. For a record whose sub-records are in the buffer and whose handle
    resolves, the declared length alone decides the turn. If the declared
    end lies before the end of the handle bytes or beyond the buffer, the
    process dies of a slice panic, with nothing logged and the descriptor
    closed; otherwise exactly one event is logged and the loop goes on at
    the declared end. *)
Theorem resolved_record_panics_or_logs k fd m buf n off d r link w :
  len buf < 2 ^ 32 ->
  bytes_at buf off (encode_head d r) ->
  0 <= d < 2 ^ 32 ->
  len (rec_handle r) < 2 ^ 32 ->
  - 2 ^ 31 <= rec_handle_type r < 2 ^ 31 ->
  resolves k m (record_handle r) link ->
  off < int64 n ->
  (d < 44 + len (rec_handle r) \/ len buf < off + d ->
   exists w',
     step k (Draining fd m buf n {| s := buf; i := off |} off w)
     = Some (Panicked w')
     /\ log w' = log w /\ fds w' = fds w)
  /\ (44 + len (rec_handle r) <= d /\ off + d <= len buf ->
      exists w' line,
        step k (Draining fd m buf n {| s := buf; i := off |} off w)
        = Some (Draining fd m buf n {| s := buf; i := off + d |} (off + d) w')
        /\ log w' = (log w ++ [line])%list /\ level line = InfoLevel
        /\ fds w' = fds w).
Proof.
  intros Hbuf Hat Hd Hl Ht Hres Hn.
  assert (Ho : 0 <= off) by apply Hat.
  pose proof (len_nonneg (rec_handle r)) as Hh.
  assert (Hoff : off + 44 + len (rec_handle r) <= len buf).
  { assert (Hlen : len (encode_head d r) = 44 + len (rec_handle r)).
    { unfold encode_head.
      rewrite !len_app, len_metadata_bytes, len_fid_bytes, len_handle_info_bytes.
      lia. }
    pose proof (bytes_at_bound _ _ _ Hat) as Hb. rewrite Hlen in Hb. lia. }
  assert (He : Event_len (decode_FanotifyEventMetadata (metadata_bytes d r)) = d)
    by (now apply Event_len_metadata_bytes).
  unfold_step. destruct (Z.ltb_spec off (int64 n)); [|lia].
  rewrite (loop_body_head k m buf off d r w Hat Hl Ht).
  split.
  - intros Hout.
    destruct (resolve_and_log_panics k m buf
                {| s := buf; i := off + 44 + len (rec_handle r) |} off
                (decode_FanotifyEventMetadata (metadata_bytes d r))
                {| Bytes := len (rec_handle r); Type_ := rec_handle_type r |}
                (rec_handle r) w link Hres)
      as (w' & Hbody & Hlog & Hfds); try (rewrite ?He; cbn [i]; lia).
    + rewrite He. cbn [i]. apply slice_None_iff; lia.
    + rewrite Hbody. now exists w'.
  - intros [Hlo Hhi].
    destruct (slice buf (off + 44 + len (rec_handle r)) (off + d)) as [span|] eqn:Es.
    2: { apply slice_None_iff in Es; lia. }
    destruct (resolve_and_log_resolved k m buf
                {| s := buf; i := off + 44 + len (rec_handle r) |} off
                (decode_FanotifyEventMetadata (metadata_bytes d r))
                {| Bytes := len (rec_handle r); Type_ := rec_handle_type r |}
                (rec_handle r) w link span Hres)
      as (w' & Hbody & Hlog & Hfds); try (rewrite ?He; cbn [i]; lia).
    + rewrite He. exact Es.
    + rewrite Hbody, He. cbn [s]. eexists w', _.
      split; [reflexivity|]. split; [exact Hlog|]. split; [reflexivity | exact Hfds].
Qed.

Lemma resolved_record_panics_or_logs_witness :
  let k := sample_kernel [] in
  let buf := buffer_with overlong_data in
  let r := sample_record "x" 1 1 in
  bytes_at buf 0 (encode_head 4126 r)
  /\ resolves k 4 (record_handle r) "/tmp/sub"
  /\ exists w',
       step k (Draining 3 4 buf (len overlong_data) {| s := buf; i := 0 |} 0
                        sample_world)
       = Some (Panicked w')
       /\ log w' = log sample_world /\ fds w' = fds sample_world.
Proof.
  intros k buf r.
  assert (Hat : bytes_at buf 0 (encode_head 4126 r))
    by (split; [lia | vm_compute; reflexivity]).
  assert (Hres : resolves k 4 (record_handle r) "/tmp/sub")
    by (apply sample_kernel_resolves; cbn; lia).
  split; [exact Hat|]. split; [exact Hres|].
  destruct (resolved_record_panics_or_logs k 3 4 buf (len overlong_data) 0 4126 r
              "/tmp/sub" sample_world) as [Hpanic _].
  - vm_compute; reflexivity.
  - exact Hat.
  - lia.
  - vm_compute; reflexivity.
  - cbn; lia.
  - exact Hres.
  - vm_compute; reflexivity.
  - apply Hpanic. right. vm_compute. reflexivity.
Defined.

Lemma resync_not_Panic rd offset event w w' : resync rd offset event w <> Panic w'.
Proof. unfold resync, Reader_Seek. destruct (_ <? 0); discriminate. Qed.

Lemma loop_body_Panic_opened k m buf rd offset w w' :
  loop_body k m buf rd offset w = Panic w' ->
  exists fh, k_open_by_handle_at k w m fh = None.
Proof.
  unfold loop_body.
  destruct (binary_Read rd sizeof_FanotifyEventMetadata) as [rd1 [e1|bs]];
    [discriminate|].
  destruct (binary_Read rd1 sizeof_fanotifyEventInfoFid) as [rd2 [e2|b2]];
    [intros H; now apply resync_not_Panic in H|].
  destruct (binary_Read rd2 sizeof_fileHandleInfo) as [rd3 [e3|b3]];
    [intros H; now apply resync_not_Panic in H|].
  destruct (binary_Read rd3 (Bytes (decode_fileHandleInfo b3))) as [rd4 [e4|h]];
    [intros H; now apply resync_not_Panic in H|].
  unfold resolve_and_log, unix_OpenByHandleAt.
  destruct (k_open_by_handle_at k w m _) as [e|] eqn:Eo.
  - intros H; now apply resync_not_Panic in H.
  - intros _. eexists. exact Eo.
Qed.

(** X7. The process can die of a panic only in a turn in which a handle was
    opened: with a kernel that opens no handle (every handle stale, say) it
    never panics, whatever bytes the reads deliver. *)
Theorem no_panic_without_resolution (k : Kernel) (fuel : nat) (st : State) :
  (forall w m fh, k_open_by_handle_at k w m fh <> None) ->
  (forall w, st <> Panicked w) ->
  forall w, run k fuel st <> Panicked w.
Proof.
  intros Hk. revert st. induction fuel as [|fuel IH]; intros st Hst w; cbn [run];
    [apply Hst|].
  destruct (step k st) as [st'|] eqn:E; [|apply Hst].
  apply IH. intros w1 ->.
  destruct st as [w0 | fd w0 | fd m buf w0 | fd m buf n rd offset w0 | w0 | w0];
    revert E; unfold_step.
  - destruct (unix_FanotifyInit k _ _ w0) as [w2 [e|fd]]; [discriminate|].
    destruct (unix_FanotifyMark k _ _ _ _ _ w2) as [w3 [e|]]; discriminate.
  - destruct (unix_Open k _ _ w0) as [w2 [e|mfd]]; discriminate.
  - destruct (unix_Read k fd buf w0) as [[[w2 b2] [e|n]]|]; discriminate.
  - destruct (offset <? int64 n); [|discriminate].
    destruct (loop_body k m buf rd offset w0) as [rd' o' w2 | w2 | w2] eqn:Eb;
      try discriminate.
    intros _. apply loop_body_Panic_opened in Eb as [fh Hfh].
    now apply (Hk w0 m fh).
  - discriminate.
  - discriminate.
Qed.

Lemma no_panic_without_resolution_witness :
  let k := stale_kernel [inr resolving_data] in
  (forall w m fh, k_open_by_handle_at k w m fh <> None)
  /\ (forall w, Boot (initial_world std_fds) <> Panicked w)
  /\ forall w, run k 6 (Boot (initial_world std_fds)) <> Panicked w.
Proof.
  intros k.
  assert (Hk : forall w m fh, k_open_by_handle_at k w m fh <> None)
    by (intros w m fh; discriminate).
  assert (Hst : forall w, Boot (initial_world std_fds) <> Panicked w)
    by (intros w; discriminate).
  split; [exact Hk|]. split; [exact Hst|].
  exact (no_panic_without_resolution k 6 (Boot (initial_world std_fds)) Hk Hst).
Defined.

(** ** The loop of main *)

Lemma step_in_main_loop (k : Kernel) (st st' : State) :
  in_main_loop st = true -> step k st = Some st' ->
  in_main_loop st' = true \/ exists w, st' = Panicked w.
Proof.
  destruct st as [w0 | fd w0 | fd m buf w0 | fd m buf n rd offset w0 | w0 | w0];
    cbn [in_main_loop]; try discriminate; intros _; unfold_step.
  - destruct (unix_Open k _ _ w0) as [w2 [e|mfd]]; intros H; inversion H; now left.
  - destruct (unix_Read k fd buf w0) as [[[w2 b2] [e|n]]|]; intros H; inversion H;
      now left.
  - destruct (offset <? int64 n); [|intros H; inversion H; now left].
    destruct (loop_body k m buf rd offset w0); intros H; inversion H;
      [now left | now left | right; eauto].
Qed.

Lemma run_in_main_loop (k : Kernel) (fuel : nat) (st : State) :
  in_main_loop st = true ->
  in_main_loop (run k fuel st) = true \/ exists w, run k fuel st = Panicked w.
Proof.
  revert st. induction fuel as [|fuel IH]; intros st Hst; cbn [run]; [now left|].
  destruct (step k st) as [st'|] eqn:E; [|now left].
  destruct (step_in_main_loop k st st' Hst E) as [H | (w & ->)]; [now apply IH|].
  right. exists w. destruct fuel; reflexivity.
Qed.

(** X8. [main] returns only at start-up, when the notification group cannot
    be created or the mark cannot be set; it has then logged that one error
    and has neither opened the target nor read. Once its loop is entered
    the process never exits: it can only go on, block in a read or die of
    a panic. *)
Theorem exits_only_at_startup (k : Kernel) (fuel : nat) (w w' : World) :
  run k fuel (Boot w) = Exited w' ->
  main_start k w = Exited w'
  /\ (exists msg e, log w' = (log w ++ [error_line msg e])%list
                    /\ (msg = "init failed" \/ msg = "mark failed")%string)
  /\ mount_opens (trace w') = mount_opens (trace w)
  /\ trace_reads (trace w') = trace_reads (trace w).
Proof.
  destruct fuel as [|fuel]; [discriminate|].
  cbn [run step]. intros Hrun.
  assert (Hstart : main_start k w = Exited w').
  { destruct (main_start k w) as [w0 | fd w0 | fd m buf w0 | fd m buf n rd o w0
                                  | w0 | w0] eqn:E.
    - exfalso. revert E. unfold main_start.
      destruct (unix_FanotifyInit k _ _ w) as [w2 [e|fd]]; [discriminate|].
      destruct (unix_FanotifyMark k _ _ _ _ _ w2) as [w3 [e|]]; discriminate.
    - destruct (run_in_main_loop k fuel (MainLoop fd w0) eq_refl) as [H | (w1 & H)];
        rewrite Hrun in H; discriminate.
    - destruct (run_in_main_loop k fuel (Reading fd m buf w0) eq_refl)
        as [H | (w1 & H)]; rewrite Hrun in H; discriminate.
    - destruct (run_in_main_loop k fuel (Draining fd m buf n rd o w0) eq_refl)
        as [H | (w1 & H)]; rewrite Hrun in H; discriminate.
    - destruct fuel; cbn [run step] in Hrun; congruence.
    - destruct fuel; cbn [run step] in Hrun; discriminate. }
  split; [exact Hstart|].
  revert Hstart. unfold main_start, unix_FanotifyInit.
  destruct (k_fanotify_init k w) as [e|].
  - intros H; inversion H; subst.
    cbn [log trace log_Error add_log record_call].
    split; [eexists _, _; split; [reflexivity | now left]|].
    unfold trace_reads. rewrite mount_opens_app, filter_app. cbn.
    now rewrite !app_nil_r.
  - cbn [open_new]. unfold unix_FanotifyMark.
    destruct (k_fanotify_mark k _ _) as [e|]; cbn [option_map]; [|discriminate].
    intros H; inversion H; subst.
    cbn [log trace log_Error add_log record_call set_fds].
    split; [eexists _, _; split; [reflexivity | now right]|].
    unfold trace_reads. rewrite !mount_opens_app, !filter_app. cbn.
    now rewrite !app_nil_r.
Qed.

Lemma exits_only_at_startup_witness :
  let w := initial_world std_fds in
  let w' := world_of (next_state denying_kernel (Boot w)) in
  run denying_kernel 5 (Boot w) = Exited w'
  /\ main_start denying_kernel w = Exited w'
  /\ (exists msg e, log w' = (log w ++ [error_line msg e])%list
                    /\ (msg = "init failed" \/ msg = "mark failed")%string)
  /\ mount_opens (trace w') = mount_opens (trace w)
  /\ trace_reads (trace w') = trace_reads (trace w).
Proof.
  intros w w'.
  assert (Hrun : run denying_kernel 5 (Boot w) = Exited w') by reflexivity.
  split; [exact Hrun|].
  exact (exits_only_at_startup denying_kernel 5 w w' Hrun).
Defined.

(** X9. While the target cannot be opened, the process spins between [main]
    and [readEvents] without ever blocking: every move is one failed open
    and one more "unable to get mount fd" line; nothing is read and no
    descriptor is opened. *)
Theorem unopenable_target_spins (k : Kernel) (fuel : nat) (fd : Z) (w : World) :
  (forall w0, k_open k w0 target <> None) ->
  exists w' l,
    run k fuel (MainLoop fd w) = MainLoop fd w'
    /\ log w' = (log w ++ l)%list
    /\ List.length l = fuel
    /\ Forall (fun e => level e = ErrorLevel
                        /\ message e = "unable to get mount fd"%string) l
    /\ fds w' = fds w
    /\ trace_reads (trace w') = trace_reads (trace w).
Proof.
  intros Hk. revert w. induction fuel as [|fuel IH]; intros w.
  - exists w, []. cbn [run]. rewrite app_nil_r. repeat split. constructor.
  - cbn [run]. unfold_step. unfold unix_Open.
    destruct (k_open k w target) as [e|] eqn:E; [|now apply Hk in E].
    destruct (IH (log_Error "unable to get mount fd" (Errno e)
                    (record_call (SysOpen target (Z.lor O_DIRECTORY O_RDONLY)
                                          (inl (Errno e))) w)))
      as (w' & l & Hrun & Hlog & Hlen & Hall & Hfds & Htr).
    exists w', (error_line "unable to get mount fd" (Errno e) :: l).
    split; [exact Hrun|]. split.
    { rewrite Hlog. cbn [log log_Error add_log record_call].
      now rewrite <- app_assoc. }
    split; [cbn [List.length]; now rewrite Hlen|].
    split; [constructor; [now split | exact Hall]|].
    split; [exact Hfds|].
    rewrite Htr. cbn [trace log_Error add_log record_call].
    unfold trace_reads. rewrite filter_app. cbn. now rewrite app_nil_r.
Qed.

Lemma unopenable_target_spins_witness :
  (forall w0, k_open closed_kernel w0 target <> None)
  /\ exists w' l,
       run closed_kernel 7 (MainLoop 3 sample_world) = MainLoop 3 w'
       /\ log w' = (log sample_world ++ l)%list
       /\ List.length l = 7%nat
       /\ Forall (fun e => level e = ErrorLevel
                           /\ message e = "unable to get mount fd"%string) l
       /\ fds w' = fds sample_world
       /\ trace_reads (trace w') = trace_reads (trace sample_world).
Proof.
  assert (Hk : forall w0, k_open closed_kernel w0 target <> None)
    by (intros w0; discriminate).
  split; [exact Hk|].
  exact (unopenable_target_spins closed_kernel 7 3 sample_world Hk).
Defined.

(** X10. When the read of the notification descriptor fails and the target
    can be opened again, the next call of [readEvents] works with a new
    mount descriptor and a new buffer, and the mount descriptor of the call
    that returned is still open: every such restart costs one descriptor. *)
Theorem restart_leaves_mount_descriptor_open k fd m buf w e x :
  k_read k w fd = Some (inl e) ->
  k_open k (log_Error "unable to read" (Errno e)
              (record_call (SysRead fd (inl (Errno e))) w)) target = None ->
  lookup_fd m (fds w) = Some x ->
  exists w2,
    run k 2 (Reading fd m buf w)
    = Reading fd (lowest_free (fds w)) make_buf w2
    /\ fds w2 = (lowest_free (fds w), FdPath target) :: fds w
    /\ lowest_free (fds w) <> m
    /\ lookup_fd m (fds w2) = Some x.
Proof.
  intros Hread Hopen Hm. cbn [run]. unfold_step. unfold unix_Read. rewrite Hread.
  unfold_step. unfold unix_Open. rewrite Hopen. cbn [open_new].
  cbn [fds log_Error add_log record_call set_fds].
  eexists. split; [reflexivity|]. split; [reflexivity|].
  pose proof (lowest_free_fresh (fds w)) as Hfresh.
  split; [intros E; rewrite E in Hfresh; congruence|].
  now apply lookup_fd_other.
Qed.

Lemma restart_leaves_mount_descriptor_open_witness :
  let k := sample_kernel [inl EIO] in
  k_read k sample_world 3 = Some (inl EIO)
  /\ lookup_fd 4 (fds sample_world) = Some (FdPath target)
  /\ exists w2,
       run k 2 (Reading 3 4 make_buf sample_world)
       = Reading 3 (lowest_free (fds sample_world)) make_buf w2
       /\ fds w2 = (lowest_free (fds sample_world), FdPath target) :: fds sample_world
       /\ lowest_free (fds sample_world) <> 4
       /\ lookup_fd 4 (fds w2) = Some (FdPath target).
Proof.
  intros k.
  split; [reflexivity|]. split; [reflexivity|].
  apply (restart_leaves_mount_descriptor_open k 3 4 make_buf sample_world EIO
           (FdPath target)); reflexivity.
Defined.

(** ** A whole read cycle *)

Lemma len_concat_records (rs : list RawRecord) :
  len (concat (map encode_record rs)) = total_length rs.
Proof.
  induction rs as [|r rs IH]; [reflexivity|].
  cbn [map concat total_length fold_right]. fold (total_length rs).
  now rewrite len_app, len_encode_record, IH.
Qed.

Lemma bytes_at_middle (pre bs post : list byte) :
  bytes_at (pre ++ bs ++ post) (len pre) bs.
Proof.
  split; [apply len_nonneg|]. unfold len. rewrite Nat2Z.id.
  rewrite skipn_app, skipn_all, Nat.sub_diag. cbn [app skipn].
  rewrite firstn_app, firstn_all, Nat.sub_diag. cbn [firstn]. apply app_nil_r.
Qed.

Lemma records_at_concat (rs : list RawRecord) :
  Forall wf_record rs ->
  forall pre post,
    records_at (pre ++ concat (map encode_record rs) ++ post) (len pre) rs.
Proof.
  induction 1 as [|r rs Hwf Hrs IH]; intros pre post; cbn [records_at]; [exact I|].
  split; [exact Hwf|]. cbn [map concat]. rewrite <- app_assoc. split.
  - apply bytes_at_middle.
  - specialize (IH (pre ++ encode_record r)%list post).
    rewrite len_app, len_encode_record, <- app_assoc in IH. exact IH.
Qed.

(** X11. A whole read cycle: when the read delivers the encodings of K
    well-formed records, one after the other and no more than the buffer
    holds, and every handle resolves, then K + 2 moves later the program is
    at the next read, the log has grown by exactly the K events in the
    order of the records, and the descriptor table is as before. *)
Theorem read_cycle_logs_all_events k fd m buf link_of (rs : list RawRecord) w :
  len buf < 2 ^ 32 ->
  Forall wf_record rs ->
  total_length rs <= len buf ->
  k_read k w fd = Some (inr (concat (map encode_record rs))) ->
  Forall (fun r => resolves k m (record_handle r) (link_of r)) rs ->
  exists buf' w',
    run k (S (S (List.length rs))) (Reading fd m buf w) = Reading fd m buf' w'
    /\ len buf' = len buf
    /\ log w' = (log w ++ map (record_event link_of) rs)%list
    /\ fds w' = fds w.
Proof.
  intros Hbuf Hwf Htot Hread Hres.
  set (data := concat (map encode_record rs)) in *.
  assert (Hdata : len data = total_length rs) by apply len_concat_records.
  assert (Hgot : firstn (List.length buf) data = data)
    by (apply firstn_all2; unfold len in *; lia).
  set (buf' := (data ++ skipn (List.length data) buf)%list).
  assert (Hbuf' : len buf' = len buf).
  { subst buf'. unfold len in *. rewrite length_app, length_skipn. lia. }
  assert (Hstep : step k (Reading fd m buf w)
                  = Some (Draining fd m buf' (total_length rs) (NewReader buf') 0
                            (record_call (SysRead fd (inr (total_length rs))) w))).
  { unfold_step. unfold unix_Read. rewrite Hread, Hgot, Hdata. reflexivity. }
  assert (Hat : records_at buf' 0 rs).
  { pose proof (records_at_concat rs Hwf [] (skipn (List.length data) buf)) as H.
    exact H. }
  pose proof (len_nonneg data) as Hnn.
  destruct (run_records k fd m buf' (total_length rs) link_of rs 1
              ltac:(lia) Hres 0
              (record_call (SysRead fd (inr (total_length rs))) w) Hat)
    as (w' & Hrun & Hlog & Hfds); [rewrite int64_small; lia|].
  exists buf', w'. split.
  - rewrite (run_step _ _ _ _ Hstep).
    replace (S (List.length rs)) with (List.length rs + 1)%nat by lia.
    unfold NewReader. rewrite Hrun. cbn [run step]. unfold readEvents_turn.
    rewrite int64_small, Z.add_0_l, Z.ltb_irrefl by lia. reflexivity.
  - split; [exact Hbuf'|]. split; [exact Hlog | exact Hfds].
Qed.

Lemma read_cycle_logs_all_events_witness :
  let k := sample_kernel [inr resolving_data] in
  let link_of := fun _ : RawRecord => "/tmp/sub"%string in
  Forall wf_record resolving_records
  /\ total_length resolving_records <= len make_buf
  /\ k_read k sample_world 3 = Some (inr (concat (map encode_record resolving_records)))
  /\ Forall (fun r => resolves k 4 (record_handle r) (link_of r)) resolving_records
  /\ exists buf' w',
       run k (S (S (List.length resolving_records)))
           (Reading 3 4 make_buf sample_world)
       = Reading 3 4 buf' w'
       /\ len buf' = len make_buf
       /\ log w' = (log sample_world
                    ++ map (record_event link_of) resolving_records)%list
       /\ fds w' = fds sample_world.
Proof.
  intros k link_of.
  assert (Hwf : Forall wf_record resolving_records).
  { repeat constructor;
      (apply sample_record_wf; [lia | lia | cbn; intuition discriminate]). }
  assert (Htot : total_length resolving_records <= len make_buf)
    by (vm_compute; discriminate).
  assert (Hread : k_read k sample_world 3
                  = Some (inr (concat (map encode_record resolving_records))))
    by reflexivity.
  assert (Hres : Forall (fun r => resolves k 4 (record_handle r) (link_of r))
                        resolving_records).
  { repeat constructor; apply sample_kernel_resolves; cbn; lia. }
  split; [exact Hwf|]. split; [exact Htot|]. split; [exact Hread|].
  split; [exact Hres|].
  apply (read_cycle_logs_all_events k 3 4 make_buf link_of resolving_records
           sample_world); try assumption.
  vm_compute; reflexivity.
Defined.

(** ** Loops that do not end *)

(** X12. A record that declares the length 0 and whose handle cannot be
    opened stops the decoder for good: every turn ends at the same offset
    with the same reader, so the inner loop never reaches the next record
    or the next read; no event is logged and no descriptor opened while it
    spins. *)
Theorem zero_length_record_spins k fd m buf n off r w (fuel : nat) :
  len buf < 2 ^ 32 ->
  bytes_at buf off (encode_head 0 r) ->
  len (rec_handle r) < 2 ^ 32 ->
  - 2 ^ 31 <= rec_handle_type r < 2 ^ 31 ->
  (forall w0, k_open_by_handle_at k w0 m (record_handle r) <> None) ->
  off < int64 n ->
  exists w',
    run k fuel (Draining fd m buf n {| s := buf; i := off |} off w)
    = Draining fd m buf n {| s := buf; i := off |} off w'
    /\ events (log w') = events (log w)
    /\ fds w' = fds w.
Proof.
  intros Hbuf Hat Hl Ht Hk Hn.
  assert (Ho : 0 <= off) by apply Hat.
  assert (Hoff : off < 2 ^ 62).
  { unfold encode_head in Hat. apply bytes_at_app in Hat as [H1 _].
    apply bytes_at_bound in H1; rewrite len_metadata_bytes in *; lia. }
  assert (He : Event_len (decode_FanotifyEventMetadata (metadata_bytes 0 r)) = 0)
    by (apply Event_len_metadata_bytes; lia).
  revert w. induction fuel as [|fuel IH]; intros w.
  - exists w. cbn [run]. auto.
  - assert (Hstep : exists w1,
               step k (Draining fd m buf n {| s := buf; i := off |} off w)
               = Some (Draining fd m buf n {| s := buf; i := off |} off w1)
               /\ events (log w1) = events (log w) /\ fds w1 = fds w).
    { unfold_step. destruct (Z.ltb_spec off (int64 n)); [|lia].
      rewrite (loop_body_head k m buf off 0 r w Hat Hl Ht).
      unfold resolve_and_log, unix_OpenByHandleAt.
      change (NewFileHandle (Type_ {| Bytes := len (rec_handle r);
                                      Type_ := rec_handle_type r |})
                            (rec_handle r)) with (record_handle r).
      destruct (k_open_by_handle_at k w m (record_handle r)) as [e|] eqn:E;
        [|now apply Hk in E].
      rewrite resync_continue by (rewrite ?He; lia).
      rewrite He, Z.add_0_r. cbn [s].
      eexists. split; [reflexivity|].
      destruct (negb (errors_Is (Errno e) ESTALE)).
      - split; [rewrite events_log_Error|]; reflexivity.
      - split; reflexivity. }
    destruct Hstep as (w1 & Hstep & Hev1 & Hfd1).
    destruct (IH w1) as (w' & Hrun & Hev & Hfd).
    exists w'. rewrite (run_step _ _ _ _ Hstep).
    split; [exact Hrun|]. split; congruence.
Qed.

Lemma zero_length_record_spins_witness :
  let k := sample_kernel [] in
  let buf := buffer_with zero_length_data in
  let r := sample_record "gone" 7 1 in
  bytes_at buf 0 (encode_head 0 r)
  /\ (forall w0, k_open_by_handle_at k w0 4 (record_handle r) <> None)
  /\ exists w',
       run k 1000 (Draining 3 4 buf (len zero_length_data) {| s := buf; i := 0 |} 0
                            sample_world)
       = Draining 3 4 buf (len zero_length_data) {| s := buf; i := 0 |} 0 w'
       /\ events (log w') = events (log sample_world)
       /\ fds w' = fds sample_world.
Proof.
  intros k buf r.
  assert (Hat : bytes_at buf 0 (encode_head 0 r))
    by (split; [lia | vm_compute; reflexivity]).
  assert (Hk : forall w0, k_open_by_handle_at k w0 4 (record_handle r) <> None)
    by (intros w0; discriminate).
  split; [exact Hat|]. split; [exact Hk|].
  apply (zero_length_record_spins k 3 4 buf (len zero_length_data) 0 r
           sample_world 1000); try assumption.
  - vm_compute; reflexivity.
  - vm_compute; reflexivity.
  - cbn; lia.
  - vm_compute; reflexivity.
Defined.

(** X13. A read that returns no bytes is not an end of input for the
    program: nothing is decoded or logged, the buffer keeps its content and
    the same read is made again; while the reads stay empty the process
    spins through them. *)
Theorem empty_reads_spin (k : Kernel) (turns : nat) fd m buf w :
  (forall w0, k_read k w0 fd = Some (inr [])) ->
  exists w',
    run k (2 * turns) (Reading fd m buf w) = Reading fd m buf w'
    /\ log w' = log w
    /\ fds w' = fds w
    /\ trace w' = (trace w ++ repeat (SysRead fd (inr 0)) turns)%list.
Proof.
  intros Hk. revert w. induction turns as [|turns IH]; intros w.
  - exists w. cbn. now rewrite app_nil_r.
  - replace (2 * S turns)%nat with (S (S (2 * turns))) by lia.
    cbn [run]. unfold_step. unfold unix_Read. rewrite Hk.
    rewrite firstn_nil. cbn [List.length skipn app].
    change (len (@nil byte)) with 0.
    unfold_step. change (int64 0) with 0. rewrite Z.ltb_irrefl.
    destruct (IH (record_call (SysRead fd (inr 0)) w))
      as (w' & Hrun & Hlog & Hfds & Htr).
    exists w'. split; [exact Hrun|]. split; [exact Hlog|]. split; [exact Hfds|].
    rewrite Htr. cbn [trace record_call repeat]. now rewrite <- app_assoc.
Qed.

Lemma empty_reads_spin_witness :
  (forall w0, k_read idle_kernel w0 3 = Some (inr []))
  /\ exists w',
       run idle_kernel (2 * 5) (Reading 3 4 make_buf sample_world)
       = Reading 3 4 make_buf w'
       /\ log w' = log sample_world
       /\ fds w' = fds sample_world
       /\ trace w' = (trace sample_world ++ repeat (SysRead 3 (inr 0)) 5)%list.
Proof.
  assert (Hk : forall w0, k_read idle_kernel w0 3 = Some (inr []))
    by (intros w0; reflexivity).
  split; [exact Hk|].
  exact (empty_reads_spin idle_kernel 5 3 4 make_buf sample_world Hk).
Defined.

(** ** maskToHuman and the bits it does not know *)

Lemma testbit_fold_lor (l : list (Z * string)) (k : Z) :
  Forall (fun p => single_bit (fst p)) l ->
  Z.testbit (fold_right (fun p acc => Z.lor (fst p) acc) 0 l) k
  = existsb (fun p => Z.log2 (fst p) =? k) l.
Proof.
  induction 1 as [|p l Hp Hl IH]; cbn [fold_right existsb].
  - apply Z.bits_0.
  - rewrite Z.lor_spec, IH. f_equal. unfold single_bit in Hp.
    rewrite Hp at 1. apply Z.pow2_bits_eqb, Z.log2_nonneg.
Qed.

Lemma flag_table_all_single : Forall (fun p => single_bit (fst p)) flag_table.
Proof. eapply Forall_impl; [|apply flag_table_single_bits]. now intros p [H _]. Qed.

Lemma testbit_recognised_bits (k : Z) :
  Z.testbit recognised_bits k = existsb (fun p => Z.log2 (fst p) =? k) flag_table.
Proof. apply testbit_fold_lor, flag_table_all_single. Qed.

Lemma bit_set_land_recognised (mask : Z) (p : Z * string) :
  In p flag_table ->
  bit_set (Z.land mask recognised_bits) (fst p) = bit_set mask (fst p).
Proof.
  intros Hin. unfold bit_set. rewrite Z.land_spec, testbit_recognised_bits.
  replace (existsb _ flag_table) with true; [apply andb_true_r|].
  symmetry. apply existsb_exists. exists p. split; [assumption | apply Z.eqb_refl].
Qed.

Lemma NoDup_map_inj {A B} (g : A -> B) (l : list A) (a b : A) :
  NoDup (map g l) -> In a l -> In b l -> g a = g b -> a = b.
Proof.
  induction l as [|x l IH]; intros Hnd Ha Hb Hg; [contradiction|].
  cbn [map] in Hnd. inversion Hnd as [|? ? Hnot Hnd']; subst.
  destruct Ha as [->|Ha], Hb as [->|Hb]; auto.
  - exfalso. apply Hnot. rewrite Hg. now apply in_map.
  - exfalso. apply Hnot. rewrite <- Hg. now apply in_map.
Qed.

Lemma In_maskToHuman_flags (mask : Z) (p : Z * string) :
  In p flag_table ->
  (In (snd p) (maskToHuman_flags mask) <-> bit_set mask (fst p) = true).
Proof.
  intros Hin. rewrite maskToHuman_flags_recognised. unfold recognised. split.
  - intros H. apply in_map_iff in H as (q & Hq & Hf).
    apply filter_In in Hf as [Hqin Hset].
    now rewrite (NoDup_map_inj snd flag_table p q flag_table_names_NoDup Hin Hqin).
  - intros Hset. apply in_map. apply filter_In. now split.
Qed.

Lemma land_recognised_eq (m1 m2 : Z) :
  (forall p, In p flag_table -> bit_set m1 (fst p) = bit_set m2 (fst p)) ->
  Z.land m1 recognised_bits = Z.land m2 recognised_bits.
Proof.
  intros H. apply Z.bits_inj'. intros k Hk.
  rewrite !Z.land_spec, testbit_recognised_bits.
  destruct (existsb _ flag_table) eqn:E; [|now rewrite !andb_false_r].
  apply existsb_exists in E as (p & Hin & Hp). apply Z.eqb_eq in Hp. subst k.
  rewrite !andb_true_r. apply (H p Hin).
Qed.

(** X14. Two masks are given the same names exactly when they agree on the
    sixteen bits the function tests, 0x4000EFFF together: every other bit
    of the mask is ignored, and from the names the tested bits can be told.
    Masks that agree on those bits are printed alike. *)
Theorem maskToHuman_depends_on_recognised_bits (m1 m2 : Z) :
  recognised_bits = 0x4000EFFF
  /\ (maskToHuman_flags m1 = maskToHuman_flags m2
      <-> Z.land m1 recognised_bits = Z.land m2 recognised_bits)
  /\ (Z.land m1 recognised_bits = Z.land m2 recognised_bits ->
      maskToHuman m1 = maskToHuman m2)
  /\ maskToHuman (Z.land m1 recognised_bits) = maskToHuman m1.
Proof.
  assert (Hback : forall a b,
             Z.land a recognised_bits = Z.land b recognised_bits ->
             maskToHuman_flags a = maskToHuman_flags b).
  { intros a b H. rewrite !maskToHuman_flags_recognised. unfold recognised.
    f_equal. apply filter_ext_in. intros p Hin.
    rewrite <- (bit_set_land_recognised a p Hin),
            <- (bit_set_land_recognised b p Hin).
    now rewrite H. }
  assert (Hidem : forall a,
             Z.land (Z.land a recognised_bits) recognised_bits
             = Z.land a recognised_bits).
  { intros a. now rewrite <- Z.land_assoc, Z.land_diag. }
  split; [reflexivity|]. split; [split|split].
  - intros H. apply land_recognised_eq. intros p Hin.
    pose proof (In_maskToHuman_flags m1 p Hin) as H1.
    pose proof (In_maskToHuman_flags m2 p Hin) as H2.
    rewrite H in H1.
    destruct (bit_set m1 (fst p)), (bit_set m2 (fst p)); try reflexivity; exfalso.
    + assert (Hx : In (snd p) (maskToHuman_flags m2)) by now apply H1.
      apply H2 in Hx. discriminate.
    + assert (Hx : In (snd p) (maskToHuman_flags m2)) by now apply H2.
      apply H1 in Hx. discriminate.
  - apply Hback.
  - intros H. unfold maskToHuman. now rewrite (Hback m1 m2 H).
  - unfold maskToHuman. now rewrite (Hback _ m1 (Hidem m1)).
Qed.

Lemma concat_nonempty (sep : string) (l : list string) :
  l <> [] -> Forall (fun x => x <> ""%string) l -> String.concat sep l <> ""%string.
Proof.
  intros Hl Hall. destruct l as [|x l]; [congruence|].
  inversion Hall as [|? ? Hx _]; subst.
  destruct x as [|c x]; [congruence|].
  destruct l; cbn; discriminate.
Qed.

Lemma flag_table_names_nonempty : Forall (fun p => snd p <> ""%string) flag_table.
Proof. repeat constructor; discriminate. Qed.

Lemma maskToHuman_flags_nonempty_names (mask : Z) :
  Forall (fun x => x <> ""%string) (maskToHuman_flags mask).
Proof.
  rewrite maskToHuman_flags_recognised. apply Forall_forall. intros x Hx.
  apply in_map_iff in Hx as (p & <- & Hp). apply filter_In in Hp as [Hp _].
  pose proof flag_table_names_nonempty as H.
  rewrite Forall_forall in H. now apply H.
Qed.

Lemma maskToHuman_empty_land (mask : Z) :
  maskToHuman mask = ""%string <-> Z.land mask recognised_bits = 0.
Proof.
  assert (H0 : Z.land 0 recognised_bits = 0) by reflexivity.
  split.
  - intros H. rewrite <- H0. apply land_recognised_eq. intros p Hin.
    assert (Hnil : maskToHuman_flags mask = []).
    { destruct (maskToHuman_flags mask) as [|x l] eqn:E; [reflexivity|].
      exfalso. revert H. unfold maskToHuman, strings_Join. rewrite E.
      apply concat_nonempty; [discriminate|].
      rewrite <- E. apply maskToHuman_flags_nonempty_names. }
    pose proof (In_maskToHuman_flags mask p Hin) as H1.
    pose proof (In_maskToHuman_flags 0 p Hin) as H2.
    rewrite Hnil in H1.
    destruct (bit_set mask (fst p)) eqn:E1.
    + exfalso. now apply H1.
    + unfold bit_set. now rewrite Z.bits_0.
  - intros H. rewrite <- H0 in H.
    assert (Hf : maskToHuman_flags mask = maskToHuman_flags 0).
    { rewrite !maskToHuman_flags_recognised. unfold recognised.
      f_equal. apply filter_ext_in. intros p Hin.
      rewrite <- (bit_set_land_recognised mask p Hin),
              <- (bit_set_land_recognised 0 p Hin).
      now rewrite H. }
    unfold maskToHuman. now rewrite Hf.
Qed.

(** X15. [maskToHuman] returns the empty string exactly for the masks that
    have none of the sixteen tested bits set: for the empty mask, and for
    every mask of unknown bits only, such as FAN_OPEN_EXEC (0x1000) or the
    permission events. *)
Theorem maskToHuman_empty_iff (mask : Z) :
  (maskToHuman mask = ""%string <-> Z.land mask recognised_bits = 0)
  /\ (maskToHuman mask = ""%string <-> maskToHuman_flags mask = [])
  /\ maskToHuman 0 = ""%string.
Proof.
  split; [apply maskToHuman_empty_land|]. split; [|reflexivity].
  split.
  - intros H. destruct (maskToHuman_flags mask) as [|x l] eqn:E; [reflexivity|].
    exfalso. revert H. unfold maskToHuman, strings_Join. rewrite E.
    apply concat_nonempty; [discriminate|].
    rewrite <- E. apply maskToHuman_flags_nonempty_names.
  - intros H. unfold maskToHuman. now rewrite H.
Qed.

(** X16. Every kind of event the program subscribes to has a name: an event
    mask that is not empty and holds only bits of [markMask] is never
    printed as the empty string. *)
Theorem subscribed_events_have_names (mask : Z) :
  mask <> 0 -> Z.land mask markMask = mask ->
  maskToHuman mask <> ""%string.
Proof.
  intros Hne Hsub Hempty. apply Hne.
  apply maskToHuman_empty_land in Hempty.
  assert (Hmark : Z.land markMask recognised_bits = markMask) by reflexivity.
  rewrite <- Hsub, <- Hmark, Z.land_assoc, Hsub.
  rewrite <- Hsub, <- Z.land_assoc, (Z.land_comm markMask), Z.land_assoc, Hempty.
  apply Z.land_0_l.
Qed.

Lemma subscribed_events_have_names_witness :
  Z.lor FAN_DELETE FAN_CLOSE_WRITE <> 0
  /\ Z.land (Z.lor FAN_DELETE FAN_CLOSE_WRITE) markMask = Z.lor FAN_DELETE FAN_CLOSE_WRITE
  /\ maskToHuman (Z.lor FAN_DELETE FAN_CLOSE_WRITE) <> ""%string.
Proof.
  assert (H1 : Z.lor FAN_DELETE FAN_CLOSE_WRITE <> 0) by discriminate.
  assert (H2 : Z.land (Z.lor FAN_DELETE FAN_CLOSE_WRITE) markMask
               = Z.lor FAN_DELETE FAN_CLOSE_WRITE) by reflexivity.
  split; [exact H1|]. split; [exact H2|].
  exact (subscribed_events_have_names (Z.lor FAN_DELETE FAN_CLOSE_WRITE) H1 H2).
Defined.

(** ** The directory of a deleted object *)

Lemma length_append (a b : string) :
  String.length (a ++ b) = (String.length a + String.length b)%nat.
Proof. induction a as [|c a IH]; cbn; [reflexivity | now rewrite IH]. Qed.

Lemma substring_whole (a : string) : substring 0 (String.length a) a = a.
Proof. induction a as [|c a IH]; cbn; [reflexivity | now rewrite IH]. Qed.

Lemma substring_append_left (a b : string) :
  substring 0 (String.length a) (a ++ b) = a.
Proof.
  induction a as [|c a IH]; cbn; [now destruct b | now rewrite IH].
Qed.

Lemma substring_append_right (a b : string) (n : nat) :
  substring (String.length a) n (a ++ b) = substring 0 n b.
Proof. induction a as [|c a IH]; cbn; [reflexivity | exact IH]. Qed.

Lemma substring_split (a : string) (k : nat) :
  (k <= String.length a)%nat ->
  a = (substring 0 k a ++ substring k (String.length a - k) a)%string.
Proof.
  revert k. induction a as [|c a IH]; intros k Hk.
  - destruct k; reflexivity.
  - destruct k as [|k].
    + cbn [substring String.length Nat.sub append]. now rewrite substring_whole.
    + cbn [substring String.length Nat.sub append] in *.
      rewrite <- (IH k) by lia. reflexivity.
Qed.

(** X17. The directory the program works with is the link of the opened
    descriptor with at most one trailing " (deleted)" removed: a link that
    ends in that marker loses it, once, and any other link is kept as it
    is. So a directory whose own name ends in " (deleted)" is reported with
    its name cut short. *)
Theorem resolved_dir_drops_deleted_marker (link : string) :
  resolved_dir (link ++ " (deleted)") = link
  /\ exists rest,
       link = (resolved_dir link ++ rest)%string
       /\ (rest = ""%string \/ rest = " (deleted)"%string)
       /\ (rest = ""%string <-> HasSuffix link " (deleted)" = false).
Proof.
  split.
  - unfold resolved_dir, TrimSuffix, HasSuffix.
    rewrite length_append.
    replace (String.length link + String.length " (deleted)"
             - String.length " (deleted)")%nat
      with (String.length link) by lia.
    rewrite substring_append_right, substring_whole, String.eqb_refl.
    destruct (Nat.leb_spec (String.length " (deleted)")
                (String.length link + String.length " (deleted)")); [|lia].
    cbn [andb]. apply substring_append_left.
  - unfold resolved_dir, TrimSuffix.
    destruct (HasSuffix link " (deleted)") eqn:E.
    + exists " (deleted)"%string. unfold HasSuffix in E.
      apply andb_true_iff in E as [Hlen Heq].
      apply Nat.leb_le in Hlen. apply String.eqb_eq in Heq.
      split; [|split; [now right | split; discriminate]].
      pose proof (substring_split link
                    (String.length link - String.length " (deleted)")
                    (Nat.le_sub_l _ _)) as Hs.
      replace (String.length link
               - (String.length link - String.length " (deleted)"))%nat
        with (String.length " (deleted)") in Hs by lia.
      rewrite Heq in Hs. exact Hs.
    + exists ""%string. split; [|split; [now left | split; auto]].
      clear. induction link as [|c l IH]; cbn; [reflexivity | now rewrite <- IH].
Qed.

(** ** The wire format *)

Ltac le_field w z :=
  let H := fresh in
  pose proof (le_uint_le_bytes w z) as H; cbn [le_bytes] in H; rewrite H; clear H.

(** X18. The structures the program reads with [binary.Read] match the
    layout of a record: what is written field by field, little endian, in
    24 + 12 + 8 bytes, is read back into the same field values, signed
    fields included. *)
Theorem wire_structs_round_trip (d : Z) (r : RawRecord) :
  0 <= d < 2 ^ 32 -> fields_in_range r ->
  decode_FanotifyEventMetadata (metadata_bytes d r)
  = {| Event_len := d; Vers := rec_vers r; Reserved := rec_reserved r;
       Metadata_len := rec_metadata_len r; Mask := rec_mask r;
       Fd := rec_fd r; Pid := rec_pid r |}
  /\ decode_fanotifyEventInfoFid (fid_bytes r)
     = {| Header := {| InfoType := rec_info_type r; Pad := rec_pad r;
                       Len := rec_info_len r |};
          FSID := rec_fsid r |}
  /\ decode_fileHandleInfo (handle_info_bytes r)
     = {| Bytes := len (rec_handle r); Type_ := rec_handle_type r |}
  /\ len (metadata_bytes d r) = sizeof_FanotifyEventMetadata
  /\ len (fid_bytes r) = sizeof_fanotifyEventInfoFid
  /\ len (handle_info_bytes r) = sizeof_fileHandleInfo.
Proof.
  intros Hd (Hv & Hr & Hm & Hk & Hf & Hp & Hi & Ha & Hl & Hs & Ht & Hh).
  split; [|split; [|split; [now apply decode_handle_info_bytes | repeat split]]].
  - unfold decode_FanotifyEventMetadata, metadata_bytes.
    cbn [le_bytes app field firstn skipn].
    le_field 4%nat d. le_field 1%nat (rec_vers r). le_field 1%nat (rec_reserved r).
    le_field 2%nat (rec_metadata_len r). le_field 8%nat (rec_mask r).
    le_field 4%nat (rec_fd r). le_field 4%nat (rec_pid r).
    change (8 * Z.of_nat 4) with 32. change (8 * Z.of_nat 1) with 8.
    change (8 * Z.of_nat 2) with 16. change (8 * Z.of_nat 8) with 64.
    rewrite !int32_mod by assumption.
    rewrite !Z.mod_small by assumption. reflexivity.
  - unfold decode_fanotifyEventInfoFid, fid_bytes.
    cbn [le_bytes app field firstn skipn].
    le_field 1%nat (rec_info_type r). le_field 1%nat (rec_pad r).
    le_field 2%nat (rec_info_len r). le_field 8%nat (rec_fsid r).
    change (8 * Z.of_nat 1) with 8.
    change (8 * Z.of_nat 2) with 16. change (8 * Z.of_nat 8) with 64.
    rewrite !Z.mod_small by assumption. reflexivity.
Qed.

Lemma wire_structs_round_trip_witness :
  let r := sample_record "a.txt" (-3) 3 in
  fields_in_range r
  /\ decode_FanotifyEventMetadata (metadata_bytes 60 r)
     = {| Event_len := 60; Vers := rec_vers r; Reserved := rec_reserved r;
          Metadata_len := rec_metadata_len r; Mask := rec_mask r;
          Fd := rec_fd r; Pid := rec_pid r |}
  /\ decode_fanotifyEventInfoFid (fid_bytes r)
     = {| Header := {| InfoType := rec_info_type r; Pad := rec_pad r;
                       Len := rec_info_len r |};
          FSID := rec_fsid r |}
  /\ decode_fileHandleInfo (handle_info_bytes r)
     = {| Bytes := len (rec_handle r); Type_ := rec_handle_type r |}
  /\ len (metadata_bytes 60 r) = sizeof_FanotifyEventMetadata
  /\ len (fid_bytes r) = sizeof_fanotifyEventInfoFid
  /\ len (handle_info_bytes r) = sizeof_fileHandleInfo.
Proof.
  intros r.
  assert (Hr : fields_in_range r).
  { unfold fields_in_range. cbn. unfold FAN_CREATE. repeat split; lia. }
  split; [exact Hr|].
  apply (wire_structs_round_trip 60 r); [lia | exact Hr].
Defined.

(** ** The calls of a turn *)





(** ** The end of the inner loop *)

Lemma header_read_declared_length (buf : list byte) (off : Z) rd1 bs :
  0 <= off ->
  binary_Read {| s := buf; i := off |} sizeof_FanotifyEventMetadata = (rd1, inr bs) ->
  declared_length_at buf off = Some (Event_len (decode_FanotifyEventMetadata bs)).
Proof.
  intros Ho Hrd. unfold declared_length_at, sizeof_FanotifyEventMetadata in *.
  destruct (Z.leb_spec (off + 24) (len buf)) as [Hle|Hgt].
  - rewrite binary_Read_enough in Hrd by (cbn [s i]; lia).
    assert (Hbs : bs = firstn (Z.to_nat 24) (skipn (Z.to_nat off) buf))
      by (cbn [s i] in Hrd; congruence).
    rewrite Hbs.
    unfold decode_FanotifyEventMetadata. cbn [Event_len]. unfold field.
    change (skipn 0 (firstn (Z.to_nat 24) (skipn (Z.to_nat off) buf)))
      with (firstn (Z.to_nat 24) (skipn (Z.to_nat off) buf)).
    rewrite firstn_firstn. reflexivity.
  - destruct (binary_Read_short {| s := buf; i := off |} 24)
      as (r' & e & E & _); cbn [s i]; try lia.
    rewrite E in Hrd. discriminate.
Qed.

Lemma inner_loop_ends_within k fd m buf n (fuel : nat) :
  0 <= n < 2 ^ 61 ->
  forall off w,
    0 <= off ->
    no_zero_length fuel buf n off = true ->
    exists j, (j <= S fuel)%nat
              /\ left_inner_loop
                   (run k j (Draining fd m buf n {| s := buf; i := off |} off w))
                 = true.
Proof.
  intros Hn. assert (Hint : int64 n = n) by (apply int64_small; lia).
  assert (Hdone : forall off w, n <= off ->
             left_inner_loop
               (run k 1 (Draining fd m buf n {| s := buf; i := off |} off w)) = true).
  { intros off w Hge. cbn [run]. unfold_step. rewrite Hint.
    destruct (Z.ltb_spec off n); [lia | reflexivity]. }
  induction fuel as [|fuel IH]; intros off w Ho Hnz; cbn [no_zero_length] in Hnz.
  - exists 1%nat. split; [lia|]. apply Hdone. now apply Z.leb_le.
  - destruct (Z.leb_spec n off) as [Hge|Hlt].
    { exists 1%nat. split; [lia|]. now apply Hdone. }
    destruct (loop_body_outcome k m buf {| s := buf; i := off |} off w ltac:(lia))
      as [(rd1 & e & Hhdr & Hbody)
         | (rd1 & bs & Hhdr & [(w1 & l & Hbody & _) | (w1 & Hbody & _)])].
    + exists 1%nat. split; [lia|]. cbn [run]. unfold_step. rewrite Hint.
      destruct (Z.ltb_spec off n); [|lia]. now rewrite Hbody.
    + rewrite (header_read_declared_length buf off rd1 bs Ho Hhdr) in Hnz.
      apply andb_true_iff in Hnz as [Hpos Hrest]. apply Z.leb_le in Hpos.
      destruct (IH (off + Event_len (decode_FanotifyEventMetadata bs)) w1
                   ltac:(lia) Hrest) as (j & Hj & Hleft).
      exists (S j). split; [lia|]. cbn [run]. unfold_step. rewrite Hint.
      destruct (Z.ltb_spec off n); [|lia]. rewrite Hbody. exact Hleft.
    + exists 1%nat. split; [lia|]. cbn [run]. unfold_step. rewrite Hint.
      destruct (Z.ltb_spec off n); [|lia]. now rewrite Hbody.
Qed.

(** X20. The offsets the inner loop visits depend on the buffer alone: each
    is the one before plus the length declared there. If along them no
    record below the number of bytes read declares the length 0, the inner
    loop is left, for the next read or by a panic, after at most one turn
    per byte read and one more test, whatever the kernel answers. *)
Theorem inner_loop_ends k fd m buf n w :
  0 <= n < 2 ^ 61 ->
  no_zero_length (Z.to_nat n) buf n 0 = true ->
  exists j, (j <= S (Z.to_nat n))%nat
            /\ left_inner_loop (run k j (Draining fd m buf n (NewReader buf) 0 w))
               = true.
Proof.
  intros Hn Hnz.
  exact (inner_loop_ends_within k fd m buf n (Z.to_nat n) Hn 0 w ltac:(lia) Hnz).
Qed.

Lemma inner_loop_ends_witness :
  let buf := buffer_with resolving_data in
  let n := len resolving_data in
  0 <= n < 2 ^ 61
  /\ no_zero_length (Z.to_nat n) buf n 0 = true
  /\ exists j, (j <= S (Z.to_nat n))%nat
               /\ left_inner_loop
                    (run (sample_kernel []) j
                         (Draining 3 4 buf n (NewReader buf) 0 sample_world))
                  = true.
Proof.
  intros buf n.
  assert (Hn : 0 <= n < 2 ^ 61) by (vm_compute; split; [discriminate | reflexivity]).
  assert (Hnz : no_zero_length (Z.to_nat n) buf n 0 = true)
    by (vm_compute; reflexivity).
  split; [exact Hn|]. split; [exact Hnz|].
  exact (inner_loop_ends (sample_kernel []) 3 4 buf n sample_world Hn Hnz).
Defined.
